(** * Lumina Press editor: the upload pipeline of [App.tsx]

    A shallow embedding of the React component [App] (src/App.tsx), of the
    generative services it calls (services/geminiService), of the document
    parser (services/documentParser.ts) and of the [FileUpload] component.

    The component is asynchronous.  Every handler is cut at its [await]s:
    the code between two awaits runs to completion and is one function on
    the configuration; a pending await is a [Task] that the environment
    settles later with a value or a rejection.  React state setters are
    applied in program order, functional updaters ([setBook(prev => ...)])
    on the latest state.  Next to the component state a configuration
    keeps the pending calls and, as history, the calls made and the
    chapter writer's returns.

    [fire] says what the handler of an event does; [step] runs it when
    the rendered interface offers the event ([FileUpload] is on screen
    in IDLE only) or when a pending call settles. The properties of a
    run are stated over the configurations reachable by [step]. *)

From Stdlib Require Import ZArith Ascii.
From stdpp Require Import base option list strings.

Local Open Scope string_scope.

(** ** Values of the host language *)

(** Documents produced by [JSON.parse]. Objects keep their members in
    source order; a later duplicate key wins, as in the host. *)
#[warnings="-register-all"]
Inductive JValue :=
| JNull
| JBool (b : bool)
| JNum (n : Z)
| JStr (s : string)
| JArr (xs : list JValue)
| JObj (props : list (string * JValue)).

(** [!v] is false. *)
Definition truthy (v : JValue) : bool :=
  match v with
  | JNull => false
  | JBool b => b
  | JNum n => negb (n =? 0)%Z
  | JStr s => negb (String.eqb s "")
  | JArr _ | JObj _ => true
  end.

Fixpoint lookup_last (k : string) (props : list (string * JValue)) : option JValue :=
  match props with
  | [] => None
  | (k', v) :: rest =>
      match lookup_last k rest with
      | Some w => Some w
      | None => if String.eqb k k' then Some v else None
      end
  end.

(** [v.k] for a data key [k] and [v] not null: [None] is [undefined].
    The keys read by the program (metadata, chapters, id, title,
    description) are no built-in member of strings, numbers or arrays. *)
Definition own_prop (v : JValue) (k : string) : option JValue :=
  match v with
  | JObj props => lookup_last k props
  | _ => None
  end.

(** [a || b] where [a] may be undefined. *)
Definition js_or (a : option JValue) (b : JValue) : JValue :=
  match a with
  | Some v => if truthy v then v else b
  | None => b
  end.

(** Turning a value into a string, as a template literal and the
    concatenation with a string do, raises for an object that has a
    member [toString] of its own: no member of a parsed document is
    callable, and [valueOf], inherited or not, gives no primitive. An
    array is joined element by element, so it raises when one of its
    elements does. *)
Fixpoint to_string_raises (v : JValue) : bool :=
  match v with
  | JObj props => existsb (fun kv => String.eqb (fst kv) "toString") props
  | JArr xs => existsb to_string_raises xs
  | _ => false
  end.

(** A value given to React as the child of an element: strings and
    numbers are shown, booleans and null show nothing, an array shows
    its elements, and any other object makes the render raise. *)
Fixpoint valid_child (v : JValue) : bool :=
  match v with
  | JObj _ => false
  | JArr xs => forallb valid_child xs
  | _ => true
  end.

(** The same for a member that may be undefined, which shows nothing. *)
Definition child_ok (v : option JValue) : bool :=
  match v with
  | Some v => valid_child v
  | None => true
  end.

(** Arrays with holes: [None] is an empty slot or an undefined element;
    both read as undefined. *)
Definition js_get {A} (a : list (option A)) (i : nat) : option A :=
  match a !! i with
  | Some (Some x) => Some x
  | _ => None
  end.

(** [a[i] = x]: in range the slot is replaced, past the end the array
    grows and the slots in between stay empty. *)
Definition js_set {A} (a : list (option A)) (i : nat) (x : A) : list (option A) :=
  if decide (i < length a) then <[i := Some x]> a
  else a ++ replicate (i - length a) None ++ [Some x].

(** What a rejected promise or a [throw] carries, as far as the program
    looks at it: the [message] property, a string where there is one.
    Engine-raised errors have a message chosen by the engine, never
    empty. [Nullish] is a rejection that carries null or undefined (a
    bare [reject()]); [catch (err: any)] receives it like any other. *)
Inductive Message :=
| Text (s : string)
| SyntaxErrorText
| TypeErrorText.

Inductive JsError :=
| Thrown (message : option string)
| SyntaxError
| TypeError
| Nullish.

(** A settled promise. *)
Inductive outcome (A : Type) :=
| Resolved (a : A)
| Rejected (e : JsError).
Arguments Resolved {A} a.
Arguments Rejected {A} e.

(** [err.message]. Reading a member of null or undefined raises. *)
Definition message (e : JsError) : outcome (option Message) :=
  match e with
  | Thrown m => Resolved (Text <$> m)
  | SyntaxError => Resolved (Some SyntaxErrorText)
  | TypeError => Resolved (Some TypeErrorText)
  | Nullish => Rejected TypeError
  end.

(** ** types.ts *)

Inductive LoadingState :=
| IDLE | PARSING | PLANNING | WRITING | GENERATING_COVER | ERROR | SUCCESS.

Inductive ChapterStatus := pending | generating | completed | error.

Inductive StepStatus := step_pending | step_processing | step_completed | step_error.

#[global] Instance LoadingState_eq_dec : EqDecision LoadingState.
Proof. solve_decision. Defined.
#[global] Instance ChapterStatus_eq_dec : EqDecision ChapterStatus.
Proof. solve_decision. Defined.
#[global] Instance StepStatus_eq_dec : EqDecision StepStatus.
Proof. solve_decision. Defined.

(** A chapter object at run time. The interface declares [id], [title]
    and [content] as strings, but the objects come out of [JSON.parse]
    and of object spreads, so each member may be absent ([None]) and the
    planner's members hold whatever the response held. Members the
    program never reads are left out. *)
Module Chapter.
Record t := mk {
  id : option JValue;
  title : option JValue;
  description : option JValue;
  content : option string;
  status : ChapterStatus;
  pageStart : option nat
}.

(** [{ ...o, status: s }] *)
Definition spread_status (o : option t) (s : ChapterStatus) : t :=
  match o with
  | Some ch => mk (id ch) (title ch) (description ch) (content ch) s (pageStart ch)
  | None => mk None None None None s None
  end.

(** [{ ...o, status: s, content: c }] *)
Definition spread_status_content (o : option t) (s : ChapterStatus) (c : string) : t :=
  match o with
  | Some ch => mk (id ch) (title ch) (description ch) (Some c) s (pageStart ch)
  | None => mk None None None (Some c) s None
  end.
End Chapter.

Module Book.
Record t := mk {
  metadata : JValue;
  chapters : list (option Chapter.t);
  coverUrl : option string;
  rawText : option string
}.

(** [{ ...b, chapters: chs }] *)
Definition with_chapters (chs : list (option Chapter.t)) (b : t) : t :=
  mk (metadata b) chs (coverUrl b) (rawText b).

(** [{ ...b, coverUrl: url }] *)
Definition with_coverUrl (url : string) (b : t) : t :=
  mk (metadata b) (chapters b) (Some url) (rawText b).
End Book.

Module ProcessingStep.
Record t := mk { label : string; status : StepStatus }.
End ProcessingStep.

Module File.
Record t := mk { name : string; type : string }.
End File.

(** ** services/documentParser.ts *)

(** What the environment does with the file: the reader fails, or it
    loads the buffer and then [window.mammoth] is missing ([None]) or
    its [extractRawText] settles. *)
Inductive FileRead :=
| ReaderError
| Loaded (mammoth : option (outcome string)).

Definition parseDocx (read : FileRead) : outcome string :=
  match read with
  | ReaderError => Rejected (Thrown None)
  | Loaded None => Rejected (Thrown (Some "Mammoth.js library not loaded"))
  | Loaded (Some (Rejected e)) => Rejected e
  | Loaded (Some (Resolved value)) => Resolved value
  end.

(** ** services/geminiService *)

(** The [text] of the planning response, seen through the host's
    [JSON.parse]: no text (undefined or empty), a text the parser
    refuses, or a text that parses to a document. *)
Inductive StructureText :=
| NoText
| Malformed
| Json (v : JValue).

Definition generateBookStructure (response : outcome StructureText) : outcome JValue :=
  match response with
  | Rejected e => Rejected e
  | Resolved NoText => Rejected (Thrown (Some "No response from AI"))
  | Resolved Malformed => Rejected SyntaxError
  | Resolved (Json v) => Resolved v
  end.

(** [response.text || ""] *)
Definition generateChapterContent (response : outcome (option string)) : outcome string :=
  match response with
  | Rejected e => Rejected e
  | Resolved text => Resolved (default "" text)
  end.

(** The image response: [candidates], the [content] of a candidate, its
    [parts], and for a part the data of its [inlineData] if it has one. *)
Record Part := { inlineData : option string }.
Record Candidate := { candidate_content : option (option (list Part)) }.
Record ImageResponse := { candidates : option (list Candidate) }.

(** The loop over the parts: the data of the first part with inline data. *)
Fixpoint first_inline (parts : list Part) : string :=
  match parts with
  | [] => ""
  | p :: rest =>
      match inlineData p with
      | Some data => data
      | None => first_inline rest
      end
  end.

Definition generateBookCover (response : outcome ImageResponse) : outcome string :=
  match response with
  | Rejected e => Rejected e
  | Resolved r =>
      let extracted :=
        match candidates r with
        | None => Resolved ""
        | Some [] => Rejected TypeError
        | Some (c :: _) =>
            match candidate_content c with
            | Some (Some parts) => Resolved (first_inline parts)
            | _ => Resolved ""
            end
        end in
      match extracted with
      | Rejected e => Rejected e
      | Resolved base64Image =>
          if String.eqb base64Image "" then Rejected (Thrown (Some "Failed to generate image"))
          else Resolved ("data:image/png;base64," ++ base64Image)
      end
  end.

(** ** App.tsx: state of the component *)

(** The steps [App] starts from (its own list, not the one exported by
    constants.ts, which it does not import). *)

Definition INITIAL_STEPS : list ProcessingStep.t :=
  [ ProcessingStep.mk "Reading manuscript" step_pending;
    ProcessingStep.mk "Analyzing structure & removing duplicates" step_pending;
    ProcessingStep.mk "Planning chapters (Table of Contents)" step_pending;
    ProcessingStep.mk "Writing content chapter by chapter" step_pending ].

Record AppState := mkApp {
  loadingState : LoadingState;
  steps : list ProcessingStep.t;
  book : option Book.t;
  activeChapterId : option JValue;
  isGeneratingCover : bool;
  errorMsg : option Message;
  abortRef : bool
}.

Definition initialState : AppState :=
  mkApp IDLE INITIAL_STEPS None None false None false.

Definition setLoadingState (v : LoadingState) (s : AppState) : AppState :=
  mkApp v (steps s) (book s) (activeChapterId s) (isGeneratingCover s) (errorMsg s) (abortRef s).

Definition setSteps (f : list ProcessingStep.t -> list ProcessingStep.t) (s : AppState) : AppState :=
  mkApp (loadingState s) (f (steps s)) (book s) (activeChapterId s) (isGeneratingCover s)
        (errorMsg s) (abortRef s).

Definition setBook (f : option Book.t -> option Book.t) (s : AppState) : AppState :=
  mkApp (loadingState s) (steps s) (f (book s)) (activeChapterId s) (isGeneratingCover s)
        (errorMsg s) (abortRef s).

Definition setActiveChapterId (v : option JValue) (s : AppState) : AppState :=
  mkApp (loadingState s) (steps s) (book s) v (isGeneratingCover s) (errorMsg s) (abortRef s).

Definition setIsGeneratingCover (v : bool) (s : AppState) : AppState :=
  mkApp (loadingState s) (steps s) (book s) (activeChapterId s) v (errorMsg s) (abortRef s).

Definition setErrorMsg (v : option Message) (s : AppState) : AppState :=
  mkApp (loadingState s) (steps s) (book s) (activeChapterId s) (isGeneratingCover s) v (abortRef s).

(** The ref is a mutable cell of the component; no code of the component
    assigns it. This setter exists to speak about other values. *)
Definition setAbortRef (v : bool) (s : AppState) : AppState :=
  mkApp (loadingState s) (steps s) (book s) (activeChapterId s) (isGeneratingCover s)
        (errorMsg s) v.

(** [prev.map((step, i) => i === index ? { ...step, status } : step)] *)
Definition updateStepStatus (index : nat) (status : StepStatus) : AppState -> AppState :=
  setSteps (imap (fun i step =>
    if decide (i = index) then ProcessingStep.mk (ProcessingStep.label step) status else step)).

(** The three updaters of the writing loop, [prev => ...] of lines 98,
    114 and 123. *)
Definition mark_generating (i : nat) (prev : option Book.t) : option Book.t :=
  match prev with
  | None => None
  | Some b =>
      let updated := Book.chapters b in
      Some (Book.with_chapters
              (js_set updated i (Chapter.spread_status (js_get updated i) generating)) b)
  end.

Definition mark_completed (i : nat) (content : string) (prev : option Book.t) : option Book.t :=
  match prev with
  | None => None
  | Some b =>
      let updated := Book.chapters b in
      Some (Book.with_chapters
              (js_set updated i (Chapter.spread_status_content (js_get updated i) completed content)) b)
  end.

Definition ERROR_PLACEHOLDER : string := "Error generating content.".

Definition mark_error (i : nat) (prev : option Book.t) : option Book.t :=
  match prev with
  | None => None
  | Some b =>
      let updated := Book.chapters b in
      Some (Book.with_chapters
              (js_set updated i
                 (Chapter.spread_status_content (js_get updated i) error ERROR_PLACEHOLDER)) b)
  end.

(** ** Pending calls and the configuration *)

(** An await in flight, with the local variables its continuation uses. *)
Inductive Task :=
| AwaitParse (file : File.t)
| AwaitStructure (file : File.t) (rawText : string)
| AwaitChapter (currentBook : Book.t) (rawText : string) (i : nat)
| AwaitCover (bookData : Book.t).

(** Calls sent to the services, in the order they were made. *)
Inductive Request :=
| ReqParse (file : File.t)
| ReqStructure (rawText : string) (fileName : string)
| ReqChapter (chapterTitle : option JValue) (chapterDescription : JValue)
             (fullManuscript : string) (bookMetadata : JValue)
| ReqCover (metadata : JValue).

(** The component state, the calls in flight, and two histories: the
    calls made, and the returns of the chapter writer that the loop has
    taken in, call by call (a failure lost in a raising [catch] is not
    among them). *)
Record Config := mkConfig {
  app : AppState;
  tasks : list Task;
  requests : list Request;
  written : list (outcome string)
}.

Definition initialConfig : Config := mkConfig initialState [] [] [].

Definition on_app (f : AppState -> AppState) (c : Config) : Config :=
  mkConfig (f (app c)) (tasks c) (requests c) (written c).

(** Make a call and suspend on it. *)
Definition call (r : Request) (t : Task) (c : Config) : Config :=
  mkConfig (app c) (tasks c ++ [t]) (requests c ++ [r]) (written c).

(** The loop takes in the return [r] of the chapter writer's call. *)
Definition returned (r : outcome string) (c : Config) : Config :=
  mkConfig (app c) (tasks c) (requests c) (written c ++ [r]).

(** ** App.tsx: the handlers, cut at their awaits *)

(** [generateCover], up to its await. *)
Definition generateCover (bookData : Book.t) (c : Config) : Config :=
  call (ReqCover (Book.metadata bookData)) (AwaitCover bookData)
       (on_app (setIsGeneratingCover true) c).

(** [generateCover], from its await on: the [try], the [catch] that only
    logs, and the [finally]. *)
Definition generateCover_settled (r : outcome string) (c : Config) : Config :=
  let c := match r with
           | Resolved url => on_app (setBook (fmap (Book.with_coverUrl url))) c
           | Rejected _ => c
           end in
  on_app (setIsGeneratingCover false) c.

(** The [for] loop of [processChapters] from the test of iteration [i]
    to the next await, or to the end of the function. An empty slot at
    [i] makes [chapter.title] raise inside the [try] and [chapter.id]
    raise inside the [catch]: the function ends there, rejected. *)
Definition processChapters_loop (currentBook : Book.t) (rawText : string) (i : nat)
    (c : Config) : Config :=
  let chaptersToProcess := Book.chapters currentBook in
  if decide (i < length chaptersToProcess) then
    let c := on_app (setBook (mark_generating i)) c in
    match js_get chaptersToProcess i with
    | Some chapter =>
        call (ReqChapter (Chapter.title chapter)
                         (js_or (Chapter.description chapter) (JStr ""))
                         rawText (Book.metadata currentBook))
             (AwaitChapter currentBook rawText i) c
    | None => c
    end
  else on_app (updateStepStatus 3 step_completed) (on_app (setLoadingState SUCCESS) c).

(** [processChapters], up to its first await. *)
Definition processChapters (currentBook : Book.t) (rawText : string) (c : Config) : Config :=
  let rest c := processChapters_loop currentBook rawText 0 (generateCover currentBook c) in
  match Book.chapters currentBook with
  | [] => rest c
  | Some first :: _ => rest (on_app (setActiveChapterId (Chapter.id first)) c)
  | None :: _ => c
  end.

(** [console.error(`Failed to generate chapter ${chapter.id}`, error)],
    the first statement of the loop's [catch]: the template raises when
    the id cannot be turned into a string (an undefined id is printed
    as such), and so does reading the id of a missing chapter. *)
Definition log_raises (chapter : option Chapter.t) : bool :=
  match chapter with
  | Some ch =>
      match Chapter.id ch with
      | Some v => to_string_raises v
      | None => false
      end
  | None => true
  end.

(** Whether the [catch] of iteration [i] is entered and left by a
    raise. *)
Definition catch_raises (currentBook : Book.t) (i : nat) (r : outcome string) : bool :=
  match r with
  | Rejected _ => log_raises (js_get (Book.chapters currentBook) i)
  | Resolved _ => false
  end.

(** [processChapters], resumed when the call for chapter [i] settles.
    When the [catch] raises the function ends there, rejected: the
    failure is stored nowhere, the chapter stays as it is, and neither
    the next iteration nor the end of the loop is reached. *)
Definition processChapters_settled (currentBook : Book.t) (rawText : string) (i : nat)
    (r : outcome string) (c : Config) : Config :=
  if catch_raises currentBook i r then c
  else
    let c := returned r c in
    let c := match r with
             | Resolved content => on_app (setBook (mark_completed i content)) c
             | Rejected _ => on_app (setBook (mark_error i)) c
             end in
    processChapters_loop currentBook rawText (S i) c.

(** [handleFileUpload], up to its first await. *)
Definition handleFileUpload (file : File.t) (c : Config) : Config :=
  let c := on_app (setLoadingState PARSING) c in
  let c := on_app (setErrorMsg None) c in
  let c := on_app (setBook (fun _ => None)) c in
  let c := on_app (setSteps (fun _ => INITIAL_STEPS)) c in
  let c := on_app (updateStepStatus 0 step_processing) c in
  call (ReqParse file) (AwaitParse file) c.

Definition UNEXPECTED : string := "An unexpected error occurred processing your book.".

(** [m || "An unexpected error ..."] for the message [m] read from the
    error. *)
Definition surfaced (m : option Message) : Message :=
  match m with
  | None => Text UNEXPECTED
  | Some (Text m) => if String.eqb m "" then Text UNEXPECTED else Text m
  | Some m => m
  end.

(** The [catch] of [handleFileUpload]. The stage is set first and
    [err.message] is read after it: when that read raises, the handler
    ends there, rejected, and neither the message nor step 0 is set. *)
Definition handleFileUpload_catch (err : JsError) (c : Config) : Config :=
  let c := on_app (setLoadingState ERROR) c in
  match message err with
  | Rejected _ => c
  | Resolved m =>
      let c := on_app (setErrorMsg (Some (surfaced m))) c in
      on_app (updateStepStatus 0 step_error) c
  end.

(** [handleFileUpload], resumed when [parseDocx] settles. *)
Definition handleFileUpload_parsed (file : File.t) (r : outcome string) (c : Config) : Config :=
  match r with
  | Rejected err => handleFileUpload_catch err c
  | Resolved rawText =>
      let c := on_app (updateStepStatus 0 step_completed) c in
      let c := on_app (setLoadingState PLANNING) c in
      let c := on_app (updateStepStatus 1 step_processing) c in
      let c := on_app (updateStepStatus 2 step_processing) c in
      call (ReqStructure rawText (File.name file)) (AwaitStructure file rawText) c
  end.

(** [{ ...ch, status: 'pending', content: '', pageStart: idx * 15 + 1 }]:
    the chapter object made of element [ch] at position [idx]. The
    spread of something that is no object brings no member the program
    reads. *)
Definition chapter_of (idx : nat) (ch : JValue) : Chapter.t :=
  Chapter.mk (own_prop ch "id") (own_prop ch "title") (own_prop ch "description")
             (Some "") pending (Some (idx * 15 + 1)).

(** [(structure.chapters || []).map((ch, idx) => ...)]. Reading a
    member of [null] and calling [map] on something that is no array
    raise a TypeError. *)
Definition materialize (structure : JValue) : outcome (list (option Chapter.t)) :=
  match structure with
  | JNull => Rejected TypeError
  | _ =>
      match js_or (own_prop structure "chapters") (JArr []) with
      | JArr xs => Resolved (imap (fun idx ch => Some (chapter_of idx ch)) xs)
      | _ => Rejected TypeError
      end
  end.

Definition DEFAULT_METADATA : JValue :=
  JObj [("title", JStr "Unknown"); ("author", JStr "Unknown");
        ("summary", JStr ""); ("language", JStr "en")].

(** [handleFileUpload], resumed when [generateBookStructure] settles. *)
Definition handleFileUpload_planned (file : File.t) (rawText : string) (r : outcome JValue)
    (c : Config) : Config :=
  match r with
  | Rejected err => handleFileUpload_catch err c
  | Resolved structure =>
      match materialize structure with
      | Rejected err => handleFileUpload_catch err c
      | Resolved chapters =>
          let newBook :=
            Book.mk (js_or (own_prop structure "metadata") DEFAULT_METADATA)
                    chapters None (Some rawText) in
          let c := on_app (setBook (fun _ => Some newBook)) c in
          let c := on_app (updateStepStatus 1 step_completed) c in
          let c := on_app (updateStepStatus 2 step_completed) c in
          let c := on_app (setLoadingState WRITING) c in
          let c := on_app (updateStepStatus 3 step_processing) c in
          processChapters newBook rawText c
      end
  end.

(** ** components/FileUpload *)

Inductive UploadAction :=
| Ignored
| Alert (msg : string)
| OnFileSelect (file : File.t).

Definition DOCX_TYPE : string :=
  "application/vnd.openxmlformats-officedocument.wordprocessingml.document".

Definition handleDrop (disabled : bool) (files : list File.t) : UploadAction :=
  if disabled then Ignored
  else match files with
       | file :: _ =>
           if String.eqb (File.type file) DOCX_TYPE then OnFileSelect file
           else Alert "Please upload a valid .docx Word file."
       | [] => Ignored
       end.

Definition handleChange (disabled : bool) (files : list File.t) : UploadAction :=
  if disabled then Ignored
  else match files with
       | file :: _ => OnFileSelect file
       | [] => Ignored
       end.

(** ** The component as a transition system *)

Inductive Settlement :=
| ParseSettled (read : FileRead)
| StructureSettled (response : outcome StructureText)
| ChapterSettled (response : outcome (option string))
| CoverSettled (response : outcome ImageResponse).

(** What can happen to the component: the user drops or picks files,
    presses "Try Again", presses the cover button, picks an entry of
    the table of contents, or the [k]-th pending call settles. ("Suggest
    Art" only shows an alert and is left out: it neither reads nor
    writes the state modelled here.) *)
Inductive Event :=
| Drop (files : list File.t)
| Change (files : list File.t)
| TryAgain
| RedesignCover
| SelectChapter (id : option JValue)
| Settle (k : nat) (r : Settlement).

Definition take_task (k : nat) (c : Config) : Config :=
  mkConfig (app c) (delete k (tasks c)) (requests c) (written c).

(** [App] renders [FileUpload] with [onFileSelect={handleFileUpload}]
    and no [disabled]. *)
Definition upload_action (a : UploadAction) (c : Config) : Config :=
  match a with
  | OnFileSelect file => handleFileUpload file c
  | _ => c
  end.

(** What an event runs, whether or not the interface offers it. [None]:
    there is no such pending call, or it cannot settle that way, or
    there is no book for the cover button to pass. *)
Definition fire (e : Event) (c : Config) : option Config :=
  match e with
  | Drop files => Some (upload_action (handleDrop false files) c)
  | Change files => Some (upload_action (handleChange false files) c)
  | TryAgain => Some (on_app (setLoadingState IDLE) c)
  | RedesignCover => (fun b => generateCover b c) <$> book (app c)
  | SelectChapter id => Some (on_app (setActiveChapterId id) c)
  | Settle k r =>
      match tasks c !! k, r with
      | Some (AwaitParse file), ParseSettled read =>
          Some (handleFileUpload_parsed file (parseDocx read) (take_task k c))
      | Some (AwaitStructure file rawText), StructureSettled response =>
          Some (handleFileUpload_planned file rawText (generateBookStructure response)
                  (take_task k c))
      | Some (AwaitChapter currentBook rawText i), ChapterSettled response =>
          Some (processChapters_settled currentBook rawText i
                  (generateChapterContent response) (take_task k c))
      | Some (AwaitCover _), CoverSettled response =>
          Some (generateCover_settled (generateBookCover response) (take_task k c))
      | _, _ => None
      end
  end.

(** The render conditions of [App]: the upload area exists only in
    IDLE, the retry button only in ERROR, the cover button and the
    table of contents only in the editor ([showEditor && book]), and
    the cover button is disabled while a cover is being generated. A
    pending call may settle at any time. *)
Definition showEditor (s : AppState) : bool :=
  bool_decide (loadingState s = WRITING) || bool_decide (loadingState s = SUCCESS).

Definition rendered (e : Event) (s : AppState) : bool :=
  match e with
  | Drop _ | Change _ => bool_decide (loadingState s = IDLE)
  | TryAgain => bool_decide (loadingState s = ERROR)
  | RedesignCover =>
      showEditor s && bool_decide (is_Some (book s)) && negb (isGeneratingCover s)
  | SelectChapter _ => showEditor s && bool_decide (is_Some (book s))
  | Settle _ _ => true
  end.

(** One step of the running application: an event the interface
    offers, or a pending call settling. *)
Definition step (e : Event) (c : Config) : option Config :=
  if rendered e (app c) then fire e c else None.

Fixpoint exec (evs : list Event) (c : Config) : option Config :=
  match evs with
  | [] => Some c
  | e :: rest => step e c ≫= exec rest
  end.

(** The configurations the application gets into from its initial
    state. *)
Inductive reachable : Config -> Prop :=
| reachable_init : reachable initialConfig
| reachable_step c e c' : reachable c -> step e c = Some c' -> reachable c'.

(** ** Invariant of the running application *)

Local Close Scope string_scope.

(** The four step labels with the given statuses. *)
Definition with_statuses (l : list StepStatus) : list ProcessingStep.t :=
  zip_with (fun step s => ProcessingStep.mk (ProcessingStep.label step) s) INITIAL_STEPS l.

(** A chapter as [handleFileUpload] creates it. *)
Definition planned (p : Chapter.t) : Prop :=
  Chapter.status p = pending ∧ Chapter.content p = Some ""%string.

(** The members the writing loop leaves alone. *)
Definition same_plan (p ch : Chapter.t) : Prop :=
  Chapter.id ch = Chapter.id p ∧ Chapter.title ch = Chapter.title p ∧
  Chapter.description ch = Chapter.description p ∧
  Chapter.pageStart ch = Chapter.pageStart p.

(** What the loop stores for a chapter whose call returned [r]. *)
Definition written_as (r : outcome string) (ch : Chapter.t) : Prop :=
  match r with
  | Resolved text => Chapter.status ch = completed ∧ Chapter.content ch = Some text
  | Rejected _ => Chapter.status ch = error ∧ Chapter.content ch = Some ERROR_PLACEHOLDER
  end.

Definition untouched (s : ChapterStatus) (ch : Chapter.t) : Prop :=
  Chapter.status ch = s ∧ Chapter.content ch = Some ""%string.

(** Chapter [j] when the calls of the chapters before [length rs] have
    returned [rs]; [active] tells whether the next iteration has already
    marked its chapter. *)
Definition chapter_state (rs : list (outcome string)) (active : bool) (j : nat)
    (ch : Chapter.t) : Prop :=
  match rs !! j with
  | Some r => written_as r ch
  | None =>
      untouched (if decide (j = length rs) then if active then generating else pending
                 else pending) ch
  end.

(** Book [b] is the plan [cb] after the returns [rs]. *)
Definition follows (cb b : Book.t) (rs : list (outcome string)) (active : bool) : Prop :=
  Book.metadata b = Book.metadata cb ∧
  Book.rawText b = Book.rawText cb ∧
  length (Book.chapters b) = length (Book.chapters cb) ∧
  ∀ j, j < length (Book.chapters cb) →
    ∃ p ch, Book.chapters cb !! j = Some (Some p) ∧
            Book.chapters b !! j = Some (Some ch) ∧
            planned p ∧ same_plan p ch ∧ chapter_state rs active j ch.

Definition as_chapter_request (r : Request) : option Request :=
  match r with
  | ReqChapter _ _ _ _ => Some r
  | _ => None
  end.

(** The calls to the chapter writer, oldest first. *)
Definition chapter_requests (c : Config) : list Request :=
  omap as_chapter_request (requests c).

Definition request_for (cb : Book.t) (rawText : string) (p : Chapter.t) : Request :=
  ReqChapter (Chapter.title p) (js_or (Chapter.description p) (JStr ""%string)) rawText
             (Book.metadata cb).

(** The calls for the first [n] chapters of a book, in its order. *)
Definition planned_requests (cb : Book.t) (rawText : string) (n : nat) : list Request :=
  omap (fmap (request_for cb rawText)) (take n (Book.chapters cb)).

(** The pending cover call, if the flag says there is one. *)
Definition cover_tasks (s : AppState) (l : list Task) : Prop :=
  if isGeneratingCover s then ∃ bookData, l = [AwaitCover bookData] else l = [].

(** The loop has ended in the [catch] of iteration [i]: the id of that
    chapter cannot be printed. *)
Definition lost_at (cb : Book.t) (i : nat) : Prop :=
  log_raises (js_get (Book.chapters cb) i) = true.

(** Stage by stage: which call is pending, what the steps show, and how
    the book stands to the plan of the pending chapter call and to the
    results returned so far. *)
Definition Inv (c : Config) : Prop :=
  let s := app c in
  match loadingState s with
  | IDLE =>
      tasks c = [] ∧ book s = None ∧ isGeneratingCover s = false ∧
      chapter_requests c = [] ∧ written c = []
  | PARSING =>
      book s = None ∧ isGeneratingCover s = false ∧ chapter_requests c = [] ∧
      written c = [] ∧
      steps s = with_statuses [step_processing; step_pending; step_pending; step_pending] ∧
      ∃ file, tasks c = [AwaitParse file]
  | PLANNING =>
      book s = None ∧ isGeneratingCover s = false ∧ chapter_requests c = [] ∧
      written c = [] ∧
      steps s = with_statuses [step_completed; step_processing; step_processing; step_pending] ∧
      ∃ file rawText, tasks c = [AwaitStructure file rawText]
  | WRITING =>
      steps s = with_statuses [step_completed; step_completed; step_completed; step_processing] ∧
      ∃ b cb rawText covers,
        book s = Some b ∧ length (written c) < length (Book.chapters cb) ∧
        follows cb b (written c) true ∧
        (tasks c ≡ₚ AwaitChapter cb rawText (length (written c)) :: covers ∨
         tasks c = covers ∧ lost_at cb (length (written c))) ∧
        cover_tasks s covers ∧
        chapter_requests c = planned_requests cb rawText (S (length (written c)))
  | SUCCESS =>
      steps s = with_statuses [step_completed; step_completed; step_completed; step_completed] ∧
      ∃ b cb rawText,
        book s = Some b ∧ length (written c) = length (Book.chapters cb) ∧
        follows cb b (written c) false ∧
        cover_tasks s (tasks c) ∧
        chapter_requests c = planned_requests cb rawText (length (Book.chapters cb))
  | ERROR =>
      tasks c = [] ∧ book s = None ∧ isGeneratingCover s = false ∧
      chapter_requests c = [] ∧ written c = [] ∧
      (steps s = with_statuses [step_error; step_pending; step_pending; step_pending] ∨
       steps s = with_statuses [step_error; step_processing; step_processing; step_pending] ∨
       steps s = with_statuses [step_processing; step_pending; step_pending; step_pending] ∨
       steps s = with_statuses [step_completed; step_processing; step_processing; step_pending])
  | GENERATING_COVER => False
  end.

(** A configuration in which the next iteration of the loop is about to
    run. *)
Definition loop_ready (cb : Book.t) (rawText : string) (c : Config) : Prop :=
  loadingState (app c) = WRITING ∧
  steps (app c) =
    with_statuses [step_completed; step_completed; step_completed; step_processing] ∧
  (length (written c) ≤ length (Book.chapters cb))%nat ∧
  cover_tasks (app c) (tasks c) ∧
  chapter_requests c = planned_requests cb rawText (length (written c)) ∧
  ∃ b, book (app c) = Some b ∧ follows cb b (written c) false.

(** ** Notions the properties are stated with *)

(** Chapter [j] of the book on screen. *)
Definition chapter_at (c : Config) (j : nat) : option Chapter.t :=
  book (app c) ≫= λ b, js_get (Book.chapters b) j.

(** One move of a chapter status, or none. *)
Inductive status_step : ChapterStatus → ChapterStatus → Prop :=
| status_same s : status_step s s
| status_started : status_step pending generating
| status_completed : status_step generating completed
| status_failed : status_step generating error.

(** The planning stage of [handleFileUpload]: the call, then the
    chapter objects; [Rejected] is what lands in its [catch]. *)
Definition planning (response : outcome StructureText) : outcome (list (option Chapter.t)) :=
  match generateBookStructure response with
  | Rejected err => Rejected err
  | Resolved structure => materialize structure
  end.

(** A pending call of the upload pipeline settles so that the [try] of
    [handleFileUpload] is left through its [catch]. *)
Inductive run_fails : Task → Settlement → JsError → Prop :=
| ExtractionFailed file read err :
    parseDocx read = Rejected err →
    run_fails (AwaitParse file) (ParseSettled read) err
| PlanningFailed file rawText response err :
    planning response = Rejected err →
    run_fails (AwaitStructure file rawText) (StructureSettled response) err.

(** The message on screen is the failure's own. *)
Definition cause_surfaced (err : JsError) (s : AppState) : Prop :=
  ∃ m, message err = Resolved (Some m) ∧ errorMsg s = Some m.

Definition failed_steps (t : Task) : list StepStatus :=
  match t with
  | AwaitParse _ => [step_error; step_pending; step_pending; step_pending]
  | _ => [step_error; step_processing; step_processing; step_pending]
  end.

(** Content and status paired as the chapter data model words it:
    non-empty content exactly for completed chapters, the placeholder
    exactly for failed ones. *)
Definition content_pairs_with_status (ch : Chapter.t) : Prop :=
  ((∃ text, Chapter.content ch = Some text ∧ text ≠ ""%string) ↔
   Chapter.status ch = completed) ∧
  (Chapter.content ch = Some ERROR_PLACEHOLDER ↔ Chapter.status ch = error).

(** None of the answers [rs] to the calls for chapter [i] and the
    following ones is lost in the [catch]: each failure among them
    meets a chapter whose id can be printed. *)
Definition all_logged (cb : Book.t) (i : nat) (rs : list (outcome (option string))) : Prop :=
  ∀ j r, rs !! j = Some r → catch_raises cb (i + j) (generateChapterContent r) = false.

(** The writing loop is over before its time: the stage says WRITING
    and no chapter call is pending. *)
Definition loop_lost (c : Config) : Prop :=
  loadingState (app c) = WRITING ∧
  ∀ k cb rawText i, tasks c !! k ≠ Some (AwaitChapter cb rawText i).

(** The position of the pending chapter call among the pending calls. *)
Fixpoint chapter_task (l : list Task) : option nat :=
  match l with
  | [] => None
  | AwaitChapter _ _ _ :: _ => Some 0
  | _ :: rest => S <$> chapter_task rest
  end.

(** The chapter writer answers call after call with [rs]. *)
Fixpoint settle_chapters (rs : list (outcome (option string))) (c : Config) : option Config :=
  match rs with
  | [] => Some c
  | r :: rest =>
      k ← chapter_task (tasks c);
      step (Settle k (ChapterSettled r)) c ≫= settle_chapters rest
  end.

(** ** Sample runs *)

Module Sample.
Definition manuscript : File.t := File.mk "book.docx"%string DOCX_TYPE.

Definition notes : File.t := File.mk "notes.txt"%string "text/plain"%string.

Definition brief (id title : string) : JValue :=
  JObj [("id"%string, JStr id); ("title"%string, JStr title);
        ("description"%string, JStr "What belongs here"%string)].

Definition outline : JValue :=
  JObj [("metadata"%string,
         JObj [("title"%string, JStr "Field Notes"%string);
               ("author"%string, JStr "A. Writer"%string);
               ("summary"%string, JStr "A summary"%string);
               ("language"%string, JStr "en"%string)]);
        ("chapters"%string,
         JArr [brief "c1" "Introduction"; brief "c2" "Core"; brief "c3" "Conclusion"])].

Definition raw : string := "Intro text... Chapter stuff..."%string.

Definition extracted : Settlement := ParseSettled (Loaded (Some (Resolved raw))).

(** Upload, extraction and planning of [outline]: afterwards chapter 0
    is being written and the cover call is pending. *)
Definition to_planning : list Event := [Drop [manuscript]; Settle 0 extracted].

Definition to_writing : list Event :=
  to_planning ++ [Settle 0 (StructureSettled (Resolved (Json outline)))].

Definition at_parsing : Config :=
  Eval vm_compute in default initialConfig (exec [Drop [manuscript]] initialConfig).

Definition at_planning : Config :=
  Eval vm_compute in default initialConfig (exec to_planning initialConfig).

Definition at_writing : Config :=
  Eval vm_compute in default initialConfig (exec to_writing initialConfig).

(** The plan the writing loop of [at_writing] works on and the book on
    screen at that point. *)
Definition plan : Book.t :=
  Eval vm_compute in
    match tasks at_writing with
    | [_; AwaitChapter currentBook _ _] => currentBook
    | _ => Book.mk JNull [] None None
    end.

Definition first_marked : Book.t :=
  Eval vm_compute in default plan (book (app at_writing)).

(** The writer answers the call for chapter 0 with no text. *)
Definition first_written : Config :=
  Eval vm_compute in
    default initialConfig
      (exec (to_writing ++ [Settle 1 (ChapterSettled (Resolved None))]) initialConfig).

(** The writer answers the three calls: a text, a failure, a text. *)
Definition middle_fails : list (outcome (option string)) :=
  [Resolved (Some "First chapter"%string); Rejected (Thrown (Some "overloaded"%string));
   Resolved (Some "Last chapter"%string)].

(** The configuration [at_writing] with the abort ref set. *)
Definition aborted : Config := on_app (setAbortRef true) at_writing.

(** A response with no author, summary or language and a chapter with
    no member at all. *)
Definition bare_outline : JValue :=
  JObj [("metadata"%string, JObj [("title"%string, JStr "Untitled"%string)]);
        ("chapters"%string, JArr [JObj []])].

(** A plan of two chapters, the first with an id that cannot be
    printed, and the run at the point where its first chapter is being
    written. *)
Definition odd_outline : JValue :=
  JObj [("chapters"%string,
         JArr [JObj [("id"%string, JObj [("toString"%string, JNum 0)]);
                     ("title"%string, JStr "One"%string)];
               brief "c2" "Two"])].

Definition to_odd_writing : list Event :=
  to_planning ++ [Settle 0 (StructureSettled (Resolved (Json odd_outline)))].

Definition odd_writing : Config :=
  Eval vm_compute in default initialConfig (exec to_odd_writing initialConfig).

Definition odd_plan : Book.t :=
  Eval vm_compute in
    match tasks odd_writing with
    | [_; AwaitChapter currentBook _ _] => currentBook
    | _ => Book.mk JNull [] None None
    end.

(** Planning answers with an empty document: the run is over at once. *)
Definition empty_plan_done : Config :=
  Eval vm_compute in
    default initialConfig
      (exec (to_planning ++ [Settle 0 (StructureSettled (Resolved (Json (JObj []))))])
            initialConfig).

(** The file reader fails. *)
Definition extraction_failed : Config :=
  Eval vm_compute in
    default initialConfig
      (exec [Drop [manuscript]; Settle 0 (ParseSettled ReaderError)] initialConfig).
(** The last chapter of the book at that point. *)
Definition last_chapter : Chapter.t :=
  Eval vm_compute in
    default (Chapter.mk None None None None pending None) (chapter_at first_written 2).
(** The first chapter has come back with a text, the second is being
    written. *)
Definition one_done : Config :=
  Eval vm_compute in
    default initialConfig
      (exec (to_writing ++ [Settle 1 (ChapterSettled (Resolved (Some "First chapter"%string)))])
         initialConfig).
Definition one_done_book : Book.t :=
  Eval vm_compute in default plan (book (app one_done)).

Definition one_done_chapter : Chapter.t :=
  Eval vm_compute in
    default (Chapter.mk None None None None pending None) (chapter_at one_done 0).
Definition one_done_next : Chapter.t :=
  Eval vm_compute in
    default (Chapter.mk None None None None pending None) (chapter_at one_done 1).
Definition first_written_book : Book.t :=
  Eval vm_compute in default plan (book (app first_written)).

(** An answer of the image model with one image, and the configuration
    after the cover call of [at_writing] has returned it. *)
Definition image : outcome ImageResponse :=
  Resolved {| candidates :=
    Some [{| candidate_content :=
      Some (Some [{| inlineData := None |}; {| inlineData := Some "iVBORw0KGgo="%string |}]) |}] |}.

Definition with_cover : Config :=
  Eval vm_compute in
    default initialConfig (exec (to_writing ++ [Settle 0 (CoverSettled image)]) initialConfig).

Definition with_cover_book : Book.t :=
  Eval vm_compute in default plan (book (app with_cover)).
End Sample.

(** ** The rest of the component *)

Local Open Scope string_scope.

(** *** services/geminiService: [suggestIllustration] *)

Definition ILLUSTRATION_FALLBACK : string := "A mysterious scene relevant to the chapter.".

(** [chapterContent.substring(0, 2000)] *)
Definition illustration_excerpt (chapterContent : string) : string :=
  String.substring 0 2000 chapterContent.

(** The [contents] of the request. *)
Definition illustration_prompt (chapterContent : string) : string :=
  "Read this chapter and describe a scene that would make a perfect illustration for it. Keep it concise (1-2 sentences). Chapter excerpt: "
  ++ illustration_excerpt chapterContent.

(** [response.text || "A mysterious scene relevant to the chapter."] *)
Definition suggestIllustration (response : outcome (option string)) : outcome string :=
  match response with
  | Rejected e => Rejected e
  | Resolved (Some text) =>
      Resolved (if String.eqb text "" then ILLUSTRATION_FALLBACK else text)
  | Resolved None => Resolved ILLUSTRATION_FALLBACK
  end.

(** *** App.tsx: the active chapter *)

(** [c.id === id] for a string [id]: a member that is no string, or is
    missing, is never strictly equal to a string. *)
Definition has_id (id : string) (c : Chapter.t) : bool :=
  match Chapter.id c with
  | Some (JStr s) => String.eqb s id
  | _ => false
  end.

(** [chapters.find(c => c.id === id)] for a string [id], as the state
    variable [activeChapterId] is declared. [find] visits empty slots as
    undefined, where reading [c.id] raises. *)
Fixpoint find_by_id (id : string) (chapters : list (option Chapter.t))
    : outcome (option Chapter.t) :=
  match chapters with
  | [] => Resolved None
  | None :: _ => Rejected TypeError
  | Some c :: rest => if has_id id c then Resolved (Some c) else find_by_id id rest
  end.

(** [handleSuggestIllustration] up to its await, with [activeChapterId]
    a string ([""] is falsy, like null): the text sent to the
    illustration service, if one is sent. *)
Definition suggestion_request (book : option Book.t) (activeChapterId : string)
    : outcome (option string) :=
  match book with
  | None => Resolved None
  | Some b =>
      if String.eqb activeChapterId "" then Resolved None
      else match find_by_id activeChapterId (Book.chapters b) with
           | Rejected e => Rejected e
           | Resolved None => Resolved None
           | Resolved (Some chapter) =>
               match Chapter.content chapter with
               | None => Resolved None
               | Some content =>
                   if String.eqb content "" then Resolved None
                   else Resolved (Some (illustration_prompt content))
               end
           end
  end.

(** What the operator gets from the button: nothing, or an alert. *)
Inductive Suggestion := NothingAsked | Alerted (text : string).

(** The text of the alert: the heading, two line feeds and the
    suggestion between quotation marks. *)
Definition alert_text (illustrationPrompt : string) : string :=
  "AI Suggestion for Illustration:" ++
  String "010"%char (String "010"%char (String "034"%char
    (illustrationPrompt ++ String "034"%char EmptyString))).

(** [handleSuggestIllustration], whole: [answer] is what the model call
    of the service settles with, if the call is made. The handler has
    no [catch], so a rejection of [suggestIllustration] is the
    handler's own. *)
Definition handleSuggestIllustration (book : option Book.t) (activeChapterId : string)
    (answer : outcome (option string)) : outcome Suggestion :=
  match suggestion_request book activeChapterId with
  | Rejected e => Rejected e
  | Resolved None => Resolved NothingAsked
  | Resolved (Some _) =>
      match suggestIllustration answer with
      | Rejected e => Rejected e
      | Resolved illustrationPrompt => Resolved (Alerted (alert_text illustrationPrompt))
      end
  end.

(** *** App.tsx: which block of the main area is selected *)

Definition showLoading (s : AppState) : bool :=
  bool_decide (loadingState s = PARSING) || bool_decide (loadingState s = PLANNING).

Inductive Screen := UploadScreen | LoadingView | ErrorScreen | EditorScreen.

(** The blocks of [<main>] whose condition holds, in source order. This
    is the choice of the block only: whether the chosen block then
    renders is decided by its children (see [BookPreview.render] for
    the preview; an object among the titles of the table of contents
    makes the editor raise as well). *)
Definition selected_blocks (s : AppState) : list Screen :=
  (if bool_decide (loadingState s = IDLE) then [UploadScreen] else []) ++
  (if showLoading s then [LoadingView] else []) ++
  (if bool_decide (loadingState s = ERROR) then [ErrorScreen] else []) ++
  (if showEditor s && bool_decide (is_Some (book s)) then [EditorScreen] else []).

(** *** components/LoadingScreen *)

Module LoadingScreen.
(** The circle of a step: a green check mark, or the step's number on
    a pulsing indigo or on a gray ground. *)
Inductive Circle := GreenCheck | IndigoNumber (n : nat) | GrayNumber (n : nat).

Record Row := mk { circle : Circle; label_gray : bool; label : string }.

Definition row (idx : nat) (step : ProcessingStep.t) : Row :=
  mk (match ProcessingStep.status step with
      | step_completed => GreenCheck
      | step_processing => IndigoNumber (idx + 1)
      | _ => GrayNumber (idx + 1)
      end)
     (bool_decide (ProcessingStep.status step = step_pending))
     (ProcessingStep.label step).

Definition render (steps : list ProcessingStep.t) : list Row := imap row steps.
End LoadingScreen.

(** *** components/BookPreview *)

(** A character of a string stands for one code unit. Of the code units
    up to 255 these are white space or line terminators for [trim]. *)
Definition is_space (a : ascii) : bool :=
  let n := nat_of_ascii a in
  (n =? 9)%nat || (n =? 10)%nat || (n =? 11)%nat || (n =? 12)%nat || (n =? 13)%nat ||
  (n =? 32)%nat || (n =? 160)%nat.

Fixpoint trim_start (s : string) : string :=
  match s with
  | String a s' => if is_space a then trim_start s' else s
  | EmptyString => EmptyString
  end.

Definition string_rev (s : string) : string :=
  String.string_of_list_ascii (rev (String.list_ascii_of_string s)).

Definition trim_end (s : string) : string := string_rev (trim_start (string_rev s)).

Definition trim (s : string) : string := trim_end (trim_start s).

(** [s.split('\n')] *)
Fixpoint split_lines (s : string) : list string :=
  match s with
  | EmptyString => [EmptyString]
  | String a s' =>
      if Ascii.eqb a "010"%char then EmptyString :: split_lines s'
      else match split_lines s' with
           | l :: ls => String a l :: ls
           | [] => [String a EmptyString]
           end
  end.

Fixpoint string_drop (n : nat) (s : string) : string :=
  match n, s with
  | S n', String _ s' => string_drop n' s'
  | _, _ => s
  end.

(** [s.replace(pat, '')] for a non-empty string [pat]: the first
    occurrence is removed. *)
Fixpoint replace_first (pat s : string) : string :=
  if String.prefix pat s then string_drop (String.length pat) s
  else match s with
       | EmptyString => EmptyString
       | String a s' => String a (replace_first pat s')
       end.

(** [lines.join('\n')] *)
Fixpoint join_lines (lines : list string) : string :=
  match lines with
  | [] => EmptyString
  | [l] => l
  | l :: rest => (l ++ String "010"%char (join_lines rest))%string
  end.

(** Only white space, if anything. *)
Definition blank (s : string) : Prop :=
  Forall (λ a, is_space a = true) (String.list_ascii_of_string s).

Module BookPreview.
Inductive Block :=
| Br
| H3 (text : string)
| H2 (text : string)
| DropCap (firstLetter rest : string)
| P (text : string).

(** The callback of the [map] over the lines of the content. *)
Definition paragraph (idx : nat) (line : string) : Block :=
  let p := trim line in
  if String.eqb p "" then Br
  else if String.prefix "###" p then H3 (replace_first "###" p)
  else if String.prefix "##" p then H2 (replace_first "##" p)
  else if (idx =? 0)%nat then DropCap (String.substring 0 1 p) (string_drop 1 p)
  else P p.

Definition prose (content : string) : list Block := imap paragraph (split_lines content).

Inductive Body := Skeleton | Prose (blocks : list Block).

(** What the component shows: the title page, with the cover image if
    [coverUrl] is truthy, or the page of the active chapter. The
    members of the parsed plan that are put on the page as children
    are kept as they are. *)
Inductive View :=
| TitlePage (rtl : bool) (cover : option string) (title author : option JValue)
| ChapterPage (rtl : bool) (bookTitle chapterTitle chapterId : option JValue) (body : Body)
              (pageStart : option nat).

(** [book.metadata.language === 'ar'] *)
Definition isArabic (metadata : JValue) : bool :=
  match own_prop metadata "language" with
  | Some (JStr s) => String.eqb s "ar"
  | _ => false
  end.

Definition isGenerating (activeChapter : Chapter.t) : bool :=
  bool_decide (Chapter.status activeChapter = generating) ||
  bool_decide (Chapter.status activeChapter = pending).

(** The children of the title page and of a chapter page that come
    from the plan. *)
Definition title_page_children (book : Book.t) : list (option JValue) :=
  [own_prop (Book.metadata book) "title"; own_prop (Book.metadata book) "author"].

Definition chapter_page_children (book : Book.t) (activeChapter : Chapter.t)
    : list (option JValue) :=
  [own_prop (Book.metadata book) "title"; Chapter.title activeChapter;
   Chapter.id activeChapter; Chapter.title activeChapter].

(** The component; [None] when rendering it raises. It raises when
    [book.metadata] is null, when a chapter that is not being generated
    has no [content] member ([content.split]), and when one of the
    children from the plan is an object. *)
Definition render (book : Book.t) (activeChapter : option Chapter.t) : option View :=
  match Book.metadata book with
  | JNull => None
  | metadata =>
      let rtl := isArabic metadata in
      match activeChapter with
      | None =>
          if forallb child_ok (title_page_children book) then
            Some (TitlePage rtl
                    (match Book.coverUrl book with
                     | Some url => if String.eqb url "" then None else Some url
                     | None => None
                     end)
                    (own_prop metadata "title") (own_prop metadata "author"))
          else None
      | Some ch =>
          let page body :=
            ChapterPage rtl (own_prop metadata "title") (Chapter.title ch)
                        (Chapter.id ch) body (Chapter.pageStart ch) in
          body ← (if isGenerating ch then Some Skeleton
                  else Prose ∘ prose <$> Chapter.content ch);
          if forallb child_ok (chapter_page_children book ch) then Some (page body)
          else None
      end
  end.
End BookPreview.

Local Close Scope string_scope.

(** *** Notions for the properties of the rest *)

(** The loop touches nothing of a book but the status and content of
    its chapters, the cover call nothing but [coverUrl]. *)
Definition same_frame (b b' : Book.t) : Prop :=
  Book.metadata b' = Book.metadata b ∧ Book.rawText b' = Book.rawText b ∧
  length (Book.chapters b') = length (Book.chapters b) ∧
  ∀ j, match js_get (Book.chapters b) j, js_get (Book.chapters b') j with
       | Some ch, Some ch' => same_plan ch ch'
       | None, None => True
       | _, _ => False
       end.

(** The error message goes with the stage: a message that is not empty
    in ERROR, none from the start of a run on. (Back in IDLE after "Try
    Again" the old message is still in the state, unseen.) *)
Definition error_shown (s : AppState) : Prop :=
  match loadingState s with
  | ERROR =>
      (∃ m, errorMsg s = Some m ∧ m ≠ Text ""%string ∧
            ProcessingStep.status <$> head (steps s) = Some step_error) ∨
      (errorMsg s = None ∧ ProcessingStep.status <$> head (steps s) ≠ Some step_error)
  | IDLE => True
  | _ => errorMsg s = None
  end.

(** One move of the stage, or none. *)
Inductive stage_step : LoadingState → LoadingState → Prop :=
| stage_same st : stage_step st st
| stage_upload : stage_step IDLE PARSING
| stage_extracted : stage_step PARSING PLANNING
| stage_extraction_failed : stage_step PARSING ERROR
| stage_planned : stage_step PLANNING WRITING
| stage_planned_empty : stage_step PLANNING SUCCESS
| stage_planning_failed : stage_step PLANNING ERROR
| stage_written : stage_step WRITING SUCCESS
| stage_retry : stage_step ERROR IDLE.

(** The calls to the chapter writer are grounded in the book: the
    manuscript they carry is the one kept in the book, the pending call
    carries it too, and they are the calls for the first chapters of
    the book, one more than there are answers, as far as there are
    chapters. *)
Definition grounded (c : Config) : Prop :=
  ∀ b, book (app c) = Some b →
    ∃ raw, Book.rawText b = Some raw ∧
      (∀ k cb raw' i, tasks c !! k = Some (AwaitChapter cb raw' i) → raw' = raw) ∧
      chapter_requests c =
        planned_requests b raw (Nat.min (S (length (written c))) (length (Book.chapters b))).

(** *** App.tsx: the header and the table of contents *)

(** The status line of the header, rendered with the editor. *)
Inductive Header := WritingBook | ReadyToPublish.

Definition header (s : AppState) : option Header :=
  if showEditor s then
    Some (if bool_decide (loadingState s = WRITING) then WritingBook else ReadyToPublish)
  else None.

(** The dot before a chapter title in the table of contents. *)
Inductive Dot := GreenDot | IndigoPulse | RedDot | SlateDot.

Definition dot (chapter : Chapter.t) : Dot :=
  match Chapter.status chapter with
  | completed => GreenDot
  | generating => IndigoPulse
  | error => RedDot
  | pending => SlateDot
  end.

(** The cover of a book, if it has one, is a PNG data URL with data. *)
Definition cover_is_picture (b : Book.t) : Prop :=
  match Book.coverUrl b with
  | None => True
  | Some url => ∃ data, data ≠ ""%string ∧ url = ("data:image/png;base64," ++ data)%string
  end.

Definition is_cover_task (t : Task) : bool :=
  match t with
  | AwaitCover _ => true
  | _ => false
  end.

(** ** Arrays *)

Section arrays.
Context {A : Type}.
Implicit Types (a : list (option A)) (x : A) (i j : nat).

Lemma js_set_length_lt a i x : i < length a → length (js_set a i x) = length a.
Proof. intros Hi. unfold js_set. rewrite decide_True by done. apply length_insert. Qed.

Lemma js_set_lookup_eq a i x : i < length a → js_set a i x !! i = Some (Some x).
Proof.
  intros Hi. unfold js_set. rewrite decide_True by done.
  by apply list_lookup_insert_eq.
Qed.

Lemma js_set_lookup_ne a i j x : i < length a → i ≠ j → js_set a i x !! j = a !! j.
Proof.
  intros Hi Hne. unfold js_set. rewrite decide_True by done.
  by apply list_lookup_insert_ne.
Qed.

(** Past the end the array grows to [i + 1] slots. *)
Lemma js_set_length_ge a i x : (length a ≤ i)%nat → length (js_set a i x) = S i.
Proof.
  intros Hi. unfold js_set. rewrite decide_False by lia.
  rewrite !length_app, length_replicate. simpl. lia.
Qed.

Lemma js_get_lookup a i x : a !! i = Some (Some x) → js_get a i = Some x.
Proof. unfold js_get. by intros ->. Qed.

Lemma js_get_Some a i x : js_get a i = Some x → a !! i = Some (Some x).
Proof. unfold js_get. by destruct (a !! i) as [[y |] |]; intros [= ->]. Qed.
End arrays.

(** ** The writing loop keeps the book in step with the plan *)

Lemma follows_lookup cb b rs active j :
  follows cb b rs active → j < length (Book.chapters cb) →
  ∃ p ch, Book.chapters cb !! j = Some (Some p) ∧ Book.chapters b !! j = Some (Some ch) ∧
          planned p ∧ same_plan p ch ∧ chapter_state rs active j ch.
Proof. intros (_ & _ & _ & H) Hj. by apply H. Qed.

Lemma follows_length cb b rs active :
  follows cb b rs active → length (Book.chapters b) = length (Book.chapters cb).
Proof. by intros (_ & _ & H & _). Qed.

(** The chapters other than the current one are not affected when it is
    marked, nor when its call returns. *)
Lemma chapter_state_marked rs j ch :
  j ≠ length rs → chapter_state rs false j ch → chapter_state rs true j ch.
Proof. unfold chapter_state. intros Hne. by rewrite !decide_False by done. Qed.

Lemma chapter_state_returned rs r j ch :
  j ≠ length rs → chapter_state rs true j ch → chapter_state (rs ++ [r]) false j ch.
Proof.
  unfold chapter_state. intros Hne.
  destruct (decide (j < length rs)) as [Hlt | Hge].
  - destruct (lookup_lt_is_Some_2 rs j Hlt) as [r0 Hr0].
    rewrite lookup_app_l by lia. by rewrite Hr0.
  - rewrite !lookup_ge_None_2 by (rewrite ?length_app; simpl; lia).
    rewrite decide_False by done. by case_decide.
Qed.

(** Replacing the current chapter by an object with the same planned
    members. *)
Lemma follows_update cb b rs active rs' active' (upd : option Chapter.t → Chapter.t) :
  follows cb b rs active →
  length rs < length (Book.chapters cb) →
  (∀ p ch, same_plan p ch → chapter_state rs active (length rs) ch →
           same_plan p (upd (Some ch)) ∧ chapter_state rs' active' (length rs) (upd (Some ch))) →
  (∀ j ch, j ≠ length rs → chapter_state rs active j ch → chapter_state rs' active' j ch) →
  follows cb
    (Book.with_chapters
       (js_set (Book.chapters b) (length rs) (upd (js_get (Book.chapters b) (length rs)))) b)
    rs' active'.
Proof.
  intros Hf Hi Hupd Hother.
  pose proof (follows_length _ _ _ _ Hf) as Hlen.
  destruct Hf as (Hm & Hr & _ & Hall).
  split_and!; simpl; try done.
  - rewrite js_set_length_lt; [done | lia].
  - intros j Hj. destruct (Hall j Hj) as (p & ch & Hp & Hch & Hpl & Hsame & Hst).
    destruct (decide (j = length rs)) as [-> | Hne].
    + exists p, (upd (Some ch)). rewrite (js_get_lookup _ _ _ Hch).
      rewrite js_set_lookup_eq by lia.
      destruct (Hupd p ch Hsame Hst). by split_and!.
    + exists p, ch. rewrite js_set_lookup_ne by (lia || done). split_and!; eauto.
Qed.

Lemma follows_generating cb b rs :
  follows cb b rs false → length rs < length (Book.chapters cb) →
  ∃ b', mark_generating (length rs) (Some b) = Some b' ∧ follows cb b' rs true.
Proof.
  intros Hf Hi. eexists. split; [reflexivity |].
  apply (follows_update cb b rs false rs true (λ o, Chapter.spread_status o generating));
    [done .. | | apply chapter_state_marked].
  intros p ch Hs Hst. unfold chapter_state in *.
  rewrite lookup_ge_None_2 in * by lia. rewrite decide_True in * by done.
  destruct Hst as [_ Hc]. by split.
Qed.

Lemma follows_completed cb b rs content :
  follows cb b rs true → length rs < length (Book.chapters cb) →
  ∃ b', mark_completed (length rs) content (Some b) = Some b' ∧
        follows cb b' (rs ++ [Resolved content]) false.
Proof.
  intros Hf Hi. eexists. split; [reflexivity |].
  apply (follows_update cb b rs true (rs ++ [Resolved content]) false
           (λ o, Chapter.spread_status_content o completed content));
    [done .. | | intros; by apply chapter_state_returned].
  intros p ch Hs Hst. split; [done |]. unfold chapter_state.
  by rewrite list_lookup_middle.
Qed.

Lemma follows_error cb b rs err :
  follows cb b rs true → length rs < length (Book.chapters cb) →
  ∃ b', mark_error (length rs) (Some b) = Some b' ∧
        follows cb b' (rs ++ [Rejected err]) false.
Proof.
  intros Hf Hi. eexists. split; [reflexivity |].
  apply (follows_update cb b rs true (rs ++ [Rejected err]) false
           (λ o, Chapter.spread_status_content o error ERROR_PLACEHOLDER));
    [done .. | | intros; by apply chapter_state_returned].
  intros p ch Hs Hst. split; [done |]. unfold chapter_state.
  by rewrite list_lookup_middle.
Qed.

(** The book [handleFileUpload] builds is its own plan, nothing started. *)
Lemma materialize_planned structure chs :
  materialize structure = Resolved chs →
  ∀ j, j < length chs → ∃ p, chs !! j = Some (Some p) ∧ planned p.
Proof.
  intros Hm j Hj.
  assert (∃ xs, chs = imap (λ idx ch, Some (chapter_of idx ch)) xs) as [xs ->].
  { unfold materialize in Hm.
    destruct structure; try discriminate;
      (destruct (js_or _ _); try discriminate; eexists; by inversion Hm). }
  rewrite length_imap in Hj. destruct (lookup_lt_is_Some_2 xs j Hj) as [x Hx].
  eexists. rewrite list_lookup_imap, Hx. simpl. split; [reflexivity | by split].
Qed.

Lemma follows_start md chs cover raw :
  (∀ j, j < length chs → ∃ p, chs !! j = Some (Some p) ∧ planned p) →
  follows (Book.mk md chs cover raw) (Book.mk md chs cover raw) [] false.
Proof.
  intros Hall. split_and!; try done. simpl. intros j Hj.
  destruct (Hall j Hj) as (p & Hp & Hpl). exists p, p. split_and!; try done.
  unfold chapter_state. simpl. destruct Hpl. case_decide; by split.
Qed.

Lemma follows_coverUrl cb b rs active url :
  follows cb b rs active → follows cb (Book.with_coverUrl url b) rs active.
Proof. intros (? & ? & ? & ?). by split_and!. Qed.

Lemma planned_requests_S cb rawText i p :
  Book.chapters cb !! i = Some (Some p) →
  planned_requests cb rawText (S i) = planned_requests cb rawText i ++ [request_for cb rawText p].
Proof.
  intros Hp. unfold planned_requests.
  rewrite (take_S_r _ _ _ Hp), omap_app. reflexivity.
Qed.

Lemma loop_ready_Inv cb rawText c :
  loop_ready cb rawText c → Inv (processChapters_loop cb rawText (length (written c)) c).
Proof.
  intros (Hls & Hsteps & Hi & Hcov & Hreq & b & Hb & Hf).
  unfold processChapters_loop. case_decide as Hlt.
  - destruct (follows_generating _ _ _ Hf Hlt) as (b' & Hb' & Hf').
    destruct (follows_lookup _ _ _ _ (length (written c)) Hf Hlt) as (p & ch & Hp & _).
    rewrite (js_get_lookup _ _ _ Hp).
    unfold Inv. simpl. rewrite Hls. split; [done |].
    exists b', cb, rawText, (tasks c). split_and!; try done.
    + by rewrite Hb, Hb'.
    + left. by rewrite Permutation_app_comm.
    + unfold chapter_requests in *. simpl. rewrite omap_app, Hreq.
      by rewrite (planned_requests_S _ _ _ _ Hp).
  - assert (length (written c) = length (Book.chapters cb)) as Hn by lia.
    unfold Inv. simpl. split; [by rewrite Hsteps |].
    exists b, cb, rawText. rewrite <- Hn at 2. by split_and!.
Qed.

(** What the next iteration does: it marks its chapter and calls the
    writer, or, past the last chapter, ends the run. *)
Lemma loop_ready_spec cb rawText c :
  loop_ready cb rawText c →
  let c' := processChapters_loop cb rawText (length (written c)) c in
  written c' = written c ∧
  ∃ b', book (app c') = Some b' ∧
    if decide (length (written c) < length (Book.chapters cb)) then
      loadingState (app c') = WRITING ∧
      tasks c' = tasks c ++ [AwaitChapter cb rawText (length (written c))] ∧
      chapter_requests c' = planned_requests cb rawText (S (length (written c))) ∧
      follows cb b' (written c) true
    else
      loadingState (app c') = SUCCESS ∧ tasks c' = tasks c ∧
      chapter_requests c' = planned_requests cb rawText (length (Book.chapters cb)) ∧
      follows cb b' (written c) false.
Proof.
  intros (Hls & Hsteps & Hi & Hcov & Hreq & b & Hb & Hf).
  unfold processChapters_loop. case_decide as Hlt.
  - destruct (follows_generating _ _ _ Hf Hlt) as (b' & Hb' & Hf').
    destruct (follows_lookup _ _ _ _ (length (written c)) Hf Hlt) as (p & ch & Hp & _).
    rewrite (js_get_lookup _ _ _ Hp). simpl. split; [done |].
    exists b'. rewrite Hb, Hb'. split_and!; try done.
    unfold chapter_requests in *. simpl. rewrite omap_app, Hreq.
    by rewrite (planned_requests_S _ _ _ _ Hp).
  - assert (length (written c) = length (Book.chapters cb)) as Hn by lia.
    simpl. split; [done |]. exists b. split_and!; try done.
    unfold chapter_requests in *. simpl. by rewrite Hreq, Hn.
Qed.

Lemma tasks_cases (s : AppState) (l covers : list Task) (t : Task) :
  l ≡ₚ t :: covers → cover_tasks s covers → (∀ bookData, t ≠ AwaitCover bookData) →
  (isGeneratingCover s = false ∧ covers = [] ∧ l = [t]) ∨
  (isGeneratingCover s = true ∧
   ∃ bookData, covers = [AwaitCover bookData] ∧
               (l = [t; AwaitCover bookData] ∨ l = [AwaitCover bookData; t])).
Proof.
  unfold cover_tasks. intros Hperm Hcov Hne.
  destruct (isGeneratingCover s).
  - right. split; [done |]. destruct Hcov as [bd ->]. exists bd. split; [done |].
    pose proof (Permutation_length Hperm) as Hlen.
    destruct l as [| x [| y [| ? ?]]]; try discriminate.
    assert (x ∈ [t; AwaitCover bd]) as Hx by (rewrite <- Hperm; rewrite !elem_of_cons; auto).
    assert (y ∈ [t; AwaitCover bd]) as Hy by (rewrite <- Hperm; rewrite !elem_of_cons; auto).
    assert (t ∈ [x; y]) as Ht by (rewrite Hperm; rewrite !elem_of_cons; auto).
    assert (AwaitCover bd ∈ [x; y]) as Hc by (rewrite Hperm; rewrite !elem_of_cons; auto).
    specialize (Hne bd). rewrite !elem_of_cons, !elem_of_nil in *.
    destruct Hx as [-> | [-> | []]], Hy as [-> | [-> | []]];
      [exfalso; intuition congruence | by left | by right | exfalso; intuition congruence].
  - left. subst covers. split_and!; try done. by apply Permutation_singleton_r.
Qed.

(** ** Every handler keeps the invariant *)

Lemma Inv_handleFileUpload file c :
  Inv c → loadingState (app c) = IDLE → Inv (handleFileUpload file c).
Proof.
  unfold Inv. intros H Hls. rewrite Hls in H. destruct H as (Ht & Hb & Hg & Hr & Hw).
  simpl. split_and!; try done.
  - unfold chapter_requests in *. simpl. by rewrite omap_app, Hr.
  - exists file. by rewrite Ht.
Qed.

Lemma Inv_catch err c steps' :
  tasks c = [] → book (app c) = None → isGeneratingCover (app c) = false →
  chapter_requests c = [] → written c = [] →
  steps (app c) = with_statuses steps' →
  steps' = [step_processing; step_pending; step_pending; step_pending] ∨
  steps' = [step_completed; step_processing; step_processing; step_pending] →
  Inv (handleFileUpload_catch err c).
Proof.
  intros Ht Hb Hg Hr Hw Hs Hs'. unfold Inv, handleFileUpload_catch.
  destruct (message err) as [m | e]; simpl; rewrite Hs; split_and!; try done;
    destruct Hs' as [-> | ->]; auto.
Qed.

(** The [catch] touches the stage, the message and the steps only. *)
Lemma catch_frame err c :
  book (app (handleFileUpload_catch err c)) = book (app c) ∧
  tasks (handleFileUpload_catch err c) = tasks c ∧
  requests (handleFileUpload_catch err c) = requests c ∧
  written (handleFileUpload_catch err c) = written c ∧
  isGeneratingCover (app (handleFileUpload_catch err c)) = isGeneratingCover (app c).
Proof. unfold handleFileUpload_catch. by destruct (message err). Qed.

Lemma catch_book err c : book (app (handleFileUpload_catch err c)) = book (app c).
Proof. apply catch_frame. Qed.

Lemma parsed_book file r c :
  book (app (handleFileUpload_parsed file r c)) = book (app c).
Proof. destruct r; [done | apply catch_book]. Qed.

Lemma Inv_parsed file r c :
  loadingState (app c) = PARSING → Inv c → tasks c = [AwaitParse file] →
  Inv (handleFileUpload_parsed file r (take_task 0 c)).
Proof.
  unfold Inv at 1. intros Hls H Ht. rewrite Hls in H.
  destruct H as (Hb & Hg & Hr & Hw & Hs & _).
  destruct r as [rawText | err]; simpl.
  - unfold Inv. simpl. rewrite Hs. split_and!; try done.
    + unfold chapter_requests in *. simpl. by rewrite omap_app, Hr.
    + exists file, rawText. by rewrite Ht.
  - apply (Inv_catch _ _ [step_processing; step_pending; step_pending; step_pending]);
      simpl; try done.
    + by rewrite Ht.
    + by left.
Qed.

(** When planning succeeds the book is built, the cover call is made
    and the first iteration of the loop is about to run. *)
Lemma planned_loop_ready file rawText structure chs c :
  loadingState (app c) = PLANNING → Inv c → tasks c = [AwaitStructure file rawText] →
  materialize structure = Resolved chs →
  let newBook := Book.mk (js_or (own_prop structure "metadata"%string) DEFAULT_METADATA)
                         chs None (Some rawText) in
  ∃ c0, handleFileUpload_planned file rawText (Resolved structure) (take_task 0 c) =
          processChapters_loop newBook rawText (length (written c0)) c0 ∧
        written c0 = [] ∧ tasks c0 = [AwaitCover newBook] ∧
        loop_ready newBook rawText c0.
Proof.
  intros Hls H Ht Hm newBook. unfold Inv in H. rewrite Hls in H.
  destruct H as (Hb & Hg & Hr & Hw & Hs & _).
  pose proof (materialize_planned _ _ Hm) as Hpl.
  assert (∀ c0, loadingState (app c0) = WRITING →
                steps (app c0) = with_statuses
                  [step_completed; step_completed; step_completed; step_processing] →
                tasks c0 = [] → requests c0 = requests c → written c0 = [] →
                book (app c0) = Some newBook →
                written (generateCover newBook c0) = [] ∧
                tasks (generateCover newBook c0) = [AwaitCover newBook] ∧
                loop_ready newBook rawText (generateCover newBook c0)) as Hready.
  { intros c0 H1 H2 H3 H4 H5 H6. simpl. rewrite H3. split_and!; try done.
    unfold loop_ready. simpl. rewrite H5. split_and!; try done.
    - simpl. lia.
    - exists newBook. by rewrite H3.
    - unfold chapter_requests in *. simpl. rewrite omap_app, H4, Hr. reflexivity.
    - exists newBook. split; [done |]. by apply follows_start. }
  unfold handleFileUpload_planned. rewrite Hm. fold newBook. unfold processChapters.
  assert (Book.chapters newBook = chs) as -> by done.
  assert (∀ c0, loadingState (app c0) = WRITING →
                steps (app c0) = with_statuses
                  [step_completed; step_completed; step_completed; step_processing] →
                tasks c0 = [] → requests c0 = requests c → written c0 = [] →
                book (app c0) = Some newBook →
                ∃ c1, processChapters_loop newBook rawText 0 (generateCover newBook c0) =
                        processChapters_loop newBook rawText (length (written c1)) c1 ∧
                      written c1 = [] ∧ tasks c1 = [AwaitCover newBook] ∧
                      loop_ready newBook rawText c1) as Hgo.
  { intros c0 H1 H2 H3 H4 H5 H6.
    destruct (Hready c0 H1 H2 H3 H4 H5 H6) as (Hw0 & Ht0 & Hrd).
    exists (generateCover newBook c0). rewrite Hw0. by split_and!. }
  destruct chs as [| [first |] rest] eqn:Hchs.
  - apply Hgo; simpl; try done; [by rewrite Hs | by rewrite Ht].
  - apply Hgo; simpl; try done; [by rewrite Hs | by rewrite Ht].
  - destruct (Hpl 0) as (p & Hp & _); [simpl; lia | discriminate].
Qed.

Lemma Inv_planned file rawText r c :
  loadingState (app c) = PLANNING → Inv c → tasks c = [AwaitStructure file rawText] →
  Inv (handleFileUpload_planned file rawText r (take_task 0 c)).
Proof.
  intros Hls H Ht.
  assert (∀ err, Inv (handleFileUpload_catch err (take_task 0 c))) as Hcatch.
  { intros err. unfold Inv in H. rewrite Hls in H.
    destruct H as (Hb & Hg & Hr & Hw & Hs & _).
    apply (Inv_catch _ _ [step_completed; step_processing; step_processing; step_pending]);
      simpl; try done.
    - by rewrite Ht.
    - by right. }
  destruct r as [structure | err]; [| apply Hcatch].
  destruct (materialize structure) as [chs | err] eqn:Hm.
  - destruct (planned_loop_ready file rawText structure chs c) as (c0 & -> & _ & _ & Hready);
      try done.
    by apply loop_ready_Inv.
  - simpl. rewrite Hm. apply Hcatch.
Qed.

(** When the call for the current chapter returns, its result is stored
    and the next iteration is about to run. *)
Lemma settled_loop_ready cb rawText r c b :
  loadingState (app c) = WRITING →
  steps (app c) =
    with_statuses [step_completed; step_completed; step_completed; step_processing] →
  book (app c) = Some b → length (written c) < length (Book.chapters cb) →
  follows cb b (written c) true →
  cover_tasks (app c) (tasks c) →
  chapter_requests c = planned_requests cb rawText (S (length (written c))) →
  catch_raises cb (length (written c)) r = false →
  ∃ c2, processChapters_settled cb rawText (length (written c)) r c =
          processChapters_loop cb rawText (length (written c2)) c2 ∧
        written c2 = written c ++ [r] ∧ tasks c2 = tasks c ∧
        chapter_requests c2 = chapter_requests c ∧
        loop_ready cb rawText c2.
Proof.
  intros Hls Hs Hb Hi Hf Hcov Hreq Hlog. unfold processChapters_settled. rewrite Hlog.
  match goal with
  | |- ∃ c2, processChapters_loop _ _ _ ?c = _ ∧ _ => exists c
  end.
  assert (∀ l : list (outcome string), length (l ++ [r]) = S (length l)) as Hlen
    by (intros; rewrite length_app; simpl; lia).
  unfold loop_ready.
  destruct r as [content | err]; simpl; rewrite Hb, Hlen; split_and!; try done; try lia.
  - destruct (follows_completed _ _ _ content Hf Hi) as (b' & Hb' & Hf'). by exists b'.
  - destruct (follows_error _ _ _ err Hf Hi) as (b' & Hb' & Hf'). by exists b'.
Qed.

Lemma Inv_chapter_settled cb rawText r c b :
  loadingState (app c) = WRITING →
  steps (app c) =
    with_statuses [step_completed; step_completed; step_completed; step_processing] →
  book (app c) = Some b → length (written c) < length (Book.chapters cb) →
  follows cb b (written c) true →
  cover_tasks (app c) (tasks c) →
  chapter_requests c = planned_requests cb rawText (S (length (written c))) →
  Inv (processChapters_settled cb rawText (length (written c)) r c).
Proof.
  intros Hls Hs Hb Hi Hf Hcov Hreq.
  destruct (catch_raises cb (length (written c)) r) eqn:Hlog.
  - unfold processChapters_settled. rewrite Hlog. unfold Inv. rewrite Hls.
    split; [done |]. exists b, cb, rawText, (tasks c). split_and!; try done.
    right. split; [done |]. unfold lost_at. by destruct r.
  - destruct (settled_loop_ready cb rawText r c b) as (c2 & -> & _ & _ & _ & Hready);
      try done.
    by apply loop_ready_Inv.
Qed.

Lemma Inv_cover_settled_writing r c b cb rawText :
  loadingState (app c) = WRITING →
  steps (app c) =
    with_statuses [step_completed; step_completed; step_completed; step_processing] →
  book (app c) = Some b → length (written c) < length (Book.chapters cb) →
  follows cb b (written c) true →
  tasks c = [AwaitChapter cb rawText (length (written c))] ∨
  tasks c = [] ∧ lost_at cb (length (written c)) →
  chapter_requests c = planned_requests cb rawText (S (length (written c))) →
  Inv (generateCover_settled r c).
Proof.
  intros Hls Hs Hb Hi Hf Ht Hreq. unfold Inv.
  assert (tasks c ≡ₚ [AwaitChapter cb rawText (length (written c))] ∨
          tasks c = [] ∧ lost_at cb (length (written c))) as Ht'
    by (destruct Ht as [-> | ?]; auto).
  destruct r as [url | err]; simpl; rewrite Hls; (split; [done |]).
  - exists (Book.with_coverUrl url b), cb, rawText, []. rewrite Hb.
    split_and!; try done; by apply follows_coverUrl.
  - exists b, cb, rawText, []. by split_and!.
Qed.

Lemma Inv_cover_settled_success r c b cb rawText :
  loadingState (app c) = SUCCESS →
  steps (app c) =
    with_statuses [step_completed; step_completed; step_completed; step_completed] →
  book (app c) = Some b → length (written c) = length (Book.chapters cb) →
  follows cb b (written c) false →
  tasks c = [] →
  chapter_requests c = planned_requests cb rawText (length (Book.chapters cb)) →
  Inv (generateCover_settled r c).
Proof.
  intros Hls Hs Hb Hn Hf Ht Hreq. unfold Inv.
  destruct r as [url | err]; simpl; rewrite Hls; (split; [done |]).
  - exists (Book.with_coverUrl url b), cb, rawText. rewrite Hb.
    split_and!; try done; by apply follows_coverUrl.
  - exists b, cb, rawText. by split_and!.
Qed.

Lemma Inv_generateCover b c :
  Inv c → showEditor (app c) = true → isGeneratingCover (app c) = false →
  Inv (generateCover b c).
Proof.
  unfold Inv, showEditor. intros H Hshow Hg.
  destruct (loadingState (app c)) eqn:Hls; try discriminate; simpl; rewrite Hls.
  - destruct H as (Hs & b0 & cb & rawText & covers & Hb & Hi & Hf & Ht & Hcov & Hreq).
    split; [done |]. unfold cover_tasks in Hcov. rewrite Hg in Hcov. subst covers.
    exists b0, cb, rawText, [AwaitCover b]. split_and!; try done.
    + destruct Ht as [Ht | [Ht Hlost]]; [left; by rewrite Ht | right; by rewrite Ht].
    + by exists b.
    + unfold chapter_requests in *. simpl. rewrite omap_app, Hreq. simpl.
      by rewrite app_nil_r.
  - destruct H as (Hs & b0 & cb & rawText & Hb & Hn & Hf & Hcov & Hreq).
    split; [done |]. unfold cover_tasks in Hcov. rewrite Hg in Hcov.
    exists b0, cb, rawText. split_and!; try done.
    + exists b. by rewrite Hcov.
    + unfold chapter_requests in *. simpl. rewrite omap_app, Hreq. simpl.
      by rewrite app_nil_r.
Qed.

(** A pending chapter call is the one of the loop the invariant speaks
    of; taking it leaves at most the cover call. *)
Lemma Inv_chapter_task c k cb rawText i :
  Inv c → tasks c !! k = Some (AwaitChapter cb rawText i) →
  loadingState (app c) = WRITING ∧
  steps (app c) =
    with_statuses [step_completed; step_completed; step_completed; step_processing] ∧
  i = length (written c) ∧ i < length (Book.chapters cb) ∧
  cover_tasks (app c) (delete k (tasks c)) ∧
  chapter_requests c = planned_requests cb rawText (S i) ∧
  ∃ b, book (app c) = Some b ∧ follows cb b (written c) true.
Proof.
  intros H Hk. unfold Inv in H. destruct (loadingState (app c)) eqn:Hls.
  - destruct H as (Ht & _). by rewrite Ht in Hk.
  - destruct H as (_ & _ & _ & _ & _ & file & Ht). rewrite Ht in Hk.
    by destruct k as [| k]; simplify_eq/=.
  - destruct H as (_ & _ & _ & _ & _ & file & raw & Ht). rewrite Ht in Hk.
    by destruct k as [| k]; simplify_eq/=.
  - destruct H as (Hs & b & cb' & raw' & covers & Hb & Hi & Hf & Ht & Hcov & Hreq).
    destruct Ht as [Ht | [Ht _]].
    + destruct (tasks_cases _ _ _ _ Ht Hcov) as
        [(Hg & -> & Ht') | (Hg & bd & -> & [Ht' | Ht'])]; [done | ..];
        rewrite Ht' in Hk |- *;
        (destruct k as [| [| k]]; simplify_eq/=);
        split_and!; try done; try (by exists b);
        unfold cover_tasks; rewrite Hg; try done; by exists bd.
    + subst covers. unfold cover_tasks in Hcov. destruct (isGeneratingCover (app c)).
      * destruct Hcov as [bd Ht]. rewrite Ht in Hk. by destruct k as [| k]; simplify_eq/=.
      * by rewrite Hcov in Hk.
  - done.
  - destruct H as (Ht & _). by rewrite Ht in Hk.
  - destruct H as (_ & b & cb' & raw' & _ & _ & _ & Hcov & _).
    unfold cover_tasks in Hcov. destruct (isGeneratingCover (app c)).
    + destruct Hcov as [bd Ht]. rewrite Ht in Hk. by destruct k as [| k]; simplify_eq/=.
    + by rewrite Hcov in Hk.
Qed.

(** Which call can be pending in which stage. *)
Ltac stage_of_task H Hk :=
  unfold Inv in H;
  match type of Hk with
  | tasks ?c !! ?k = _ =>
      destruct (loadingState (app c)) eqn:?Hls;
      [ destruct H as (?Ht & _); by rewrite Ht in Hk
      | destruct H as (?Hb & ?Hg & ?Hr & ?Hw & ?Hs & ?file' & ?Ht); rewrite Ht in Hk;
        destruct k; simplify_eq/=
      | destruct H as (?Hb & ?Hg & ?Hr & ?Hw & ?Hs & ?file' & ?raw' & ?Ht); rewrite Ht in Hk;
        destruct k; simplify_eq/=
      | destruct H as (?Hs & ?b & ?cb & ?raw & ?covers & ?Hb & ?Hi & ?Hf & ?Ht & ?Hcov & ?Hreq);
        destruct Ht as [?Ht | [?Ht ?Hlost]];
        [ destruct (tasks_cases _ _ _ _ Ht Hcov) as
            [(?Hg & ?Hc & ?Ht') | (?Hg & ?bd & ?Hc & [?Ht' | ?Ht'])]; [done | ..];
          rewrite Ht' in Hk; (destruct k as [| [| k]]; simplify_eq/=)
        | subst covers; unfold cover_tasks in Hcov;
          destruct (isGeneratingCover (app c)) eqn:?Hg;
          [ destruct Hcov as [?bd ?Ht']; rewrite Ht' in Hk; destruct k; simplify_eq/=
          | by rewrite Hcov in Hk ] ]
      | done
      | destruct H as (?Ht & _); by rewrite Ht in Hk
      | destruct H as (?Hs & ?b & ?cb & ?raw & ?Hb & ?Hn & ?Hf & ?Hcov & ?Hreq);
        unfold cover_tasks in Hcov;
        destruct (isGeneratingCover (app c)) eqn:?Hg;
        [ destruct Hcov as [?bd ?Ht]; rewrite Ht in Hk; destruct k; simplify_eq/=
        | by rewrite Hcov in Hk ] ]
  end.

Lemma Inv_parse_task c k file :
  Inv c → tasks c !! k = Some (AwaitParse file) →
  k = 0 ∧ tasks c = [AwaitParse file] ∧ loadingState (app c) = PARSING.
Proof. intros H Hk. pose proof H as H0. stage_of_task H0 Hk. by rewrite Ht. Qed.

Lemma Inv_structure_task c k file rawText :
  Inv c → tasks c !! k = Some (AwaitStructure file rawText) →
  k = 0 ∧ tasks c = [AwaitStructure file rawText] ∧ loadingState (app c) = PLANNING.
Proof. intros H Hk. pose proof H as H0. stage_of_task H0 Hk. by rewrite Ht. Qed.

Lemma Inv_cover_settled c k bookData r :
  Inv c → tasks c !! k = Some (AwaitCover bookData) →
  Inv (generateCover_settled r (take_task k c)).
Proof.
  intros H Hk. stage_of_task H Hk.
  - apply (Inv_cover_settled_writing _ _ b cb raw); simpl; try done. left. by rewrite Ht'.
  - apply (Inv_cover_settled_writing _ _ b cb raw); simpl; try done. left. by rewrite Ht'.
  - apply (Inv_cover_settled_writing _ _ b cb raw); simpl; try done. right. by rewrite Ht'.
  - apply (Inv_cover_settled_success _ _ b cb raw); simpl; try done. by rewrite Ht.
Qed.

Lemma Inv_settle c k r c' : Inv c → fire (Settle k r) c = Some c' → Inv c'.
Proof.
  intros H Hfire. simpl in Hfire.
  destruct (tasks c !! k) as [[file | file rawText | cb rawText i | bookData] |] eqn:Hk;
    [destruct r; try done; injection Hfire as <- .. | done].
  - destruct (Inv_parse_task _ _ _ H Hk) as (-> & Ht & Hls). by apply Inv_parsed.
  - destruct (Inv_structure_task _ _ _ _ H Hk) as (-> & Ht & Hls). by apply Inv_planned.
  - destruct (Inv_chapter_task _ _ _ _ _ H Hk) as
      (Hls & Hs & -> & Hi & Hcov & Hreq & b & Hb & Hf).
    by apply (Inv_chapter_settled _ _ _ (take_task k c) b).
  - by eapply Inv_cover_settled.
Qed.

Lemma Inv_upload_action a c :
  Inv c → loadingState (app c) = IDLE → Inv (upload_action a c).
Proof. destruct a; simpl; auto using Inv_handleFileUpload. Qed.

(** The invariant is kept by every step, hence holds in every reachable
    configuration. *)
Theorem Inv_step c e c' : Inv c → step e c = Some c' → Inv c'.
Proof.
  intros H Hstep. unfold step in Hstep.
  destruct (rendered e (app c)) eqn:Hr; [| done].
  destruct e as [files | files | | | id | k r]; simpl in Hr; unfold fire in Hstep.
  - apply bool_decide_eq_true in Hr. injection Hstep as <-. by apply Inv_upload_action.
  - apply bool_decide_eq_true in Hr. injection Hstep as <-. by apply Inv_upload_action.
  - apply bool_decide_eq_true in Hr. injection Hstep as <-.
    unfold Inv in *. simpl. rewrite Hr in H. by destruct H as (? & ? & ? & ? & ? & _).
  - apply andb_prop in Hr as [Hr Hg]. apply andb_prop in Hr as [Hshow Hb].
    apply negb_true_iff in Hg. destruct (book (app c)) as [b |]; [| done].
    injection Hstep as <-. by apply Inv_generateCover.
  - injection Hstep as <-. exact H.
  - by eapply Inv_settle.
Qed.

Theorem reachable_Inv c : reachable c → Inv c.
Proof.
  induction 1 as [| c e c' _ IH Hstep].
  - unfold Inv. simpl. by split_and!.
  - by eapply Inv_step.
Qed.

Lemma exec_reachable evs c c' : reachable c → exec evs c = Some c' → reachable c'.
Proof.
  revert c. induction evs as [| e evs IH]; intros c Hc Hexec; simpl in Hexec.
  - by injection Hexec as <-.
  - destruct (step e c) as [c1 |] eqn:Hstep; [| done].
    simpl in Hexec. eapply IH; [| done]. by eapply reachable_step.
Qed.

(** What a step is, given the invariant: the handler that runs and the
    stage it runs in. *)
Lemma step_cases c e c' :
  Inv c → step e c = Some c' →
  (loadingState (app c) = IDLE ∧ ∃ a, c' = upload_action a c) ∨
  (loadingState (app c) = ERROR ∧ c' = on_app (setLoadingState IDLE) c) ∨
  (isGeneratingCover (app c) = false ∧
   ∃ b, book (app c) = Some b ∧ c' = generateCover b c) ∨
  (∃ id, c' = on_app (setActiveChapterId id) c) ∨
  (loadingState (app c) = PARSING ∧
   ∃ file r, tasks c = [AwaitParse file] ∧
             c' = handleFileUpload_parsed file r (take_task 0 c)) ∨
  (loadingState (app c) = PLANNING ∧
   ∃ file rawText r, tasks c = [AwaitStructure file rawText] ∧
                     c' = handleFileUpload_planned file rawText r (take_task 0 c)) ∨
  (loadingState (app c) = WRITING ∧
   ∃ k cb rawText response,
     tasks c !! k = Some (AwaitChapter cb rawText (length (written c))) ∧
     step (Settle k (ChapterSettled response)) c = Some c') ∨
  (∃ k bookData r, tasks c !! k = Some (AwaitCover bookData) ∧
                   c' = generateCover_settled r (take_task k c)).
Proof.
  intros HI Hstep. unfold step in Hstep.
  destruct (rendered e (app c)) eqn:Hr; [| done].
  destruct e as [files | files | | | id | k r]; simpl in Hr; unfold fire in Hstep.
  - apply bool_decide_eq_true in Hr. injection Hstep as <-. left. eauto.
  - apply bool_decide_eq_true in Hr. injection Hstep as <-. left. eauto.
  - apply bool_decide_eq_true in Hr. injection Hstep as <-. right. left. eauto.
  - apply andb_prop in Hr as [Hr Hg]. apply negb_true_iff in Hg.
    destruct (book (app c)) as [b |] eqn:Hb; [| done]. injection Hstep as <-.
    do 2 right. left. eauto.
  - injection Hstep as <-. do 3 right. left. eauto.
  - destruct (tasks c !! k) as [[file | file rawText | cb rawText i | bookData] |] eqn:Hk;
      [destruct r; try done; injection Hstep as <- .. | done].
    + destruct (Inv_parse_task _ _ _ HI Hk) as (-> & Ht & Hls).
      do 4 right. left. eauto.
    + destruct (Inv_structure_task _ _ _ _ HI Hk) as (-> & Ht & Hls).
      do 5 right. left. eauto 6.
    + destruct (Inv_chapter_task _ _ _ _ _ HI Hk) as (Hls & _ & -> & _).
      do 6 right. left. split; [done |]. exists k, cb, rawText, response.
      split; [done |]. unfold step. simpl. by rewrite Hk.
    + do 7 right. eauto.
Qed.

Lemma lookup_delete_elsewhere {A} (l : list A) k k' x :
  delete k l !! k' = Some x → ∃ k'', l !! k'' = Some x.
Proof.
  revert k k'. induction l as [| a l IH]; intros [| k] k' Hx; simpl in Hx; try done.
  - by exists (S k').
  - destruct k' as [| k']; simpl in Hx; [by exists 0 |].
    destruct (IH _ _ Hx) as [k'' Hk'']. by exists (S k'').
Qed.

(** ** The writing loop, call by call *)

(** A pending chapter call can settle either way. Unless the [catch]
    raises, the result is stored and the loop moves on to the next
    chapter, or ends the run. *)
Lemma chapter_settle_spec c k cb rawText i response :
  Inv c → tasks c !! k = Some (AwaitChapter cb rawText i) →
  catch_raises cb i (generateChapterContent response) = false →
  ∃ c', step (Settle k (ChapterSettled response)) c = Some c' ∧
        written c' = written c ++ [generateChapterContent response] ∧
        ∃ b', book (app c') = Some b' ∧
          if decide (S i < length (Book.chapters cb)) then
            loadingState (app c') = WRITING ∧
            tasks c' = delete k (tasks c) ++ [AwaitChapter cb rawText (S i)] ∧
            chapter_requests c' = planned_requests cb rawText (S (S i)) ∧
            follows cb b' (written c') true
          else
            loadingState (app c') = SUCCESS ∧ tasks c' = delete k (tasks c) ∧
            chapter_requests c' = planned_requests cb rawText (length (Book.chapters cb)) ∧
            follows cb b' (written c') false.
Proof.
  intros H Hk Hlog.
  destruct (Inv_chapter_task _ _ _ _ _ H Hk) as (Hls & Hs & -> & Hi & Hcov & Hreq & b & Hb & Hf).
  eexists. split; [unfold step; simpl; by rewrite Hk |].
  destruct (settled_loop_ready cb rawText (generateChapterContent response)
              (take_task k c) b) as (c2 & Heq & Hw & Ht & Hr & Hready); try done.
  simpl in Heq. rewrite Heq.
  destruct (loop_ready_spec _ _ _ Hready) as (Hw' & b' & Hb' & Hspec).
  simpl in Hw, Ht.
  assert (length (written c2) = S (length (written c))) as Hl
    by (rewrite Hw, length_app; simpl; lia).
  split; [by rewrite Hw', Hw |].
  exists b'. split; [done |].
  rewrite Hw'. rewrite Hl in Hspec |- *. rewrite Ht in Hspec. exact Hspec.
Qed.

(** When the [catch] raises, the call is over and nothing else has
    happened. *)
Lemma chapter_settle_lost c k cb rawText i response :
  tasks c !! k = Some (AwaitChapter cb rawText i) →
  catch_raises cb i (generateChapterContent response) = true →
  step (Settle k (ChapterSettled response)) c = Some (take_task k c).
Proof.
  intros Hk Hlog. unfold step, fire. simpl. rewrite Hk.
  unfold processChapters_settled. by rewrite Hlog.
Qed.

(** A stored return shows in the book. *)
Lemma follows_written cb b rs active j r :
  follows cb b rs active → (length rs ≤ length (Book.chapters cb))%nat →
  rs !! j = Some r →
  ∃ ch, js_get (Book.chapters b) j = Some ch ∧ written_as r ch.
Proof.
  intros Hf Hlen Hr. pose proof (lookup_lt_Some _ _ _ Hr) as Hj.
  destruct (follows_lookup _ _ _ _ j Hf) as (p & ch & _ & Hch & _ & _ & Hst); [lia |].
  exists ch. split; [by apply js_get_lookup |].
  unfold chapter_state in Hst. by rewrite Hr in Hst.
Qed.

(** The book on screen while writing and afterwards. *)
Lemma Inv_book c b :
  Inv c → book (app c) = Some b →
  ∃ cb active, follows cb b (written c) active ∧
               (length (written c) ≤ length (Book.chapters cb))%nat ∧
               (loadingState (app c) = WRITING ∧ active = true ∧
                length (written c) < length (Book.chapters cb) ∨
                loadingState (app c) = SUCCESS ∧ active = false ∧
                length (written c) = length (Book.chapters cb)).
Proof.
  unfold Inv. intros H Hb.
  destruct (loadingState (app c)) eqn:Hls; try (destruct H as (? & ? & _); congruence);
    try done.
  - destruct H as (_ & b' & cb & raw & covers & Hb' & Hi & Hf & _).
    exists cb, true. simplify_eq. split_and!; [done | lia | left; by split_and!].
  - destruct H as (_ & b' & cb & raw & Hb' & Hn & Hf & _).
    exists cb, false. simplify_eq. split_and!; [done | lia | right; by split_and!].
Qed.

Lemma reachable_written c j r :
  reachable c → written c !! j = Some r →
  ∃ ch, chapter_at c j = Some ch ∧ written_as r ch.
Proof.
  intros Hc Hr. apply reachable_Inv in Hc.
  assert (∃ b, book (app c) = Some b) as [b Hb].
  { unfold Inv in Hc. destruct (loadingState (app c)); try done.
    - destruct Hc as (_ & _ & _ & _ & Hw). by rewrite Hw in Hr.
    - destruct Hc as (_ & _ & _ & Hw & _). by rewrite Hw in Hr.
    - destruct Hc as (_ & _ & _ & Hw & _). by rewrite Hw in Hr.
    - destruct Hc as (_ & b & ? & ? & ? & Hb & _). by exists b.
    - destruct Hc as (_ & _ & _ & _ & Hw & _). by rewrite Hw in Hr.
    - destruct Hc as (_ & b & ? & ? & Hb & _). by exists b. }
  destruct (Inv_book _ _ Hc Hb) as (cb & active & Hf & Hlen & _).
  unfold chapter_at. rewrite Hb. simpl. by eapply follows_written.
Qed.

Lemma chapter_task_spec l k cb rawText i :
  l !! k = Some (AwaitChapter cb rawText i) →
  ∃ k' cb' rawText' i', chapter_task l = Some k' ∧ l !! k' = Some (AwaitChapter cb' rawText' i').
Proof.
  revert k. induction l as [| t l IH]; intros k Hk; [done |].
  destruct t; try (simpl; by eauto 6);
    (destruct k as [| k]; [done |]; simpl in Hk;
     destruct (IH _ Hk) as (k' & cb' & raw' & i' & Hct & Hl);
     exists (S k'), cb', raw', i'; simpl; by rewrite Hct).
Qed.

(** At most one chapter call is pending. *)
Lemma Inv_chapter_task_unique c k k' cb rawText i cb' rawText' i' :
  Inv c → tasks c !! k = Some (AwaitChapter cb rawText i) →
  tasks c !! k' = Some (AwaitChapter cb' rawText' i') → k = k'.
Proof.
  intros H Hk Hk'. stage_of_task H Hk; rewrite ?Ht' in Hk'; 
    by destruct k' as [| [| k']]; simplify_eq/=.
Qed.

(** Whatever the writer answers for the remaining chapters, as long as
    no [catch] raises the loop goes through all of them and ends the
    run in SUCCESS. *)
Lemma settle_chapters_total cb rawText rs :
  ∀ c k i, reachable c → tasks c !! k = Some (AwaitChapter cb rawText i) →
    length rs = length (Book.chapters cb) - i → all_logged cb i rs →
    ∃ c', settle_chapters rs c = Some c' ∧ reachable c' ∧
          loadingState (app c') = SUCCESS ∧
          chapter_requests c' = planned_requests cb rawText (length (Book.chapters cb)) ∧
          written c' = written c ++ (generateChapterContent <$> rs).
Proof.
  induction rs as [| r rs IH]; intros c k i Hc Hk Hlen Hlog.
  - destruct (Inv_chapter_task _ _ _ _ _ (reachable_Inv _ Hc) Hk) as (_ & _ & _ & Hi & _).
    simpl in Hlen. lia.
  - pose proof (reachable_Inv _ Hc) as HI.
    destruct (chapter_task_spec _ _ _ _ _ Hk) as (k' & cb' & raw' & i' & Hct & Hk').
    assert (k = k') as <- by (by eapply Inv_chapter_task_unique).
    assert (catch_raises cb i (generateChapterContent r) = false) as Hlog0
      by (specialize (Hlog 0 r eq_refl); by rewrite Nat.add_0_r in Hlog).
    destruct (chapter_settle_spec c k cb rawText i r HI Hk Hlog0) as
      (c1 & Hstep & Hw & b1 & Hb1 & Hspec).
    assert (reachable c1) as Hc1 by (by eapply reachable_step).
    simpl. rewrite Hct. simpl. rewrite Hstep. simpl.
    simpl in Hlen. case_decide as Hlt.
    + destruct Hspec as (_ & Ht1 & _).
      destruct (IH c1 (length (delete k (tasks c))) (S i) Hc1) as
        (c' & Hrun & Hc' & Hls & Hreq & Hw'); [| lia | |].
      { rewrite Ht1. by apply list_lookup_middle. }
      { intros j r' Hr'. specialize (Hlog (S j) r' Hr').
        by rewrite Nat.add_succ_r in Hlog. }
      exists c'. split_and!; try done. by rewrite Hw', Hw, <- app_assoc.
    + destruct Hspec as (Hls & _ & Hreq & _).
      destruct rs; [| simpl in Hlen; lia]. simpl.
      exists c1. by split_and!.
Qed.

(** C1, as the code has it. For every run with n planned chapters: when
    the chapter writer's call for chapter k fails and the id of chapter
    k can be printed, chapter k gets status [error] and the fixed
    placeholder as content, the loop goes on with chapter k+1 (marked
    [generating], its call made next in plan order) or, after the last
    chapter, sets the stage to SUCCESS; and whatever the calls for the
    remaining chapters return, as long as each failure among them meets
    an id that can be printed, all of them are made in order and the
    run ends in SUCCESS with every result stored. *)
Theorem chapter_failure_is_local c k cb rawText i err :
  reachable c → tasks c !! k = Some (AwaitChapter cb rawText i) →
  let n := length (Book.chapters cb) in
  (log_raises (js_get (Book.chapters cb) i) = false →
   ∃ c', step (Settle k (ChapterSettled (Rejected err))) c = Some c' ∧
     (∃ ch, chapter_at c' i = Some ch ∧ Chapter.status ch = error ∧
            Chapter.content ch = Some ERROR_PLACEHOLDER) ∧
     if decide (S i < n) then
       loadingState (app c') = WRITING ∧
       AwaitChapter cb rawText (S i) ∈ tasks c' ∧
       chapter_requests c' = planned_requests cb rawText (S (S i)) ∧
       (∃ ch, chapter_at c' (S i) = Some ch ∧ Chapter.status ch = generating)
     else
       loadingState (app c') = SUCCESS ∧
       chapter_requests c' = planned_requests cb rawText n) ∧
  (∀ rs, length rs = n - i → all_logged cb i rs →
     ∃ c', settle_chapters rs c = Some c' ∧
           loadingState (app c') = SUCCESS ∧
           chapter_requests c' = planned_requests cb rawText n ∧
           written c' = written c ++ (generateChapterContent <$> rs) ∧
           ∀ j r, written c' !! j = Some r →
                  ∃ ch, chapter_at c' j = Some ch ∧ written_as r ch).
Proof.
  intros Hc Hk n. pose proof (reachable_Inv _ Hc) as HI. split.
  - intros Hlog.
    destruct (chapter_settle_spec c k cb rawText i (Rejected err) HI Hk Hlog) as
      (c' & Hstep & Hw & b' & Hb' & Hspec).
    destruct (Inv_chapter_task _ _ _ _ _ HI Hk) as (_ & _ & Hi & _).
    assert (reachable c') as Hc' by (by eapply reachable_step).
    exists c'. split; [done |]. split.
    + destruct (reachable_written c' i (Rejected err) Hc') as (ch & Hch & Hwr).
      { rewrite Hw, Hi. by apply list_lookup_middle. }
      by exists ch.
    + subst n. case_decide as Hlt.
      * destruct Hspec as (Hls & Ht & Hreq & Hf). split_and!; try done.
        { rewrite Ht, elem_of_app, list_elem_of_singleton. by right. }
        destruct (follows_lookup _ _ _ _ (S i) Hf Hlt) as (p & ch & _ & Hch & _ & _ & Hst).
        exists ch. unfold chapter_at. rewrite Hb'. simpl.
        split; [by apply js_get_lookup |].
        unfold chapter_state in Hst.
        assert (length (written c') = S i) as Hl
          by (rewrite Hw, length_app, Hi; simpl; lia).
        rewrite lookup_ge_None_2, decide_True in Hst by lia. by destruct Hst.
      * by destruct Hspec as (Hls & _ & Hreq & _).
  - intros rs Hlen Hlog.
    destruct (settle_chapters_total cb rawText rs c k i Hc Hk Hlen Hlog) as
      (c' & Hrun & Hc' & Hls & Hreq & Hw).
    exists c'. split_and!; try done. intros j r. by apply reachable_written.
Qed.

Lemma chapter_failure_is_local_witness :
  reachable Sample.at_writing ∧
  tasks Sample.at_writing !! 1 = Some (AwaitChapter Sample.plan Sample.raw 0) ∧
  let c := Sample.at_writing in
  let n := length (Book.chapters Sample.plan) in
  (log_raises (js_get (Book.chapters Sample.plan) 0) = false →
   ∃ c', step (Settle 1 (ChapterSettled (Rejected (Thrown None)))) c = Some c' ∧
     (∃ ch, chapter_at c' 0 = Some ch ∧ Chapter.status ch = error ∧
            Chapter.content ch = Some ERROR_PLACEHOLDER) ∧
     if decide (1 < n) then
       loadingState (app c') = WRITING ∧
       AwaitChapter Sample.plan Sample.raw 1 ∈ tasks c' ∧
       chapter_requests c' = planned_requests Sample.plan Sample.raw 2 ∧
       (∃ ch, chapter_at c' 1 = Some ch ∧ Chapter.status ch = generating)
     else
       loadingState (app c') = SUCCESS ∧
       chapter_requests c' = planned_requests Sample.plan Sample.raw n) ∧
  (∀ rs, length rs = n - 0 → all_logged Sample.plan 0 rs →
     ∃ c', settle_chapters rs c = Some c' ∧
           loadingState (app c') = SUCCESS ∧
           chapter_requests c' = planned_requests Sample.plan Sample.raw n ∧
           written c' = written c ++ (generateChapterContent <$> rs) ∧
           ∀ j r, written c' !! j = Some r →
                  ∃ ch, chapter_at c' j = Some ch ∧ written_as r ch).
Proof.
  assert (reachable Sample.at_writing) as Hreach
    by (apply (exec_reachable Sample.to_writing initialConfig);
        [apply reachable_init | reflexivity]).
  split; [exact Hreach |]. split; [reflexivity |].
  apply (chapter_failure_is_local Sample.at_writing 1 Sample.plan Sample.raw 0 (Thrown None));
    [exact Hreach | reflexivity].
Defined.

(** Once the loop has ended in its [catch], nothing brings it back: no
    step changes the stage, the chapters, the calls made to the chapter
    writer or the returns taken in, and no chapter call is pending
    again. *)
Lemma lost_step c e c' :
  Inv c → loop_lost c → step e c = Some c' →
  loop_lost c' ∧ chapter_requests c' = chapter_requests c ∧ written c' = written c ∧
  (Book.chapters <$> book (app c')) = (Book.chapters <$> book (app c)).
Proof.
  intros HI [Hls Hno] Hstep. unfold loop_lost.
  destruct (step_cases _ _ _ HI Hstep) as
    [(Hls' & a & ->) | [(Hls' & ->) | [(_ & b & Hb & ->) | [(id & ->) |
     [(Hls' & file & r & _ & ->) | [(Hls' & file & raw & r & _ & ->) |
      [(_ & k & cb & raw & response & Hk & _) | (k & bd & r & Hk & ->)]]]]]]];
    try congruence.
  - simpl. split_and!; try done.
    + intros k cb raw i Hk. apply lookup_app_Some in Hk as [Hk | [_ Hk]];
        [by eapply Hno | apply list_lookup_singleton_Some in Hk as [_ Hk]; congruence].
    + unfold chapter_requests. simpl. rewrite omap_app. simpl. by rewrite app_nil_r.
  - by simpl.
  - by apply Hno in Hk.
  - assert (∀ c0, loadingState (app (generateCover_settled r c0)) = loadingState (app c0) ∧
                  tasks (generateCover_settled r c0) = tasks c0 ∧
                  requests (generateCover_settled r c0) = requests c0 ∧
                  written (generateCover_settled r c0) = written c0 ∧
                  (Book.chapters <$> book (app (generateCover_settled r c0))) =
                    (Book.chapters <$> book (app c0))) as Hframe
      by (intros c0; destruct r; simpl; split_and!; try done; by destruct (book (app c0))).
    destruct (Hframe (take_task k c)) as (-> & -> & Hr & -> & ->).
    split_and!; try done.
    + intros k' cb raw i Hk'. simpl in Hk'.
      destruct (lookup_delete_elsewhere _ _ _ _ Hk') as [k'' Hk'']. by eapply Hno.
    + unfold chapter_requests. by rewrite Hr.
Qed.

Lemma lost_forever evs :
  ∀ c c', Inv c → loop_lost c → exec evs c = Some c' →
    loop_lost c' ∧ chapter_requests c' = chapter_requests c ∧ written c' = written c ∧
    (Book.chapters <$> book (app c')) = (Book.chapters <$> book (app c)).
Proof.
  induction evs as [| e evs IH]; intros c c' HI Hlost Hexec; simpl in Hexec.
  - by injection Hexec as <-.
  - destruct (step e c) as [c1 |] eqn:Hstep; [| done]. simpl in Hexec.
    destruct (lost_step _ _ _ HI Hlost Hstep) as (Hlost1 & Hr1 & Hw1 & Hb1).
    destruct (IH c1 c' (Inv_step _ _ _ HI Hstep) Hlost1 Hexec) as (? & Hr & Hw & Hb).
    split_and!; [done | by rewrite Hr | by rewrite Hw | by rewrite Hb].
Qed.

(** C1 as stated fails. In a plan of two chapters the first has an id
    that cannot be printed (an object with a member [toString]). When
    the call for it fails, the [catch] raises before it stores
    anything: the chapter keeps status [generating] and its empty
    content for ever, the second chapter is never asked for, no chapter
    call is pending any more, and the stage stays WRITING whatever
    happens afterwards. *)
Lemma failure_can_end_the_loop :
  reachable Sample.odd_writing ∧
  tasks Sample.odd_writing !! 1 = Some (AwaitChapter Sample.odd_plan Sample.raw 0) ∧
  length (Book.chapters Sample.odd_plan) = 2 ∧
  ∃ c', step (Settle 1 (ChapterSettled (Rejected (Thrown (Some "overloaded"%string)))))
             Sample.odd_writing = Some c' ∧
    ∀ evs c'', exec evs c' = Some c'' →
      loadingState (app c'') = WRITING ∧
      (∃ ch, chapter_at c'' 0 = Some ch ∧ Chapter.status ch = generating ∧
             Chapter.content ch = Some ""%string) ∧
      (∃ ch, chapter_at c'' 1 = Some ch ∧ Chapter.status ch = pending) ∧
      chapter_requests c'' = planned_requests Sample.odd_plan Sample.raw 1 ∧
      ∀ k cb rawText i, tasks c'' !! k ≠ Some (AwaitChapter cb rawText i).
Proof.
  assert (reachable Sample.odd_writing) as Hreach
    by (apply (exec_reachable Sample.to_odd_writing initialConfig);
        [apply reachable_init | reflexivity]).
  split; [exact Hreach |]. split; [reflexivity |]. split; [reflexivity |].
  assert (step (Settle 1 (ChapterSettled (Rejected (Thrown (Some "overloaded"%string)))))
               Sample.odd_writing = Some (take_task 1 Sample.odd_writing)) as Hstep
    by reflexivity.
  eexists. split; [exact Hstep |]. intros evs c'' Hexec.
  assert (loop_lost (take_task 1 Sample.odd_writing)) as Hlost.
  { split; [reflexivity |]. intros [| [| k]] cb rawText i; vm_compute; congruence. }
  destruct (lost_forever evs _ _ (Inv_step _ _ _ (reachable_Inv _ Hreach) Hstep) Hlost Hexec)
    as ([Hls Hno] & Hr & Hw & Hb).
  split; [done |]. unfold chapter_at.
  destruct (book (app c'')) as [b'' |]; [| discriminate].
  injection Hb as Hb. simpl. rewrite Hb.
  split_and!; [by eexists | by eexists | by rewrite Hr | done].
Qed.

(** The scenario of a three-chapter plan whose second call fails: the
    run ends in SUCCESS with chapter 0 and 2 completed and chapter 1 in
    error with the placeholder. *)
Example three_chapters_middle_fails :
  ∃ c b, settle_chapters Sample.middle_fails Sample.at_writing = Some c ∧
         loadingState (app c) = SUCCESS ∧ book (app c) = Some b ∧
         (λ ch, (Chapter.status ch, Chapter.content ch)) <$> omap id (Book.chapters b) =
           [(completed, Some "First chapter"%string);
            (error, Some ERROR_PLACEHOLDER);
            (completed, Some "Last chapter"%string)].
Proof. do 2 eexists. split; [vm_compute; reflexivity |]. by split_and!. Qed.

(** ** Chapter statuses *)

(** The three zones of the book: stored results, the chapter being
    written, the chapters not started. *)
Lemma chapter_state_cases rs active j ch :
  chapter_state rs active j ch →
  (∃ r, rs !! j = Some r ∧ written_as r ch) ∨
  (j = length rs ∧ active = true ∧ untouched generating ch) ∨
  (length rs ≤ j ∧ (j = length rs → active = false) ∧ untouched pending ch).
Proof.
  unfold chapter_state. destruct (rs !! j) as [r |] eqn:Hr; [by eauto |].
  apply lookup_ge_None_1 in Hr. intros Hst.
  case_decide as Hj; [destruct active |]; [right; left | right; right ..];
    split_and!; done || lia.
Qed.

Lemma written_as_status r ch :
  written_as r ch → Chapter.status ch = completed ∨ Chapter.status ch = error.
Proof. destruct r; intros [? _]; auto. Qed.

Lemma book_chapter c b j ch :
  Inv c → book (app c) = Some b → js_get (Book.chapters b) j = Some ch →
  ∃ cb active, follows cb b (written c) active ∧ chapter_state (written c) active j ch ∧
    (loadingState (app c) = WRITING ∧ active = true ∨
     loadingState (app c) = SUCCESS ∧ active = false ∧
     length (written c) = length (Book.chapters b)).
Proof.
  intros HI Hb Hch. destruct (Inv_book _ _ HI Hb) as (cb & active & Hf & _ & Hstage).
  apply js_get_Some in Hch. pose proof (lookup_lt_Some _ _ _ Hch) as Hj.
  rewrite (follows_length _ _ _ _ Hf) in Hj.
  destruct (follows_lookup _ _ _ _ j Hf Hj) as (p & ch' & _ & Hch' & _ & _ & Hst).
  simplify_eq. exists cb, active. split_and!; try done.
  destruct Hstage as [(? & ? & _) | (? & ? & Hn)]; [by left | right].
  by rewrite (follows_length _ _ _ _ Hf).
Qed.

(** C2. Chapters are written strictly one after the other: in every
    configuration the application reaches, a chapter in status
    [generating] is the one the loop has arrived at, every chapter
    before it has left [generating] for [completed] or [error], every
    chapter after it is still [pending], and no other chapter is
    [generating]. *)
Theorem writing_is_sequential c b i ch :
  reachable c → book (app c) = Some b →
  js_get (Book.chapters b) i = Some ch → Chapter.status ch = generating →
  loadingState (app c) = WRITING ∧ i = length (written c) ∧
  ∀ j chj, js_get (Book.chapters b) j = Some chj →
    (j < i → Chapter.status chj = completed ∨ Chapter.status chj = error) ∧
    (i < j → Chapter.status chj = pending) ∧
    (Chapter.status chj = generating → j = i).
Proof.
  intros Hc Hb Hch Hgen. apply reachable_Inv in Hc.
  destruct (book_chapter _ _ _ _ Hc Hb Hch) as (cb & active & Hf & Hst & Hstage).
  assert (i = length (written c) ∧ active = true) as [Hi Hact].
  { destruct (chapter_state_cases _ _ _ _ Hst) as
      [(r & _ & Hw) | [(? & ? & _) | (_ & _ & Hs & _)]]; [| done | congruence].
    destruct (written_as_status _ _ Hw); congruence. }
  split_and!; [by destruct Hstage as [[? _] | (_ & ? & _)]; [| congruence] | done |].
  intros j chj Hchj.
  destruct (book_chapter _ _ _ _ Hc Hb Hchj) as (cb' & active' & _ & Hstj & Hstage').
  assert (active' = true) as ->
    by (destruct Hstage as [[? _] | (_ & ? & _)], Hstage' as [[_ ?] | [? _]]; congruence).
  destruct (chapter_state_cases _ _ _ _ Hstj) as
    [(r & Hr & Hw) | [(Hj & _ & Hs & _) | (Hj & Hne & Hs & _)]].
  - apply lookup_lt_Some in Hr. split_and!; [intros _; by eapply written_as_status | lia |].
    destruct (written_as_status _ _ Hw); congruence.
  - split_and!; intros; lia || congruence.
  - split_and!; [lia | done | congruence].
Qed.

Lemma writing_is_sequential_witness :
  reachable Sample.one_done ∧
  book (app Sample.one_done) = Some Sample.one_done_book ∧
  js_get (Book.chapters Sample.one_done_book) 1 = Some Sample.one_done_next ∧
  Chapter.status Sample.one_done_next = generating ∧
  loadingState (app Sample.one_done) = WRITING ∧ 1 = length (written Sample.one_done) ∧
  ∀ j chj, js_get (Book.chapters Sample.one_done_book) j = Some chj →
    (j < 1 → Chapter.status chj = completed ∨ Chapter.status chj = error) ∧
    (1 < j → Chapter.status chj = pending) ∧
    (Chapter.status chj = generating → j = 1).
Proof.
  assert (reachable Sample.one_done) as Hreach
    by (apply (exec_reachable
                 (Sample.to_writing ++
                  [Settle 1 (ChapterSettled (Resolved (Some "First chapter"%string)))])
                 initialConfig); [apply reachable_init | reflexivity]).
  split; [exact Hreach |]. do 3 (split; [reflexivity |]).
  apply (writing_is_sequential Sample.one_done Sample.one_done_book 1 Sample.one_done_next);
    [exact Hreach | reflexivity ..].
Defined.

(** ** The abort ref *)

Lemma rendered_setAbortRef e v s : rendered e (setAbortRef v s) = rendered e s.
Proof. by destruct e. Qed.

Lemma processChapters_loop_setAbortRef cb rawText i v c :
  processChapters_loop cb rawText i (on_app (setAbortRef v) c) =
  on_app (setAbortRef v) (processChapters_loop cb rawText i c).
Proof. unfold processChapters_loop. by repeat case_match. Qed.

Lemma upload_action_setAbortRef a v c :
  upload_action a (on_app (setAbortRef v) c) = on_app (setAbortRef v) (upload_action a c).
Proof. by destruct a. Qed.

Lemma catch_setAbortRef err v c :
  handleFileUpload_catch err (on_app (setAbortRef v) c) =
  on_app (setAbortRef v) (handleFileUpload_catch err c).
Proof. unfold handleFileUpload_catch. by destruct (message err). Qed.

Lemma fire_setAbortRef e v c :
  fire e (on_app (setAbortRef v) c) = on_app (setAbortRef v) <$> fire e c.
Proof.
  destruct e as [files | files | | | id | k r]; unfold fire.
  - by rewrite upload_action_setAbortRef.
  - by rewrite upload_action_setAbortRef.
  - done.
  - change (book (app (on_app (setAbortRef v) c))) with (book (app c)).
    by destruct (book (app c)).
  - done.
  - change (tasks (on_app (setAbortRef v) c)) with (tasks c).
    destruct (tasks c !! k) as [[file | file rawText | cb rawText i | bookData] |];
      [destruct r; try done; simpl; f_equal .. | done].
    + destruct (parseDocx read); [done | apply (catch_setAbortRef _ v (take_task k c))].
    + unfold handleFileUpload_planned, processChapters.
      destruct (generateBookStructure response) as [structure |];
        [| apply (catch_setAbortRef _ v (take_task k c))].
      destruct (materialize structure) as [[| [first |] rest] |];
        try apply (catch_setAbortRef _ v (take_task k c)); try done;
        by rewrite <- processChapters_loop_setAbortRef.
    + unfold processChapters_settled.
      destruct (catch_raises cb i (generateChapterContent response)); [done |].
      rewrite <- processChapters_loop_setAbortRef.
      by destruct (generateChapterContent response).
    + by destruct (generateBookCover response).
Qed.

(** C3 as stated fails. With the abort ref set while chapter 0 is being
    written, the answer to its call makes the loop mark chapter 1
    [generating] and call the writer for it. *)
Lemma abort_is_ignored :
  abortRef (app Sample.aborted) = true ∧
  tasks Sample.aborted !! 1 = Some (AwaitChapter Sample.plan Sample.raw 0) ∧
  ∃ c', step (Settle 1 (ChapterSettled (Resolved (Some "Chapter one"%string))))
             Sample.aborted = Some c' ∧
        abortRef (app c') = true ∧
        AwaitChapter Sample.plan Sample.raw 1 ∈ tasks c' ∧
        ∃ ch, chapter_at c' 1 = Some ch ∧ Chapter.status ch = generating.
Proof.
  split; [reflexivity |]. split; [reflexivity |].
  eexists. split; [vm_compute; reflexivity |]. split; [reflexivity |]. split.
  - simpl. rewrite !elem_of_cons. right. by left.
  - eexists. split; reflexivity.
Qed.

(** C3, as the code has it. The writing loop has no cancellation point:
    no handler reads the abort ref and none assigns it. Every event
    does to a configuration with the ref set to any value exactly what
    it does otherwise, so each chapter is started whatever the ref
    holds. *)
Theorem abort_ref_never_consulted e v c :
  step e (on_app (setAbortRef v) c) = on_app (setAbortRef v) <$> step e c.
Proof.
  unfold step. simpl. rewrite rendered_setAbortRef.
  destruct (rendered e (app c)); [apply fire_setAbortRef | done].
Qed.

(** ** Planning *)

Lemma materialize_array v xs :
  v ≠ JNull → js_or (own_prop v "chapters"%string) (JArr []) = JArr xs →
  materialize v = Resolved (imap (λ idx ch, Some (chapter_of idx ch)) xs).
Proof. intros Hv Hxs. unfold materialize. rewrite Hxs. by destruct v. Qed.

(** C5 as stated fails. An empty document is returned by the planner
    and accepted with the default metadata and no chapter; a document
    without author, summary and language, and with a chapter without
    id, title and description, is accepted as well. *)
Lemma incomplete_plan_is_accepted :
  generateBookStructure (Resolved (Json (JObj []))) = Resolved (JObj []) ∧
  (∃ c b, exec (Sample.to_planning ++
                [Settle 0 (StructureSettled (Resolved (Json (JObj []))))]) initialConfig
            = Some c ∧
          loadingState (app c) = SUCCESS ∧ errorMsg (app c) = None ∧
          book (app c) = Some b ∧
          Book.metadata b = DEFAULT_METADATA ∧ Book.chapters b = []) ∧
  (∃ c b ch, exec (Sample.to_planning ++
                   [Settle 0 (StructureSettled (Resolved (Json Sample.bare_outline)))])
                  initialConfig = Some c ∧
             loadingState (app c) = WRITING ∧ errorMsg (app c) = None ∧
             book (app c) = Some b ∧
             Book.metadata b = JObj [("title"%string, JStr "Untitled"%string)] ∧
             Book.chapters b = [Some ch] ∧
             Chapter.id ch = None ∧ Chapter.title ch = None ∧
             Chapter.description ch = None ∧ Chapter.status ch = generating).
Proof.
  split; [reflexivity |]. split.
  - do 2 eexists. split; [vm_compute; reflexivity |]. by split_and!.
  - do 3 eexists. split; [vm_compute; reflexivity |]. by split_and!.
Qed.

(** C5, as the code has it. The schema goes out with the request and
    is not checked on the way back: the planner returns every parsed
    document as it is, and the planning stage fails exactly when there
    is no parsed document, the document is null, or its [chapters]
    member is truthy and no array. Every other document is accepted:
    the run goes on to writing, with the document's [metadata] or,
    when that is missing, the default metadata, and with one chapter
    per element of [chapters] (none when it is missing), each with
    whatever [id], [title] and [description] the element has. *)
Theorem plan_is_taken_as_parsed c k file rawText v xs :
  reachable c → tasks c !! k = Some (AwaitStructure file rawText) →
  v ≠ JNull → js_or (own_prop v "chapters"%string) (JArr []) = JArr xs →
  generateBookStructure (Resolved (Json v)) = Resolved v ∧
  (∀ response, (∃ err, planning response = Rejected err) ↔
     ¬ ∃ v' xs', response = Resolved (Json v') ∧ v' ≠ JNull ∧
                 js_or (own_prop v' "chapters"%string) (JArr []) = JArr xs') ∧
  ∃ c' b, step (Settle k (StructureSettled (Resolved (Json v)))) c = Some c' ∧
          loadingState (app c') = match xs with [] => SUCCESS | _ => WRITING end ∧
          book (app c') = Some b ∧
          Book.metadata b = js_or (own_prop v "metadata"%string) DEFAULT_METADATA ∧
          length (Book.chapters b) = length xs ∧
          ∀ j x, xs !! j = Some x →
            ∃ ch, js_get (Book.chapters b) j = Some ch ∧
                  Chapter.id ch = own_prop x "id"%string ∧
                  Chapter.title ch = own_prop x "title"%string ∧
                  Chapter.description ch = own_prop x "description"%string.
Proof.
  intros Hc Hk Hv Hxs. split; [reflexivity |]. split.
  { intros response. split.
    - intros [err Herr] (v' & xs' & -> & Hv' & Hxs'). unfold planning in Herr. simpl in Herr.
      by rewrite (materialize_array _ _ Hv' Hxs') in Herr.
    - intros Hno. unfold planning.
      destruct response as [[| | v'] | err]; simpl; eauto.
      destruct (materialize v') as [chs | err] eqn:Hm; [| by eauto].
      exfalso. apply Hno. unfold materialize in Hm.
      destruct (js_or (own_prop v' "chapters"%string) (JArr [])) as [| | | | xs' |] eqn:Hxs';
        try (by destruct v').
      exists v', xs'. split_and!; try done. by intros ->. }
  pose proof (reachable_Inv _ Hc) as HI.
  destruct (Inv_structure_task _ _ _ _ HI Hk) as (-> & Ht & Hls).
  pose proof (materialize_array _ _ Hv Hxs) as Hm.
  destruct (planned_loop_ready file rawText v _ c Hls HI Ht Hm) as (c0 & Heq & Hw & _ & Hready).
  set (newBook := Book.mk (js_or (own_prop v "metadata"%string) DEFAULT_METADATA)
                    (imap (λ idx ch, Some (chapter_of idx ch)) xs) None (Some rawText)) in *.
  destruct (loop_ready_spec _ _ _ Hready) as (_ & b & Hb & Hspec).
  exists (handleFileUpload_planned file rawText (Resolved v) (take_task 0 c)), b.
  split; [unfold step; simpl; by rewrite Hk |].
  rewrite Hw in Heq, Hb, Hspec.
  change (length (@nil (outcome string))) with 0 in Heq, Hb, Hspec.
  simpl in Hspec. rewrite length_imap in Hspec. rewrite Heq.
  assert (∃ active,
            loadingState (app (processChapters_loop newBook rawText 0 c0))
              = match xs with [] => SUCCESS | _ => WRITING end ∧
            follows newBook b [] active) as (active & Hstage & Hf).
  { case_decide as Hlt.
    - destruct Hspec as (? & _ & _ & ?). exists true. by destruct xs; [simpl in Hlt; lia |].
    - destruct Hspec as (? & _ & _ & ?). exists false. by destruct xs; [| simpl in Hlt; lia]. }
  split_and!; try done.
  - by destruct Hf as (? & _).
  - rewrite (follows_length _ _ _ _ Hf). simpl. by rewrite length_imap.
  - intros j x Hx.
    destruct (follows_lookup _ _ _ _ j Hf) as (p & ch & Hp & Hch & _ & Hsame & _).
    { simpl. rewrite length_imap. by eapply lookup_lt_Some. }
    simpl in Hp. rewrite list_lookup_imap, Hx in Hp. simpl in Hp.
    injection Hp as <-. exists ch. destruct Hsame as (? & ? & ? & _).
    split_and!; try done. by apply js_get_lookup.
Qed.

Lemma plan_is_taken_as_parsed_witness :
  reachable Sample.at_planning ∧
  tasks Sample.at_planning !! 0 = Some (AwaitStructure Sample.manuscript Sample.raw) ∧
  Sample.bare_outline ≠ JNull ∧
  js_or (own_prop Sample.bare_outline "chapters"%string) (JArr []) = JArr [JObj []] ∧
  generateBookStructure (Resolved (Json Sample.bare_outline)) = Resolved Sample.bare_outline ∧
  (∀ response, (∃ err, planning response = Rejected err) ↔
     ¬ ∃ v' xs', response = Resolved (Json v') ∧ v' ≠ JNull ∧
                 js_or (own_prop v' "chapters"%string) (JArr []) = JArr xs') ∧
  ∃ c' b, step (Settle 0 (StructureSettled (Resolved (Json Sample.bare_outline))))
               Sample.at_planning = Some c' ∧
          loadingState (app c') = WRITING ∧
          book (app c') = Some b ∧
          Book.metadata b = js_or (own_prop Sample.bare_outline "metadata"%string) DEFAULT_METADATA ∧
          length (Book.chapters b) = length [JObj []] ∧
          ∀ j x, [JObj []] !! j = Some x →
            ∃ ch, js_get (Book.chapters b) j = Some ch ∧
                  Chapter.id ch = own_prop x "id"%string ∧
                  Chapter.title ch = own_prop x "title"%string ∧
                  Chapter.description ch = own_prop x "description"%string.
Proof.
  assert (reachable Sample.at_planning) as Hreach
    by (apply (exec_reachable Sample.to_planning initialConfig);
        [apply reachable_init | reflexivity]).
  split; [exact Hreach |]. split; [reflexivity |]. split; [discriminate |].
  split; [reflexivity |].
  apply (plan_is_taken_as_parsed Sample.at_planning 0 Sample.manuscript Sample.raw
           Sample.bare_outline [JObj []]);
    [exact Hreach | reflexivity | discriminate | reflexivity].
Defined.

(** ** The life of a chapter *)

Lemma written_as_inj r ch ch' :
  written_as r ch → written_as r ch' → Chapter.status ch = Chapter.status ch'.
Proof. destruct r; intros [-> _] [-> _]; done. Qed.

(** From one return to the next a chapter keeps its status or makes
    one move. *)
Lemma chapter_state_step rs r active' j ch ch' :
  chapter_state rs true j ch → chapter_state (rs ++ [r]) active' j ch' →
  status_step (Chapter.status ch) (Chapter.status ch').
Proof.
  intros H H'.
  destruct (chapter_state_cases _ _ _ _ H) as
    [(r0 & Hr0 & Hw) | [(Hj & _ & Hs & _) | (Hj & Hne & Hs & _)]];
  destruct (chapter_state_cases _ _ _ _ H') as
    [(r1 & Hr1 & Hw') | [(Hj' & _ & Hs' & _) | (Hj' & _ & Hs' & _)]];
  rewrite ?length_app in *; simpl in *.
  - rewrite lookup_app_l in Hr1 by (by eapply lookup_lt_Some). simplify_eq.
    rewrite (written_as_inj _ _ _ Hw Hw'). constructor.
  - apply lookup_lt_Some in Hr0. lia.
  - apply lookup_lt_Some in Hr0. lia.
  - subst j. rewrite list_lookup_middle in Hr1 by done. simplify_eq.
    rewrite Hs. destruct r1; destruct Hw' as [-> _]; constructor.
  - lia.
  - lia.
  - apply lookup_lt_Some in Hr1. rewrite length_app in Hr1. simpl in Hr1.
    assert (j = length rs) as Hj0 by lia. by specialize (Hne Hj0).
  - rewrite Hs, Hs'. constructor.
  - rewrite Hs, Hs'. constructor.
Qed.

Lemma chapter_at_cover_settled r c k j :
  chapter_at (generateCover_settled r (take_task k c)) j = chapter_at c j.
Proof. unfold chapter_at. destruct r; simpl; [| done]. by destruct (book (app c)). Qed.

Lemma no_book_no_chapter c j : book (app c) = None → chapter_at c j = None.
Proof. unfold chapter_at. by intros ->. Qed.

(** C6 as stated fails. A call that returns no text leaves its chapter
    [completed] with empty content, and a call that returns the
    placeholder's text leaves it [completed] with the placeholder. *)
Lemma empty_chapter_is_completed :
  (∃ c ch, exec (Sample.to_writing ++ [Settle 1 (ChapterSettled (Resolved None))])
                initialConfig = Some c ∧
           chapter_at c 0 = Some ch ∧ Chapter.status ch = completed ∧
           Chapter.content ch = Some ""%string ∧ ¬ content_pairs_with_status ch) ∧
  (∃ c ch, exec (Sample.to_writing ++
                 [Settle 1 (ChapterSettled (Resolved (Some ERROR_PLACEHOLDER)))])
                initialConfig = Some c ∧
           chapter_at c 0 = Some ch ∧ Chapter.status ch = completed ∧
           Chapter.content ch = Some ERROR_PLACEHOLDER ∧ ¬ content_pairs_with_status ch).
Proof.
  split.
  - do 2 eexists. split; [vm_compute; reflexivity |]. split_and!; try reflexivity.
    intros [[_ H] _]. destruct H as (text & [= <-] & Hne); done.
  - do 2 eexists. split; [vm_compute; reflexivity |]. split_and!; try reflexivity.
    intros [_ [H _]]. by specialize (H eq_refl).
Qed.

(** C6, as the code has it. At every point of a run a chapter that is
    [pending] or [generating] has empty content, a chapter in [error]
    has the fixed placeholder and its call failed, and a [completed]
    chapter has exactly the text its call returned, which may be empty
    (or any text, the placeholder's included). From one event to the
    next every chapter of the book stays in the book and keeps its
    status or makes one of the moves pending to generating, generating
    to completed, generating to error. *)
Theorem chapter_status_moves_forward c e c' :
  reachable c → step e c = Some c' →
  (∀ j ch, chapter_at c j = Some ch →
     match Chapter.status ch with
     | pending | generating => Chapter.content ch = Some ""%string
     | error =>
         Chapter.content ch = Some ERROR_PLACEHOLDER ∧
         ∃ err, written c !! j = Some (Rejected err)
     | completed =>
         ∃ text, written c !! j = Some (Resolved text) ∧ Chapter.content ch = Some text
     end) ∧
  (∀ j ch, chapter_at c j = Some ch →
     ∃ ch', chapter_at c' j = Some ch' ∧
            status_step (Chapter.status ch) (Chapter.status ch')).
Proof.
  intros Hc Hstep. pose proof (reachable_Inv _ Hc) as HI. split.
  - intros j ch Hch. unfold chapter_at in Hch.
    destruct (book (app c)) as [b |] eqn:Hb; [| done]. simpl in Hch.
    destruct (book_chapter _ _ _ _ HI Hb Hch) as (cb & active & _ & Hst & _).
    destruct (chapter_state_cases _ _ _ _ Hst) as
      [(r & Hr & Hw) | [(_ & _ & Hs & Hcont) | (_ & _ & Hs & Hcont)]];
      [| by rewrite Hs ..].
    destruct r as [text | err]; destruct Hw as [-> Hcont]; eauto.
  - intros j ch Hch.
    assert (∀ c1, (∀ j, chapter_at c1 j = chapter_at c j) →
              ∃ ch', chapter_at c1 j = Some ch' ∧
                     status_step (Chapter.status ch) (Chapter.status ch')) as Hsame.
    { intros c1 Heq. exists ch. rewrite Heq. split; [done | constructor]. }
    assert (book (app c) ≠ None) as Hbook by (intros Hb; by rewrite no_book_no_chapter in Hch).
    unfold step in Hstep. destruct (rendered e (app c)) eqn:Hr; [| done].
    destruct e as [files | files | | | id | k r]; simpl in Hr; unfold fire in Hstep.
    + apply bool_decide_eq_true in Hr. unfold Inv in HI. rewrite Hr in HI.
      by destruct HI as (_ & ? & _).
    + apply bool_decide_eq_true in Hr. unfold Inv in HI. rewrite Hr in HI.
      by destruct HI as (_ & ? & _).
    + apply bool_decide_eq_true in Hr. unfold Inv in HI. rewrite Hr in HI.
      by destruct HI as (_ & ? & _).
    + destruct (book (app c)) as [b |]; [| done]. injection Hstep as <-.
      by apply Hsame.
    + injection Hstep as <-. by apply Hsame.
    + destruct (tasks c !! k) as [[file | file rawText | cb rawText i | bookData] |] eqn:Hk;
        [destruct r; try done; injection Hstep as <- .. | done].
      * destruct (Inv_parse_task _ _ _ HI Hk) as (_ & _ & Hls).
        unfold Inv in HI. rewrite Hls in HI. by destruct HI as (? & _).
      * destruct (Inv_structure_task _ _ _ _ HI Hk) as (_ & _ & Hls).
        unfold Inv in HI. rewrite Hls in HI. by destruct HI as (? & _).
      * destruct (catch_raises cb i (generateChapterContent response)) eqn:Hlog;
          [unfold processChapters_settled; rewrite Hlog; by apply Hsame |].
        destruct (chapter_settle_spec c k cb rawText i response HI Hk Hlog) as
          (c' & Hstep' & Hw & b' & Hb' & Hspec).
        unfold step in Hstep'. simpl in Hstep'. rewrite Hk in Hstep'.
        injection Hstep' as ->.
        destruct (Inv_chapter_task _ _ _ _ _ HI Hk) as (_ & _ & _ & _ & _ & _ & b & Hb & Hf).
        unfold chapter_at in Hch |- *. rewrite Hb in Hch. rewrite Hb'. simpl in *.
        apply js_get_Some in Hch. pose proof (lookup_lt_Some _ _ _ Hch) as Hj.
        rewrite (follows_length _ _ _ _ Hf) in Hj.
        destruct (follows_lookup _ _ _ _ j Hf Hj) as (_ & ch0 & _ & Hch0 & _ & _ & Hst).
        simplify_eq.
        assert (∃ active', follows cb b' (written c') active') as [active' Hf']
          by (case_decide; destruct Hspec as (_ & _ & _ & ?); eauto).
        destruct (follows_lookup _ _ _ _ j Hf' Hj) as (_ & ch' & _ & Hch' & _ & _ & Hst').
        exists ch'. split; [by apply js_get_lookup |].
        rewrite Hw in Hst'. by eapply chapter_state_step.
      * apply Hsame. intros j'. apply chapter_at_cover_settled.
Qed.

Lemma chapter_status_moves_forward_witness :
  reachable Sample.at_writing ∧
  step (Settle 1 (ChapterSettled (Resolved None))) Sample.at_writing = Some Sample.first_written ∧
  (∀ j ch, chapter_at Sample.at_writing j = Some ch →
     match Chapter.status ch with
     | pending | generating => Chapter.content ch = Some ""%string
     | error =>
         Chapter.content ch = Some ERROR_PLACEHOLDER ∧
         ∃ err, written Sample.at_writing !! j = Some (Rejected err)
     | completed =>
         ∃ text, written Sample.at_writing !! j = Some (Resolved text) ∧
                 Chapter.content ch = Some text
     end) ∧
  (∀ j ch, chapter_at Sample.at_writing j = Some ch →
     ∃ ch', chapter_at Sample.first_written j = Some ch' ∧
            status_step (Chapter.status ch) (Chapter.status ch')).
Proof.
  assert (reachable Sample.at_writing) as Hreach
    by (apply (exec_reachable Sample.to_writing initialConfig);
        [apply reachable_init | reflexivity]).
  split; [exact Hreach |]. split; [reflexivity |].
  apply (chapter_status_moves_forward Sample.at_writing
           (Settle 1 (ChapterSettled (Resolved None))) Sample.first_written);
    [exact Hreach | reflexivity].
Defined.

(** ** Failures of the upload pipeline *)

(** A failing extraction or planning call leaves [handleFileUpload]
    through its [catch], in a configuration where it was the only
    pending call. *)
Lemma run_fails_step c k t r err :
  Inv c → tasks c !! k = Some t → run_fails t r err →
  step (Settle k r) c = Some (handleFileUpload_catch err (take_task k c)) ∧
  tasks c = [t] ∧ k = 0 ∧ book (app c) = None ∧ chapter_requests c = [] ∧ written c = [] ∧
  steps (app c) = with_statuses
    match t with
    | AwaitParse _ => [step_processing; step_pending; step_pending; step_pending]
    | _ => [step_completed; step_processing; step_processing; step_pending]
    end.
Proof.
  intros HI Hk Hfail. destruct Hfail as [file read err Hp | file rawText response err Hp].
  - destruct (Inv_parse_task _ _ _ HI Hk) as (-> & Ht & Hls).
    unfold Inv in HI. rewrite Hls in HI. destruct HI as (Hb & _ & Hr & Hw & Hs & _).
    split_and!; try done. unfold step. simpl. by rewrite Hk, Hp.
  - destruct (Inv_structure_task _ _ _ _ HI Hk) as (-> & Ht & Hls).
    unfold Inv in HI. rewrite Hls in HI. destruct HI as (Hb & _ & Hr & Hw & Hs & _).
    split_and!; try done. unfold step. simpl. rewrite Hk. f_equal.
    unfold planning in Hp. unfold handleFileUpload_planned.
    destruct (generateBookStructure response) as [structure | err']; [| by simplify_eq].
    by rewrite Hp.
Qed.

(** C7, as the code has it. When text extraction or structure planning
    fails, the stage becomes ERROR, the Book is null, and nothing is
    pending afterwards: no call to the chapter writer has been made and
    none is in flight. What the operator is shown is the message of the
    failure when it has one that is not empty, and the fixed text when
    it has none or an empty one. *)
Theorem upload_failure_is_fatal c k t r err :
  reachable c → tasks c !! k = Some t → run_fails t r err →
  ∃ c', step (Settle k r) c = Some c' ∧
        loadingState (app c') = ERROR ∧
        (∀ m, message err = Resolved m → errorMsg (app c') = Some (surfaced m)) ∧
        (∀ m, message err = Resolved (Some m) → m ≠ Text ""%string →
              cause_surfaced err (app c')) ∧
        (message err = Resolved None ∨ message err = Resolved (Some (Text ""%string)) →
         errorMsg (app c') = Some (Text UNEXPECTED)) ∧
        book (app c') = None ∧
        tasks c' = [] ∧ chapter_requests c' = [] ∧ written c' = [].
Proof.
  intros Hc Hk Hfail. apply reachable_Inv in Hc.
  destruct (run_fails_step _ _ _ _ _ Hc Hk Hfail) as (Hstep & Ht & -> & Hb & Hr & Hw & _).
  eexists. split; [exact Hstep |].
  assert (∀ m, message err = Resolved m →
               errorMsg (app (handleFileUpload_catch err (take_task 0 c))) =
                 Some (surfaced m)) as Hshown
    by (intros m Hm; unfold handleFileUpload_catch; by rewrite Hm).
  destruct (catch_frame err (take_task 0 c)) as (Hb' & Ht' & Hr' & Hw' & _).
  split_and!; try done.
  - unfold handleFileUpload_catch. by destruct (message err).
  - intros m Hm Hne. exists m. split; [done |]. rewrite (Hshown _ Hm).
    destruct m as [s | |]; try done. simpl.
    destruct (String.eqb_spec s ""); [by subst | done].
  - intros [Hm | Hm]; by rewrite (Hshown _ Hm).
  - by rewrite Hb'.
  - rewrite Ht'. simpl. by rewrite Ht.
  - unfold chapter_requests in *. by rewrite Hr'.
  - by rewrite Hw'.
Qed.

Lemma upload_failure_is_fatal_witness :
  reachable Sample.at_parsing ∧
  tasks Sample.at_parsing !! 0 = Some (AwaitParse Sample.manuscript) ∧
  run_fails (AwaitParse Sample.manuscript) (ParseSettled (Loaded None))
            (Thrown (Some "Mammoth.js library not loaded"%string)) ∧
  ∃ c', step (Settle 0 (ParseSettled (Loaded None))) Sample.at_parsing = Some c' ∧
        loadingState (app c') = ERROR ∧
        (∀ m, message (Thrown (Some "Mammoth.js library not loaded"%string)) = Resolved m →
              errorMsg (app c') = Some (surfaced m)) ∧
        (∀ m, message (Thrown (Some "Mammoth.js library not loaded"%string)) =
                Resolved (Some m) →
              m ≠ Text ""%string →
              cause_surfaced (Thrown (Some "Mammoth.js library not loaded"%string)) (app c')) ∧
        (message (Thrown (Some "Mammoth.js library not loaded"%string)) = Resolved None ∨
         message (Thrown (Some "Mammoth.js library not loaded"%string)) =
           Resolved (Some (Text ""%string)) →
         errorMsg (app c') = Some (Text UNEXPECTED)) ∧
        book (app c') = None ∧
        tasks c' = [] ∧ chapter_requests c' = [] ∧ written c' = [].
Proof.
  assert (reachable Sample.at_parsing) as Hreach
    by (apply (exec_reachable [Drop [Sample.manuscript]] initialConfig);
        [apply reachable_init | reflexivity]).
  assert (run_fails (AwaitParse Sample.manuscript) (ParseSettled (Loaded None))
            (Thrown (Some "Mammoth.js library not loaded"%string)))
    as Hfail by (constructor; reflexivity).
  split; [exact Hreach |]. split; [reflexivity |]. split; [exact Hfail |].
  apply (upload_failure_is_fatal Sample.at_parsing 0 (AwaitParse Sample.manuscript)
           (ParseSettled (Loaded None))
           (Thrown (Some "Mammoth.js library not loaded"%string)));
    [exact Hreach | reflexivity | exact Hfail].
Defined.

(** C7 as stated fails. When the file reader fails, the promise is
    rejected with the reader's event, which has no message: the
    operator is shown the fixed text and nothing of the failure. An
    extraction that fails with an empty message ends in the very same
    configuration, so the two causes cannot be told apart. *)
Lemma cause_is_not_always_surfaced :
  run_fails (AwaitParse Sample.manuscript) (ParseSettled ReaderError) (Thrown None) ∧
  ∃ c', step (Settle 0 (ParseSettled ReaderError)) Sample.at_parsing = Some c' ∧
        loadingState (app c') = ERROR ∧
        errorMsg (app c') = Some (Text UNEXPECTED) ∧
        ¬ cause_surfaced (Thrown None) (app c') ∧
        step (Settle 0 (ParseSettled (Loaded (Some (Rejected (Thrown (Some ""%string)))))))
             Sample.at_parsing = Some c'.
Proof.
  split; [constructor; reflexivity |].
  eexists. split; [vm_compute; reflexivity |]. split_and!; try reflexivity.
  intros (m & Hm & _). discriminate.
Qed.

(** What the [catch] does to the steps when the message of the failure
    can be read: step 0 ("Reading manuscript") is marked [error] and no
    other step is touched, so after a failed extraction steps 1 to 3
    are still [pending], and after a failed planning steps 1 and 2 are
    left [processing], step 3 [pending], and no step of the planning
    stage is marked [error]. *)
Theorem failure_marks_first_step c k t r err m :
  reachable c → tasks c !! k = Some t → run_fails t r err → message err = Resolved m →
  ∃ c', step (Settle k r) c = Some c' ∧
        steps (app c') = with_statuses (failed_steps t) ∧
        (ProcessingStep.label <$> steps (app c')) !! 0 = Some "Reading manuscript"%string.
Proof.
  intros Hc Hk Hfail Hm. apply reachable_Inv in Hc.
  destruct (run_fails_step _ _ _ _ _ Hc Hk Hfail) as (Hstep & _ & _ & _ & _ & _ & Hs).
  eexists. split; [exact Hstep |]. unfold handleFileUpload_catch. rewrite Hm.
  simpl. rewrite Hs. by destruct Hfail.
Qed.

Lemma failure_marks_first_step_witness :
  reachable Sample.at_planning ∧
  tasks Sample.at_planning !! 0 = Some (AwaitStructure Sample.manuscript Sample.raw) ∧
  run_fails (AwaitStructure Sample.manuscript Sample.raw)
            (StructureSettled (Resolved Malformed)) SyntaxError ∧
  message SyntaxError = Resolved (Some SyntaxErrorText) ∧
  ∃ c', step (Settle 0 (StructureSettled (Resolved Malformed))) Sample.at_planning = Some c' ∧
        steps (app c') =
          with_statuses (failed_steps (AwaitStructure Sample.manuscript Sample.raw)) ∧
        (ProcessingStep.label <$> steps (app c')) !! 0 = Some "Reading manuscript"%string.
Proof.
  assert (reachable Sample.at_planning) as Hreach
    by (apply (exec_reachable Sample.to_planning initialConfig);
        [apply reachable_init | reflexivity]).
  assert (run_fails (AwaitStructure Sample.manuscript Sample.raw)
            (StructureSettled (Resolved Malformed)) SyntaxError)
    as Hfail by (constructor; reflexivity).
  split; [exact Hreach |]. split; [reflexivity |]. split; [exact Hfail |].
  split; [reflexivity |].
  apply (failure_marks_first_step Sample.at_planning 0
           (AwaitStructure Sample.manuscript Sample.raw)
           (StructureSettled (Resolved Malformed)) SyntaxError (Some SyntaxErrorText));
    [exact Hreach | reflexivity | exact Hfail | reflexivity].
Defined.

(** C9 at a failing input. The planning call is rejected with
    undefined: the [catch] sets the stage to ERROR, reading
    [err.message] raises, and the statement that marks step 0 is never
    reached. Step 0 stays [completed], no step is marked [error], and
    no message is set. The same happens to a failed extraction, where
    step 0 stays [processing]. *)
Lemma unreadable_failure_leaves_step_0 :
  run_fails (AwaitStructure Sample.manuscript Sample.raw)
            (StructureSettled (Rejected Nullish)) Nullish ∧
  (∃ c', step (Settle 0 (StructureSettled (Rejected Nullish))) Sample.at_planning = Some c' ∧
         loadingState (app c') = ERROR ∧ errorMsg (app c') = None ∧
         ProcessingStep.status <$> steps (app c') =
           [step_completed; step_processing; step_processing; step_pending]) ∧
  run_fails (AwaitParse Sample.manuscript)
            (ParseSettled (Loaded (Some (Rejected Nullish)))) Nullish ∧
  (∃ c', step (Settle 0 (ParseSettled (Loaded (Some (Rejected Nullish))))) Sample.at_parsing
           = Some c' ∧
         loadingState (app c') = ERROR ∧ errorMsg (app c') = None ∧
         ProcessingStep.status <$> steps (app c') =
           [step_processing; step_pending; step_pending; step_pending]).
Proof.
  split; [constructor; reflexivity |].
  split; [eexists; split; [vm_compute; reflexivity | by split_and!] |].
  split; [constructor; reflexivity |].
  eexists. split; [vm_compute; reflexivity | by split_and!].
Qed.

(** ** The upload area *)

(** C10. Only the drop handler looks at the file type: a dropped file
    whose type is not the .docx type is answered with an alert and
    [handleFileUpload] is not called, the configuration stays as it
    is; a file picked through the file input is handed to
    [handleFileUpload] whatever its type. *)
Theorem type_is_checked_on_drop_only file rest c :
  File.type file ≠ DOCX_TYPE → loadingState (app c) = IDLE →
  (∀ disabled file', handleDrop disabled (file :: rest) ≠ OnFileSelect file') ∧
  handleChange false (file :: rest) = OnFileSelect file ∧
  step (Drop (file :: rest)) c = Some c ∧
  step (Change (file :: rest)) c = Some (handleFileUpload file c) ∧
  ∀ docx, File.type docx = DOCX_TYPE →
    handleDrop false (docx :: rest) = OnFileSelect docx ∧
    handleChange false (docx :: rest) = OnFileSelect docx.
Proof.
  intros Htype Hls.
  assert (String.eqb (File.type file) DOCX_TYPE = false) as Heqb
    by (by apply String.eqb_neq).
  split_and!.
  - intros [|] file'; unfold handleDrop; [done |]. by rewrite Heqb.
  - done.
  - unfold step. simpl. rewrite Hls. simpl. by rewrite Heqb.
  - unfold step. simpl. by rewrite Hls.
  - intros docx Hdocx. unfold handleDrop, handleChange. rewrite Hdocx.
    by rewrite String.eqb_refl.
Qed.

Lemma type_is_checked_on_drop_only_witness :
  File.type Sample.notes ≠ DOCX_TYPE ∧ loadingState (app initialConfig) = IDLE ∧
  (∀ disabled file', handleDrop disabled [Sample.notes] ≠ OnFileSelect file') ∧
  handleChange false [Sample.notes] = OnFileSelect Sample.notes ∧
  step (Drop [Sample.notes]) initialConfig = Some initialConfig ∧
  step (Change [Sample.notes]) initialConfig =
    Some (handleFileUpload Sample.notes initialConfig) ∧
  ∀ docx, File.type docx = DOCX_TYPE →
    handleDrop false [docx] = OnFileSelect docx ∧
    handleChange false [docx] = OnFileSelect docx.
Proof.
  split; [discriminate |]. split; [reflexivity |].
  apply (type_is_checked_on_drop_only Sample.notes [] initialConfig);
    [discriminate | reflexivity].
Defined.

(** ** Strings *)

Lemma substring_0_length n s :
  String.length (String.substring 0 n s) = Nat.min n (String.length s).
Proof.
  revert n. induction s as [| a s IH]; intros [| n]; simpl; try done.
  by rewrite IH.
Qed.

Lemma substring_0_prefix n s : String.prefix (String.substring 0 n s) s = true.
Proof.
  revert n. induction s as [| a s IH]; intros [| n]; simpl; try done.
  destruct (Ascii.ascii_dec a a); [apply IH | done].
Qed.

Lemma substring_0_all n s :
  (String.length s ≤ n)%nat → String.substring 0 n s = s.
Proof.
  revert n. induction s as [| a s IH]; intros [| n] Hn; simpl in *; try done; try lia.
  f_equal. apply IH. lia.
Qed.

Lemma prefix_drop pat s :
  String.prefix pat s = true → (pat ++ string_drop (String.length pat) s)%string = s.
Proof.
  revert s. induction pat as [| a pat IH]; intros [| b s] Hp; simpl in *; try done.
  destruct (Ascii.ascii_dec a b) as [-> |]; [| done].
  change (String b (pat +:+ string_drop (String.length pat) s) = String b s).
  f_equal. by apply IH.
Qed.

Lemma replace_first_prefix pat s :
  String.prefix pat s = true → replace_first pat s = string_drop (String.length pat) s.
Proof. intros Hp. destruct s; cbn [replace_first]; by rewrite Hp. Qed.

Lemma substring_1_drop s :
  s ≠ EmptyString →
  (String.substring 0 1 s ++ string_drop 1 s)%string = s ∧
  String.length (String.substring 0 1 s) = 1.
Proof. by destruct s as [| a [| b s]]. Qed.

Lemma trim_start_blank s : trim_start s = EmptyString ↔ blank s.
Proof.
  unfold blank. induction s as [| a s IH]; simpl; [by split |].
  destruct (is_space a) eqn:Ha.
  - rewrite IH. split; [by constructor | by inversion 1].
  - split; [done | inversion 1; congruence].
Qed.

Lemma trim_start_head s a t : trim_start s = String a t → is_space a = false.
Proof.
  induction s as [| b s IH]; simpl; [done |].
  destruct (is_space b) eqn:Hb; [done | by intros [= <- _]].
Qed.

Lemma string_rev_empty s : string_rev s = EmptyString → s = EmptyString.
Proof.
  unfold string_rev. destruct s as [| a s]; [done |]. simpl.
  destruct (rev (String.list_ascii_of_string s)); done.
Qed.

Lemma blank_rev s : blank (string_rev s) ↔ blank s.
Proof.
  unfold blank, string_rev. rewrite String.list_ascii_of_string_of_list_ascii.
  split; intros H; [| by apply List.Forall_rev].
  rewrite <- (rev_involutive (String.list_ascii_of_string s)). by apply List.Forall_rev.
Qed.

(** [trim] leaves nothing of a line exactly when the line is blank. *)
Lemma trim_blank s : trim s = EmptyString ↔ blank s.
Proof.
  unfold trim, trim_end. split.
  - intros H. apply string_rev_empty in H. apply (proj1 (trim_start_blank _)) in H.
    apply (proj1 (blank_rev _)) in H.
    destruct (trim_start s) as [| a t] eqn:Ht; [by apply trim_start_blank |].
    apply trim_start_head in Ht. unfold blank in H. simpl in H. inversion H. congruence.
  - intros H. apply trim_start_blank in H. by rewrite H.
Qed.

Lemma split_lines_cons s : ∃ l ls, split_lines s = l :: ls.
Proof.
  induction s as [| a s (l & ls & IH)]; simpl; [by eauto |].
  destruct (Ascii.eqb a "010"); [by eauto |]. rewrite IH. by eauto.
Qed.

Lemma first_inline_found before p after data :
  Forall (λ q, inlineData q = None) before → inlineData p = Some data →
  first_inline (before ++ p :: after) = data.
Proof.
  intros Hb Hp. induction Hb as [| q before Hq _ IH]; simpl; [by rewrite Hp |].
  by rewrite Hq.
Qed.

Lemma first_inline_spec parts :
  (∃ before p after data, parts = before ++ p :: after ∧
     Forall (λ q, inlineData q = None) before ∧ inlineData p = Some data ∧
     first_inline parts = data) ∨
  (Forall (λ q, inlineData q = None) parts ∧ first_inline parts = EmptyString).
Proof.
  induction parts as [| q parts IH]; simpl; [by right |].
  destruct (inlineData q) as [data |] eqn:Hq.
  - left. by exists [], q, parts, data.
  - destruct IH as [(before & p & after & data & -> & Hb & Hp & Hd) | [Hall Hd]].
    + left. exists (q :: before), p, after, data. split_and!; try done. by constructor.
    + right. split; [by constructor | done].
Qed.

Lemma steps_updateStepStatus index status s k :
  steps (updateStepStatus index status s) !! k =
  (λ step, if decide (k = index)
           then ProcessingStep.mk (ProcessingStep.label step) status else step)
    <$> steps s !! k.
Proof. unfold updateStepStatus. simpl. apply list_lookup_imap. Qed.

Lemma AppState_eq s s' :
  loadingState s = loadingState s' → steps s = steps s' → book s = book s' →
  activeChapterId s = activeChapterId s' → isGeneratingCover s = isGeneratingCover s' →
  errorMsg s = errorMsg s' → abortRef s = abortRef s' → s = s'.
Proof. destruct s, s'; simpl; by intros -> -> -> -> -> -> ->. Qed.

Lemma prefix_cons a s b t :
  String.prefix (String a s) (String b t) =
  if Ascii.ascii_dec a b then String.prefix s t else false.
Proof. reflexivity. Qed.

(** After a marker of exactly two number signs comes no third. *)
Lemma prefix_two_not_three p :
  String.prefix "##" p = true → String.prefix "###" p = false →
  String.prefix "#" (string_drop 2 p) = false.
Proof.
  destruct p as [| a [| b [| c t]]]; try done.
  change (string_drop 2 (String a (String b (String c t)))) with (String c t).
  rewrite !prefix_cons.
  destruct (Ascii.ascii_dec "#" a), (Ascii.ascii_dec "#" b), (Ascii.ascii_dec "#" c); done.
Qed.

(** ** Progress steps *)

(** An index past the last step changes nothing: the map over the
    steps finds no step to replace. *)
Theorem updateStepStatus_out_of_range index status s :
  (length (steps s) ≤ index)%nat → updateStepStatus index status s = s.
Proof.
  intros Hlen. apply AppState_eq; try done.
  apply list_eq. intros k. rewrite steps_updateStepStatus.
  destruct (steps s !! k) as [step |] eqn:Hk; [| done]. simpl.
  apply lookup_lt_Some in Hk. by rewrite decide_False by lia.
Qed.

Lemma updateStepStatus_out_of_range_witness :
  (length (steps initialState) ≤ 4)%nat ∧
  updateStepStatus 4 step_error initialState = initialState.
Proof.
  split; [simpl; lia |].
  apply (updateStepStatus_out_of_range 4 step_error initialState). simpl. lia.
Defined.

(** Two updates in a row: on the same step the later one wins, on
    different steps their order does not matter; the labels and the
    number of steps never change. *)
Theorem updateStepStatus_compose i j a b s :
  updateStepStatus i a (updateStepStatus j b s) =
    (if decide (i = j) then updateStepStatus i a s
     else updateStepStatus j b (updateStepStatus i a s)) ∧
  ProcessingStep.label <$> steps (updateStepStatus i a s) = ProcessingStep.label <$> steps s.
Proof.
  split.
  - case_decide as Hij; apply AppState_eq; try done; apply list_eq; intros k;
      rewrite !steps_updateStepStatus; destruct (steps s !! k) as [step |]; simpl; try done;
      f_equal; repeat case_decide; simpl; congruence.
  - apply list_eq. intros k. rewrite !list_lookup_fmap, steps_updateStepStatus.
    destruct (steps s !! k) as [step |]; simpl; [| done]. by case_decide.
Qed.

(** ** The cover image *)

(** [generateBookCover] returns a URL exactly when the first candidate
    of the response has parts and the first part with inline data has
    data that is not empty; the URL is then that data behind the PNG
    data-URL prefix. Later candidates and later inline parts are never
    looked at. *)
Theorem generateBookCover_url r url :
  generateBookCover (Resolved r) = Resolved url ↔
  ∃ c rest before p after data,
    candidates r = Some (c :: rest) ∧
    candidate_content c = Some (Some (before ++ p :: after)) ∧
    Forall (λ q, inlineData q = None) before ∧
    inlineData p = Some data ∧ data ≠ ""%string ∧
    url = ("data:image/png;base64," ++ data)%string.
Proof.
  unfold generateBookCover. split.
  - destruct (candidates r) as [[| c rest] |] eqn:Hc; try done.
    destruct (candidate_content c) as [[parts |] |] eqn:Hp; try done.
    destruct (first_inline_spec parts) as
      [(before & p & after & data & -> & Hb & Hd & Hf) | [_ Hf]]; rewrite Hf; [| done].
    destruct (String.eqb_spec data ""); [done |]. intros [= <-].
    by exists c, rest, before, p, after, data.
  - intros (c & rest & before & p & after & data & -> & -> & Hb & Hd & Hne & ->).
    rewrite (first_inline_found _ _ _ _ Hb Hd).
    by destruct (String.eqb_spec data "").
Qed.

(** ** Finding a chapter by its id *)

(** [find] returns the first chapter whose id is that string: a later
    chapter with the same id is never returned. It returns nothing
    exactly when every slot holds a chapter with another id, and it
    raises exactly when an empty slot comes before any match. *)
Theorem find_by_id_first id chapters :
  (∀ ch, find_by_id id chapters = Resolved (Some ch) ↔
     ∃ j, chapters !! j = Some (Some ch) ∧ has_id id ch = true ∧
          ∀ i, i < j → ∃ c, chapters !! i = Some (Some c) ∧ has_id id c = false) ∧
  (find_by_id id chapters = Resolved None ↔
     Forall (λ o, ∃ c, o = Some c ∧ has_id id c = false) chapters) ∧
  (find_by_id id chapters = Rejected TypeError ↔
     ∃ j, chapters !! j = Some None ∧
          ∀ i, i < j → ∃ c, chapters !! i = Some (Some c) ∧ has_id id c = false).
Proof.
  induction chapters as [| [c |] chapters (IH1 & IH2 & IH3)]; simpl.
  - split_and!; [intros ch | ..]; (split; [done | try by intros (? & ? & _)]).
    by constructor.
  - destruct (has_id id c) eqn:Hc; split_and!.
    + intros ch. split.
      * intros [= <-]. exists 0. split_and!; try done. intros i Hi. lia.
      * intros ([| j] & Hj & Hid & Hbefore); [by simplify_eq/= |].
        destruct (Hbefore 0) as (c' & Hc' & Hne); [lia |]. simplify_eq/=. congruence.
    + split; [done |]. inversion 1 as [| ? ? (c' & ? & ?)]. simplify_eq. congruence.
    + split; [done |]. intros ([| j] & Hj & Hbefore); [done |].
      destruct (Hbefore 0) as (c' & Hc' & Hne); [lia |]. simplify_eq/=. congruence.
    + intros ch. rewrite IH1. split.
      * intros (j & Hj & Hid & Hbefore). exists (S j). split_and!; try done.
        intros [| i] Hi; [by eauto |]. apply Hbefore. lia.
      * intros ([| j] & Hj & Hid & Hbefore); [simplify_eq/=; congruence |].
        exists j. split_and!; try done. intros i Hi. apply (Hbefore (S i)). lia.
    + rewrite IH2. split; [intros; constructor; by eauto | by inversion 1].
    + rewrite IH3. split.
      * intros (j & Hj & Hbefore). exists (S j). split; [done |].
        intros [| i] Hi; [by eauto |]. apply Hbefore. lia.
      * intros ([| j] & Hj & Hbefore); [done |].
        exists j. split; [done |]. intros i Hi. apply (Hbefore (S i)). lia.
  - split_and!.
    + intros ch. split; [done |].
      intros ([| j] & Hj & Hid & Hbefore); [done |].
      destruct (Hbefore 0) as (c' & Hc' & _); [lia | done].
    + split; [done |]. inversion 1 as [| ? ? (c' & ? & ?)]. done.
    + split; [| done]. intros _. exists 0. split; [done |]. intros i Hi. lia.
Qed.

(** ** The preview of a chapter *)

(** Splitting the content into lines loses nothing: joining the lines
    with line feeds gives the content back, no line holds a line feed,
    and the preview shows one block per line, so at least one, also for
    an empty content. *)
Theorem split_lines_join content :
  join_lines (split_lines content) = content ∧
  Forall (λ l, "010"%char ∉ String.list_ascii_of_string l) (split_lines content) ∧
  length (BookPreview.prose content) = length (split_lines content) ∧
  (0 < length (BookPreview.prose content))%nat.
Proof.
  assert (join_lines (split_lines content) = content ∧
          Forall (λ l, "010"%char ∉ String.list_ascii_of_string l) (split_lines content))
    as [Hjoin Hall].
  { induction content as [| a s [IHj IHa]].
    - split; [done |]. constructor; [| done]. simpl. apply not_elem_of_nil.
    - destruct (split_lines_cons s) as (l & ls & Hs). cbn [split_lines].
      rewrite Hs in IHj, IHa |- *.
      destruct (Ascii.eqb_spec a "010") as [-> | Hne].
      + split; [| constructor; [simpl; apply not_elem_of_nil | done]].
        change (join_lines (EmptyString :: l :: ls))
          with (String "010" (join_lines (l :: ls))). by rewrite IHj.
      + apply Forall_cons in IHa as [Hl Hls]. split.
        * assert (join_lines (String a l :: ls) = String a (join_lines (l :: ls))) as ->
            by (by destruct ls).
          by rewrite IHj.
        * constructor; [| done]. simpl. rewrite elem_of_cons. intros [? | ?]; congruence. }
  split_and!; try done.
  - unfold BookPreview.prose. apply length_imap.
  - unfold BookPreview.prose. rewrite length_imap.
    destruct (split_lines_cons content) as (l & ls & ->). simpl. lia.
Qed.

(** What a line becomes: a line break exactly when the line is blank;
    otherwise its trimmed text is kept whole, as a heading without its
    marker (three number signs before two), as the drop-cap paragraph
    when it is the first line, or as an ordinary paragraph. *)
Theorem paragraph_keeps_text idx line :
  (BookPreview.paragraph idx line = BookPreview.Br ↔ blank line) ∧
  match BookPreview.paragraph idx line with
  | BookPreview.Br => trim line = ""%string
  | BookPreview.H3 text => trim line = ("###" ++ text)%string
  | BookPreview.H2 text =>
      trim line = ("##" ++ text)%string ∧ String.prefix "#" text = false
  | BookPreview.DropCap firstLetter rest =>
      idx = 0 ∧ String.length firstLetter = 1 ∧
      (firstLetter ++ rest)%string = trim line ∧ String.prefix "##" (trim line) = false
  | BookPreview.P text =>
      idx ≠ 0 ∧ text = trim line ∧ text ≠ ""%string ∧ String.prefix "##" text = false
  end.
Proof.
  unfold BookPreview.paragraph. rewrite <- trim_blank.
  destruct (String.eqb_spec (trim line) "") as [He | Hne]; [by rewrite He |].
  destruct (String.prefix "###" (trim line)) eqn:H3.
  { split; [by split |]. rewrite (replace_first_prefix _ _ H3).
    by rewrite <- (prefix_drop _ _ H3) at 1. }
  destruct (String.prefix "##" (trim line)) eqn:H2.
  { split; [by split |]. rewrite (replace_first_prefix _ _ H2).
    split; [by rewrite <- (prefix_drop _ _ H2) at 1 |].
    by apply prefix_two_not_three. }
  destruct (Nat.eqb_spec idx 0) as [-> | Hidx].
  - split; [by split |]. destruct (substring_1_drop _ Hne) as [Happ Hlen].
    by split_and!.
  - split; [by split |]. by split_and!.
Qed.

(** ** The steps of the application, case by case *)


(** Stage and error message after each handler. *)
Lemma loop_stage cb rawText i c :
  let c' := processChapters_loop cb rawText i c in
  errorMsg (app c') = errorMsg (app c) ∧
  (loadingState (app c') = loadingState (app c) ∨ loadingState (app c') = SUCCESS).
Proof. unfold processChapters_loop. repeat case_match; simpl; auto. Qed.

Lemma surfaced_not_empty m : surfaced m ≠ Text ""%string.
Proof.
  unfold surfaced. destruct m as [[m | |] |]; try done.
  by destruct (String.eqb_spec m "") as [-> | Hne]; [| intros [= ->]].
Qed.

Lemma catch_stage err c : loadingState (app (handleFileUpload_catch err c)) = ERROR.
Proof. unfold handleFileUpload_catch. by destruct (message err). Qed.

(** After the [catch]: a message with step 0 marked, or, when the
    message could not be read, neither. *)
Lemma catch_shown err c st rest :
  errorMsg (app c) = None → steps (app c) = st :: rest →
  ProcessingStep.status st ≠ step_error →
  error_shown (app (handleFileUpload_catch err c)).
Proof.
  intros He Hs Hst. unfold error_shown. rewrite catch_stage.
  unfold handleFileUpload_catch. destruct (message err) as [m | e]; simpl.
  - left. exists (surfaced m). rewrite Hs. split_and!; [done | apply surfaced_not_empty | done].
  - right. rewrite Hs. split; [done |]. simpl. by intros [= ?].
Qed.

Lemma parsed_stage file r c :
  let c' := handleFileUpload_parsed file r c in
  (∃ err, c' = handleFileUpload_catch err c) ∨
  (loadingState (app c') = PLANNING ∧ errorMsg (app c') = errorMsg (app c)).
Proof. destruct r; simpl; eauto. Qed.

Lemma planned_stage file rawText r c :
  let c' := handleFileUpload_planned file rawText r c in
  (∃ err, c' = handleFileUpload_catch err c) ∨
  ((loadingState (app c') = WRITING ∨ loadingState (app c') = SUCCESS) ∧
   errorMsg (app c') = errorMsg (app c)).
Proof.
  unfold handleFileUpload_planned, processChapters.
  destruct r as [structure | err]; [| left; simpl; eauto].
  destruct (materialize structure) as [chs | err]; [| left; simpl; eauto].
  right. destruct chs as [| [first |] rest]; simpl;
    try (match goal with
         | |- context [processChapters_loop ?cb ?raw ?i ?c0] =>
             destruct (loop_stage cb raw i c0) as [He [Hs | Hs]]; simpl in *;
             rewrite He, Hs; auto
         end); auto.
Qed.

Lemma settled_stage cb rawText i r c :
  let c' := processChapters_settled cb rawText i r c in
  errorMsg (app c') = errorMsg (app c) ∧
  (loadingState (app c') = loadingState (app c) ∨ loadingState (app c') = SUCCESS).
Proof.
  unfold processChapters_settled. destruct (catch_raises cb i r); [simpl; auto |].
  match goal with
  | |- context [processChapters_loop ?cb ?raw ?i ?c0] =>
      destruct (loop_stage cb raw i c0) as [He Hs]; simpl in *; rewrite He
  end.
  by destruct r.
Qed.

Lemma cover_settled_stage r c :
  let c' := generateCover_settled r c in
  errorMsg (app c') = errorMsg (app c) ∧ loadingState (app c') = loadingState (app c) ∧
  steps (app c') = steps (app c).
Proof. by destruct r. Qed.

Lemma step_Settle_chapter c k cb rawText i response c' :
  tasks c !! k = Some (AwaitChapter cb rawText i) →
  step (Settle k (ChapterSettled response)) c = Some c' →
  c' = processChapters_settled cb rawText i (generateChapterContent response) (take_task k c).
Proof. intros Hk. unfold step. simpl. rewrite Hk. by intros [= <-]. Qed.

(** The stage only moves along the pipeline: from IDLE to PARSING, on
    to PLANNING, to WRITING (or straight to SUCCESS for a plan without
    chapters) and to SUCCESS; to ERROR from PARSING or PLANNING only,
    and from ERROR back to IDLE. No step leaves WRITING except to
    SUCCESS, and none leaves SUCCESS. *)
Theorem stage_moves_along c e c' :
  reachable c → step e c = Some c' →
  stage_step (loadingState (app c)) (loadingState (app c')).
Proof.
  intros Hc Hstep. pose proof (reachable_Inv _ Hc) as HI.
  destruct (step_cases _ _ _ HI Hstep) as
    [(Hls & a & ->) | [(Hls & ->) | [(_ & b & _ & ->) | [(id & ->) |
     [(Hls & file & r & _ & ->) | [(Hls & file & raw & r & _ & ->) |
      [(Hls & k & cb & raw & response & Hk & Hstep') | (k & bd & r & Hk & ->)]]]]]]].
  - destruct a; simpl; rewrite ?Hls; constructor.
  - simpl. rewrite Hls. constructor.
  - simpl. constructor.
  - simpl. constructor.
  - rewrite Hls. destruct (parsed_stage file r (take_task 0 c)) as [[err ->] | [-> _]];
      rewrite ?catch_stage; constructor.
  - rewrite Hls.
    destruct (planned_stage file raw r (take_task 0 c)) as [[err ->] | [[-> | ->] _]];
      rewrite ?catch_stage; constructor.
  - rewrite (step_Settle_chapter _ _ _ _ _ _ _ Hk Hstep'). rewrite Hls.
    destruct (settled_stage cb raw (length (written c)) (generateChapterContent response)
                (take_task k c)) as [_ [-> | ->]]; simpl; rewrite ?Hls; constructor.
  - destruct (cover_settled_stage r (take_task k c)) as (_ & -> & _). simpl. constructor.
Qed.

Lemma stage_moves_along_witness :
  reachable Sample.at_planning ∧
  step (Settle 0 (StructureSettled (Resolved (Json (JObj []))))) Sample.at_planning =
    Some Sample.empty_plan_done ∧
  stage_step (loadingState (app Sample.at_planning))
             (loadingState (app Sample.empty_plan_done)).
Proof.
  assert (reachable Sample.at_planning) as Hreach
    by (apply (exec_reachable Sample.to_planning initialConfig);
        [apply reachable_init | reflexivity]).
  split; [exact Hreach |]. split; [reflexivity |].
  apply (stage_moves_along Sample.at_planning
           (Settle 0 (StructureSettled (Resolved (Json (JObj []))))) Sample.empty_plan_done);
    [exact Hreach | reflexivity].
Defined.

(** In ERROR the message and the first step go together: either a
    message is on screen, never an empty one, and step 0 is marked
    [error], or the failure carried nothing a message could be read
    from and there is neither message nor mark. From the start of a
    run until its end there is no message. *)
Theorem error_message_goes_with_stage c : reachable c → error_shown (app c).
Proof.
  induction 1 as [| c e c' Hc IH Hstep]; [done |].
  pose proof (reachable_Inv _ Hc) as HI.
  assert (∀ err, loadingState (app c) = PARSING ∨ loadingState (app c) = PLANNING →
                 error_shown (app (handleFileUpload_catch err (take_task 0 c)))) as Hcatch.
  { intros err Hls. unfold error_shown in IH. unfold Inv in HI.
    destruct Hls as [Hls | Hls]; rewrite Hls in IH, HI;
      destruct HI as (_ & _ & _ & _ & Hs & _);
      (eapply catch_shown; [exact IH | simpl; rewrite Hs; reflexivity | done]). }
  unfold error_shown in *.
  destruct (step_cases _ _ _ HI Hstep) as
    [(Hls & a & ->) | [(Hls & ->) | [(_ & b & _ & ->) | [(id & ->) |
     [(Hls & file & r & _ & ->) | [(Hls & file & raw & r & _ & ->) |
      [(Hls & k & cb & raw & response & Hk & Hstep') | (k & bd & r & Hk & ->)]]]]]]].
  - destruct a; simpl; try done; by rewrite Hls in IH |- *.
  - done.
  - done.
  - done.
  - destruct (parsed_stage file r (take_task 0 c)) as [[err ->] | [-> ->]];
      [apply Hcatch; by left | by rewrite Hls in IH].
  - destruct (planned_stage file raw r (take_task 0 c)) as
      [[err ->] | [[-> | ->] ->]]; [apply Hcatch; by right | by rewrite Hls in IH ..].
  - rewrite (step_Settle_chapter _ _ _ _ _ _ _ Hk Hstep'). rewrite Hls in IH.
    destruct (settled_stage cb raw (length (written c)) (generateChapterContent response)
                (take_task k c)) as [-> [-> | ->]]; simpl; by rewrite ?Hls.
  - destruct (cover_settled_stage r (take_task k c)) as (-> & -> & ->). done.
Qed.

Lemma error_message_goes_with_stage_witness :
  reachable Sample.extraction_failed ∧ error_shown (app Sample.extraction_failed).
Proof.
  assert (reachable Sample.extraction_failed) as Hreach
    by (apply (exec_reachable [Drop [Sample.manuscript]; Settle 0 (ParseSettled ReaderError)]
                 initialConfig); [apply reachable_init | reflexivity]).
  split; [exact Hreach |].
  apply (error_message_goes_with_stage Sample.extraction_failed). exact Hreach.
Defined.

(** ** What is on screen *)

(** The conditions of the four blocks of the main area exclude one
    another and leave no state out: in every state the application
    reaches exactly one block is selected, the editor in WRITING and
    SUCCESS, where there is a book for it. The stage GENERATING_COVER
    is never entered. *)
Theorem one_block_is_selected c :
  reachable c →
  selected_blocks (app c) =
    match loadingState (app c) with
    | IDLE => [UploadScreen]
    | PARSING | PLANNING => [LoadingView]
    | ERROR => [ErrorScreen]
    | _ => [EditorScreen]
    end ∧
  loadingState (app c) ≠ GENERATING_COVER.
Proof.
  intros Hc. apply reachable_Inv in Hc. unfold Inv in Hc.
  unfold selected_blocks, showLoading, showEditor.
  destruct (loadingState (app c)) eqn:Hls; simpl; try done.
  - by destruct Hc as (_ & b & ? & ? & ? & -> & _).
  - by destruct Hc as (_ & b & ? & ? & -> & _).
Qed.

Lemma one_block_is_selected_witness :
  reachable Sample.at_writing ∧
  selected_blocks (app Sample.at_writing) =
    match loadingState (app Sample.at_writing) with
    | IDLE => [UploadScreen]
    | PARSING | PLANNING => [LoadingView]
    | ERROR => [ErrorScreen]
    | _ => [EditorScreen]
    end ∧
  loadingState (app Sample.at_writing) ≠ GENERATING_COVER.
Proof.
  assert (reachable Sample.at_writing) as Hreach
    by (apply (exec_reachable Sample.to_writing initialConfig);
        [apply reachable_init | reflexivity]).
  split; [exact Hreach |]. apply (one_block_is_selected Sample.at_writing). exact Hreach.
Defined.

(** While the loading screen is shown its four circles are in one of
    two pictures: step 1 pulsing and the rest gray, or step 1 checked,
    steps 2 and 3 pulsing and step 4 gray. The fourth step never lights
    up there, and a step in status error is never on it. *)
Theorem loading_screen_pictures c :
  reachable c → showLoading (app c) = true →
  (loadingState (app c) = PARSING ∧
   LoadingScreen.circle <$> LoadingScreen.render (steps (app c)) =
     [LoadingScreen.IndigoNumber 1; LoadingScreen.GrayNumber 2;
      LoadingScreen.GrayNumber 3; LoadingScreen.GrayNumber 4] ∨
   loadingState (app c) = PLANNING ∧
   LoadingScreen.circle <$> LoadingScreen.render (steps (app c)) =
     [LoadingScreen.GreenCheck; LoadingScreen.IndigoNumber 2;
      LoadingScreen.IndigoNumber 3; LoadingScreen.GrayNumber 4]) ∧
  Forall (λ step, ProcessingStep.status step ≠ step_error) (steps (app c)).
Proof.
  intros Hc Hshow. apply reachable_Inv in Hc. unfold Inv in Hc. unfold showLoading in Hshow.
  destruct (loadingState (app c)) eqn:Hls; try done.
  - destruct Hc as (_ & _ & _ & _ & -> & _). split; [by left |].
    repeat constructor; done.
  - destruct Hc as (_ & _ & _ & _ & -> & _). split; [by right |].
    repeat constructor; done.
Qed.

Lemma loading_screen_pictures_witness :
  reachable Sample.at_planning ∧ showLoading (app Sample.at_planning) = true ∧
  (loadingState (app Sample.at_planning) = PARSING ∧
   LoadingScreen.circle <$> LoadingScreen.render (steps (app Sample.at_planning)) =
     [LoadingScreen.IndigoNumber 1; LoadingScreen.GrayNumber 2;
      LoadingScreen.GrayNumber 3; LoadingScreen.GrayNumber 4] ∨
   loadingState (app Sample.at_planning) = PLANNING ∧
   LoadingScreen.circle <$> LoadingScreen.render (steps (app Sample.at_planning)) =
     [LoadingScreen.GreenCheck; LoadingScreen.IndigoNumber 2;
      LoadingScreen.IndigoNumber 3; LoadingScreen.GrayNumber 4]) ∧
  Forall (λ step, ProcessingStep.status step ≠ step_error) (steps (app Sample.at_planning)).
Proof.
  assert (reachable Sample.at_planning) as Hreach
    by (apply (exec_reachable Sample.to_planning initialConfig);
        [apply reachable_init | reflexivity]).
  split; [exact Hreach |]. split; [reflexivity |].
  apply (loading_screen_pictures Sample.at_planning); [exact Hreach | reflexivity].
Defined.

(** The progress list keeps its four labels in their order, whatever
    happens: only statuses change. *)
Theorem step_labels_are_fixed c :
  reachable c →
  ProcessingStep.label <$> steps (app c) = ProcessingStep.label <$> INITIAL_STEPS.
Proof.
  induction 1 as [| c e c' Hc IH Hstep]; [done |].
  pose proof (reachable_Inv _ Hc) as HI.
  pose proof (Inv_step _ _ _ HI Hstep) as HI'. unfold Inv in HI'.
  destruct (loadingState (app c')) eqn:Hls'; try done;
    try (by destruct HI' as (_ & _ & _ & _ & -> & _));
    try (by destruct HI' as (-> & _)).
  - destruct (step_cases _ _ _ HI Hstep) as
      [(Hls & a & ->) | [(Hls & ->) | [(_ & b & _ & ->) | [(id & ->) |
       [(Hls & file & r & _ & ->) | [(Hls & file & raw & r & _ & ->) |
        [(Hls & k & cb & raw & response & Hk & Hstep') | (k & bd & r & Hk & ->)]]]]]]];
      try done.
    + by destruct a.
    + destruct (parsed_stage file r (take_task 0 c)) as [[err Heq] | [? _]];
        [rewrite Heq, catch_stage in Hls' |]; congruence.
    + destruct (planned_stage file raw r (take_task 0 c)) as [[err Heq] | [[? | ?] _]];
        [rewrite Heq, catch_stage in Hls' | ..]; congruence.
    + rewrite (step_Settle_chapter _ _ _ _ _ _ _ Hk Hstep') in Hls'.
      destruct (settled_stage cb raw (length (written c)) (generateChapterContent response)
                  (take_task k c)) as [_ [Hs | Hs]]; simpl in Hs; congruence.
    + by destruct (cover_settled_stage r (take_task k c)) as (_ & _ & ->).
  - by destruct HI' as (_ & _ & _ & _ & _ & [-> | [-> | [-> | ->]]]).
Qed.

Lemma step_labels_are_fixed_witness :
  reachable Sample.extraction_failed ∧
  ProcessingStep.label <$> steps (app Sample.extraction_failed) =
    ProcessingStep.label <$> INITIAL_STEPS.
Proof.
  assert (reachable Sample.extraction_failed) as Hreach
    by (apply (exec_reachable [Drop [Sample.manuscript]; Settle 0 (ParseSettled ReaderError)]
                 initialConfig); [apply reachable_init | reflexivity]).
  split; [exact Hreach |].
  apply (step_labels_are_fixed Sample.extraction_failed). exact Hreach.
Defined.

(** ** A run that is writing never fails *)



(** ** Starting a run *)



(** ** A failed cover *)

Lemma Inv_cover_task c k bookData :
  Inv c → tasks c !! k = Some (AwaitCover bookData) →
  loadingState (app c) = WRITING ∨ loadingState (app c) = SUCCESS.
Proof. intros H Hk. stage_of_task H Hk; auto. Qed.



(** ** The cover call *)

(** [isGeneratingCover] is true exactly while a cover call is in
    flight, and there is never more than one: the button that starts
    one is disabled until the call has settled. *)
Theorem cover_call_is_exclusive c :
  reachable c →
  length (List.filter is_cover_task (tasks c)) =
    (if isGeneratingCover (app c) then 1 else 0).
Proof.
  intros Hc. apply reachable_Inv in Hc. unfold Inv in Hc.
  destruct (loadingState (app c)) eqn:Hls; try done.
  - by destruct Hc as (-> & _ & -> & _).
  - by destruct Hc as (_ & -> & _ & _ & _ & file & ->).
  - by destruct Hc as (_ & -> & _ & _ & _ & file & raw & ->).
  - destruct Hc as (_ & b & cb & raw & covers & _ & _ & _ & Ht & Hcov & _).
    destruct Ht as [Ht | [-> _]].
    + destruct (tasks_cases _ _ _ _ Ht Hcov) as
        [(-> & _ & ->) | (-> & bd & _ & [-> | ->])]; done.
    + unfold cover_tasks in Hcov.
      destruct (isGeneratingCover (app c)); [by destruct Hcov as [bd ->] | by rewrite Hcov].
  - by destruct Hc as (-> & _ & -> & _).
  - destruct Hc as (_ & b & cb & raw & _ & _ & _ & Hcov & _). unfold cover_tasks in Hcov.
    destruct (isGeneratingCover (app c)); [by destruct Hcov as [bd ->] | by rewrite Hcov].
Qed.

Lemma cover_call_is_exclusive_witness :
  reachable Sample.at_writing ∧
  length (List.filter is_cover_task (tasks Sample.at_writing)) =
    (if isGeneratingCover (app Sample.at_writing) then 1 else 0).
Proof.
  assert (reachable Sample.at_writing) as Hreach
    by (apply (exec_reachable Sample.to_writing initialConfig);
        [apply reachable_init | reflexivity]).
  split; [exact Hreach |]. apply (cover_call_is_exclusive Sample.at_writing). exact Hreach.
Defined.

(** ** What the run leaves alone *)

Lemma same_plan_trans p ch ch' : same_plan p ch → same_plan p ch' → same_plan ch ch'.
Proof. intros (? & ? & ? & ?) (? & ? & ? & ?). unfold same_plan. split_and!; congruence. Qed.

Lemma same_frame_refl b : same_frame b b.
Proof. split_and!; try done. intros j. by destruct (js_get (Book.chapters b) j). Qed.

Lemma same_frame_coverUrl url b : same_frame b (Book.with_coverUrl url b).
Proof. split_and!; try done. intros j. simpl. by destruct (js_get (Book.chapters b) j). Qed.

Lemma js_get_None_ge {A} (a : list (option A)) j : (length a ≤ j)%nat → js_get a j = None.
Proof. intros Hj. unfold js_get. by rewrite lookup_ge_None_2. Qed.

Lemma follows_same_frame cb b b' rs active rs' active' :
  follows cb b rs active → follows cb b' rs' active' → same_frame b b'.
Proof.
  intros Hf Hf'. pose proof (follows_length _ _ _ _ Hf) as Hl.
  pose proof (follows_length _ _ _ _ Hf') as Hl'.
  destruct Hf as (Hm & Hr & _ & Hall), Hf' as (Hm' & Hr' & _ & Hall').
  split_and!; try congruence. intros j.
  destruct (decide (j < length (Book.chapters cb))) as [Hj | Hj].
  - destruct (Hall j Hj) as (p & ch & Hp & Hch & _ & Hs & _).
    destruct (Hall' j Hj) as (p' & ch' & Hp' & Hch' & _ & Hs' & _).
    rewrite (js_get_lookup _ _ _ Hch), (js_get_lookup _ _ _ Hch'). simplify_eq.
    by eapply same_plan_trans.
  - rewrite !js_get_None_ge by lia. done.
Qed.

Lemma step_same_frame c e c' b :
  Inv c → step e c = Some c' → book (app c) = Some b →
  ∃ b', book (app c') = Some b' ∧ same_frame b b'.
Proof.
  intros HI Hstep Hb.
  assert (loadingState (app c) = WRITING ∨ loadingState (app c) = SUCCESS) as Hstage.
  { unfold Inv in HI. destruct (loadingState (app c)); auto; try done;
      try (by destruct HI as (? & ? & _); congruence);
      by destruct HI as (_ & ? & _); congruence. }
  destruct (step_cases _ _ _ HI Hstep) as
    [(Hls & a & ->) | [(Hls & ->) | [(_ & b0 & _ & ->) | [(id & ->) |
     [(Hls & file & r & _ & ->) | [(Hls & file & raw & r & _ & ->) |
      [(Hls & k & cb & raw & response & Hk & Hstep') | (k & bd & r & Hk & ->)]]]]]]];
    try (by destruct Hstage; congruence).
  - exists b. split; [done | apply same_frame_refl].
  - exists b. split; [done | apply same_frame_refl].
  - destruct (catch_raises cb (length (written c)) (generateChapterContent response))
      eqn:Hlog.
    { rewrite (chapter_settle_lost _ _ _ _ _ _ Hk Hlog) in Hstep'. injection Hstep' as <-.
      exists b. split; [done | apply same_frame_refl]. }
    destruct (chapter_settle_spec c k cb raw _ response HI Hk Hlog) as
      (c1 & Hstep1 & _ & b' & Hb' & Hspec).
    rewrite Hstep' in Hstep1. injection Hstep1 as <-.
    destruct (Inv_chapter_task _ _ _ _ _ HI Hk) as (_ & _ & _ & _ & _ & _ & b1 & Hb1 & Hf).
    simplify_eq. exists b'. split; [done |].
    assert (∃ active', follows cb b' (written c') active') as [active' Hf']
      by (case_decide; destruct Hspec as (_ & _ & _ & ?); eauto).
    by eapply follows_same_frame.
  - destruct r as [url | err]; simpl; rewrite Hb; simpl.
    + eexists. split; [done | apply same_frame_coverUrl].
    + eexists. split; [done | apply same_frame_refl].
Qed.

(** Once there is a book, every step leaves a book with the same
    metadata, the same manuscript, the same number of chapters and for
    each chapter the same id, title, description and page: the run only
    changes chapter statuses and contents and the cover. *)
Theorem book_frame_is_kept c e c' b :
  reachable c → step e c = Some c' → book (app c) = Some b →
  ∃ b', book (app c') = Some b' ∧ same_frame b b'.
Proof. intros Hc. apply step_same_frame. by apply reachable_Inv. Qed.

Lemma book_frame_is_kept_witness :
  reachable Sample.at_writing ∧
  step (Settle 1 (ChapterSettled (Resolved None))) Sample.at_writing = Some Sample.first_written ∧
  book (app Sample.at_writing) = Some Sample.first_marked ∧
  ∃ b', book (app Sample.first_written) = Some b' ∧ same_frame Sample.first_marked b'.
Proof.
  assert (reachable Sample.at_writing) as Hreach
    by (apply (exec_reachable Sample.to_writing initialConfig);
        [apply reachable_init | reflexivity]).
  split; [exact Hreach |]. split; [reflexivity |]. split; [reflexivity |].
  apply (book_frame_is_kept Sample.at_writing (Settle 1 (ChapterSettled (Resolved None)))
           Sample.first_written Sample.first_marked);
    [exact Hreach | reflexivity | reflexivity].
Defined.

Lemma materialize_imap structure chs :
  materialize structure = Resolved chs →
  ∃ xs, chs = imap (λ idx ch, Some (chapter_of idx ch)) xs.
Proof.
  unfold materialize. intros Hm.
  destruct structure; try discriminate;
    (destruct (js_or _ _); try discriminate; eexists; by inversion Hm).
Qed.

(** What a successful planning leaves: the book, the pending calls and
    the requests made. *)
Lemma planned_spec file rawText r c b' :
  loadingState (app c) = PLANNING → Inv c → tasks c = [AwaitStructure file rawText] →
  book (app (handleFileUpload_planned file rawText r (take_task 0 c))) = Some b' →
  ∃ structure xs active,
    r = Resolved structure ∧
    follows (Book.mk (js_or (own_prop structure "metadata"%string) DEFAULT_METADATA)
               (imap (λ idx ch, Some (chapter_of idx ch)) xs) None (Some rawText))
            b' [] active ∧
    written (handleFileUpload_planned file rawText r (take_task 0 c)) = [] ∧
    (∀ k cb' raw' i,
       tasks (handleFileUpload_planned file rawText r (take_task 0 c)) !! k =
         Some (AwaitChapter cb' raw' i) → raw' = rawText) ∧
    chapter_requests (handleFileUpload_planned file rawText r (take_task 0 c)) =
      planned_requests
        (Book.mk (js_or (own_prop structure "metadata"%string) DEFAULT_METADATA)
           (imap (λ idx ch, Some (chapter_of idx ch)) xs) None (Some rawText))
        rawText (Nat.min 1 (length xs)).
Proof.
  intros Hls HI Ht Hb'.
  assert (book (app c) = None) as Hnone
    by (unfold Inv in HI; rewrite Hls in HI; by destruct HI as (? & _)).
  destruct r as [structure | err];
    [| by simpl in Hb'; rewrite catch_book in Hb'; simpl in Hb'; congruence].
  destruct (materialize structure) as [chs | err] eqn:Hm;
    [| unfold handleFileUpload_planned in Hb'; rewrite Hm, catch_book in Hb';
       simpl in Hb'; congruence].
  destruct (materialize_imap _ _ Hm) as [xs ->].
  destruct (planned_loop_ready file rawText structure _ c Hls HI Ht Hm) as
    (c0 & Heq & Hw & Ht0 & Hready).
  destruct (loop_ready_spec _ _ _ Hready) as (Hw' & b & Hb & Hspec).
  rewrite Heq in Hb' |- *. rewrite Hb in Hb'. injection Hb' as <-.
  rewrite Hw'. rewrite Hw in Hspec |- *. cbn [Book.chapters length] in Hspec |- *.
  rewrite length_imap in Hspec.
  exists structure, xs.
  case_decide as Hn; destruct Hspec as (_ & Htasks & Hreq & Hf); rewrite Htasks, Hreq, Ht0.
  - exists true. split_and!; try done.
    + intros [| [| k]] cb' raw' i Hk; simpl in Hk; [done | congruence | done].
    + f_equal. lia.
  - exists false. split_and!; try done.
    + intros [| k] cb' raw' i Hk; simpl in Hk; done.
    + f_equal. lia.
Qed.

(** Chapter [j] of the book on screen always carries the page number
    [15 j + 1] it was given when the book was built. *)
Theorem chapter_pages c j ch :
  reachable c → chapter_at c j = Some ch → Chapter.pageStart ch = Some (j * 15 + 1).
Proof.
  intros Hc. revert j ch. induction Hc as [| c e c' Hc IH Hstep]; intros j ch Hch; [done |].
  pose proof (reachable_Inv _ Hc) as HI.
  destruct (book (app c)) as [b |] eqn:Hb.
  - destruct (step_same_frame c e c' b HI Hstep Hb) as (b' & Hb' & _ & _ & _ & Hall).
    unfold chapter_at in Hch. rewrite Hb' in Hch. simpl in Hch.
    specialize (Hall j). rewrite Hch in Hall.
    destruct (js_get (Book.chapters b) j) as [ch0 |] eqn:Hch0; [| done].
    destruct Hall as (_ & _ & _ & ->). apply IH. unfold chapter_at. by rewrite Hb.
  - destruct (step_cases _ _ _ HI Hstep) as
      [(Hls & a & ->) | [(Hls & ->) | [(_ & b0 & ? & ->) | [(id & ->) |
       [(Hls & file & r & _ & ->) | [(Hls & file & raw & r & Ht & ->) |
        [(Hls & k & cb & raw & response & Hk & Hstep') | (k & bd & r & Hk & ->)]]]]]]].
    + destruct a; unfold chapter_at in Hch; simpl in Hch; by rewrite ?Hb in Hch.
    + unfold chapter_at in Hch. simpl in Hch. by rewrite Hb in Hch.
    + congruence.
    + unfold chapter_at in Hch. simpl in Hch. by rewrite Hb in Hch.
    + unfold chapter_at in Hch. rewrite parsed_book in Hch. simpl in Hch.
      by rewrite Hb in Hch.
    + unfold chapter_at in Hch.
      destruct (book (app (handleFileUpload_planned file raw r (take_task 0 c))))
        as [b' |] eqn:Hb'; [| done]. simpl in Hch.
      destruct (planned_spec _ _ _ _ _ Hls HI Ht Hb') as (structure & xs & active & _ & Hf & _).
      apply js_get_Some in Hch. pose proof (lookup_lt_Some _ _ _ Hch) as Hj.
      rewrite (follows_length _ _ _ _ Hf) in Hj.
      destruct (follows_lookup _ _ _ _ j Hf Hj) as (p & ch' & Hp & Hch' & _ & Hs & _).
      simpl in Hp. rewrite list_lookup_imap in Hp.
      destruct (xs !! j) as [x |]; [| done]. simpl in Hp. simplify_eq.
      by destruct Hs as (_ & _ & _ & ->).
    + destruct (Inv_chapter_task _ _ _ _ _ HI Hk) as (_ & _ & _ & _ & _ & _ & b1 & Hb1 & _).
      congruence.
    + unfold chapter_at in Hch. destruct r; simpl in Hch; by rewrite Hb in Hch.
Qed.

Lemma chapter_pages_witness :
  reachable Sample.first_written ∧
  chapter_at Sample.first_written 2 = Some Sample.last_chapter ∧
  Chapter.pageStart Sample.last_chapter = Some (2 * 15 + 1).
Proof.
  assert (reachable Sample.first_written) as Hreach
    by (apply (exec_reachable (Sample.to_writing ++ [Settle 1 (ChapterSettled (Resolved None))])
                 initialConfig); [apply reachable_init | reflexivity]).
  split; [exact Hreach |]. split; [reflexivity |].
  apply (chapter_pages Sample.first_written 2 Sample.last_chapter);
    [exact Hreach | reflexivity].
Defined.

(** ** The preview of a chapter *)

Lemma Inv_no_holes c b :
  Inv c → book (app c) = Some b → Forall is_Some (Book.chapters b).
Proof.
  intros HI Hb. destruct (Inv_book _ _ HI Hb) as (cb & active & Hf & _).
  apply Forall_lookup. intros j o Ho.
  pose proof (lookup_lt_Some _ _ _ Ho) as Hj. rewrite (follows_length _ _ _ _ Hf) in Hj.
  destruct (follows_lookup _ _ _ _ j Hf Hj) as (_ & ch & _ & Hch & _). simplify_eq. by eexists.
Qed.

Lemma js_or_truthy a d : truthy d = true → truthy (js_or a d) = true.
Proof. intros Hd. unfold js_or. destruct a as [v |]; [| done]. by destruct (truthy v) eqn:Hv. Qed.

(** The metadata of the book on screen is the plan's own or the
    default: never null. *)
Lemma reachable_metadata c b :
  reachable c → book (app c) = Some b → truthy (Book.metadata b) = true.
Proof.
  intros Hc. revert b. induction Hc as [| c e c' Hc IH Hstep]; intros b' Hb'; [done |].
  pose proof (reachable_Inv _ Hc) as HI.
  destruct (book (app c)) as [b |] eqn:Hb.
  - destruct (step_same_frame c e c' b HI Hstep Hb) as (b1 & Hb1 & Hm & _).
    simplify_eq. rewrite Hm. by apply IH.
  - destruct (step_cases _ _ _ HI Hstep) as
      [(Hls & a & ->) | [(Hls & ->) | [(_ & b0 & ? & ->) | [(id & ->) |
       [(Hls & file & r & _ & ->) | [(Hls & file & raw & r & Ht & ->) |
        [(Hls & k & cb & raw & response & Hk & Hstep') | (k & bd & r & Hk & ->)]]]]]]].
    + destruct a; simpl in Hb'; by rewrite ?Hb in Hb'.
    + simpl in Hb'. by rewrite Hb in Hb'.
    + congruence.
    + simpl in Hb'. by rewrite Hb in Hb'.
    + rewrite parsed_book in Hb'. simpl in Hb'. congruence.
    + destruct (planned_spec _ _ _ _ _ Hls HI Ht Hb') as
        (structure & xs & active & _ & (-> & _) & _).
      by apply js_or_truthy.
    + destruct (Inv_chapter_task _ _ _ _ _ HI Hk) as (_ & _ & _ & _ & _ & _ & b1 & Hb1 & _).
      congruence.
    + destruct r; simpl in Hb'; by rewrite Hb in Hb'.
Qed.

(** What the preview does with a chapter of the book on screen. It
    raises exactly when the book title, the chapter title or the
    chapter id is an object (or an array that holds one), which React
    refuses as a child. Otherwise it shows the chapter's page: the
    skeleton as long as no return of the chapter's call has been taken
    in, the paragraphs of the returned text once it has, and after a
    failed call the paragraphs of the placeholder text. *)
Theorem preview_follows_the_calls c b j ch :
  reachable c → book (app c) = Some b → js_get (Book.chapters b) j = Some ch →
  BookPreview.render b (Some ch) =
    if forallb child_ok (BookPreview.chapter_page_children b ch) then
      Some (BookPreview.ChapterPage
              (BookPreview.isArabic (Book.metadata b))
              (own_prop (Book.metadata b) "title"%string) (Chapter.title ch) (Chapter.id ch)
              (match written c !! j with
               | None => BookPreview.Skeleton
               | Some (Resolved text) => BookPreview.Prose (BookPreview.prose text)
               | Some (Rejected _) => BookPreview.Prose (BookPreview.prose ERROR_PLACEHOLDER)
               end)
              (Chapter.pageStart ch))
    else None.
Proof.
  intros Hc Hb Hch. pose proof (reachable_metadata _ _ Hc Hb) as Hm.
  apply reachable_Inv in Hc.
  destruct (book_chapter c b j ch Hc Hb Hch) as (cb & active & _ & Hst & _).
  unfold BookPreview.render, BookPreview.isGenerating.
  destruct (Book.metadata b) eqn:Hmd; try done;
    (destruct (chapter_state_cases _ _ _ _ Hst) as
       [(r & Hr & Hw) | [(-> & _ & Hs & Hcont) | (Hj & _ & Hs & Hcont)]];
     [ rewrite Hr; destruct r as [text | err]; destruct Hw as [Hs Hcont];
       by rewrite Hs, Hcont
     | rewrite Hs, lookup_ge_None_2 by lia; done
     | rewrite Hs, lookup_ge_None_2 by lia; done ]).
Qed.

Lemma preview_follows_the_calls_witness :
  reachable Sample.one_done ∧
  book (app Sample.one_done) = Some Sample.one_done_book ∧
  js_get (Book.chapters Sample.one_done_book) 0 = Some Sample.one_done_chapter ∧
  BookPreview.render Sample.one_done_book (Some Sample.one_done_chapter) =
    if forallb child_ok
         (BookPreview.chapter_page_children Sample.one_done_book Sample.one_done_chapter)
    then
      Some (BookPreview.ChapterPage
              (BookPreview.isArabic (Book.metadata Sample.one_done_book))
              (own_prop (Book.metadata Sample.one_done_book) "title"%string)
              (Chapter.title Sample.one_done_chapter) (Chapter.id Sample.one_done_chapter)
              (match written Sample.one_done !! 0 with
               | None => BookPreview.Skeleton
               | Some (Resolved text) => BookPreview.Prose (BookPreview.prose text)
               | Some (Rejected _) => BookPreview.Prose (BookPreview.prose ERROR_PLACEHOLDER)
               end)
              (Chapter.pageStart Sample.one_done_chapter))
    else None.
Proof.
  assert (reachable Sample.one_done) as Hreach
    by (apply (exec_reachable
                 (Sample.to_writing ++
                  [Settle 1 (ChapterSettled (Resolved (Some "First chapter"%string)))])
                 initialConfig); [apply reachable_init | reflexivity]).
  split; [exact Hreach |]. split; [reflexivity |]. split; [reflexivity |].
  apply (preview_follows_the_calls Sample.one_done Sample.one_done_book 0
           Sample.one_done_chapter); [exact Hreach | reflexivity | reflexivity].
Defined.

(** ** Asking for an illustration *)

Lemma find_by_id_no_holes id chapters :
  Forall is_Some chapters →
  ∃ found, find_by_id id chapters = Resolved found ∧
    ∀ ch, found = Some ch → ∃ j, chapters !! j = Some (Some ch) ∧ has_id id ch = true.
Proof.
  induction 1 as [| o chapters [ch0 ->] _ (found & Hfind & Hspec)]; simpl.
  - exists None. split; [done |]. by intros ch [=].
  - destruct (has_id id ch0) eqn:Hid.
    + exists (Some ch0). split; [done |]. intros ch [= <-]. by exists 0.
    + exists found. split; [done |]. intros ch Hch.
      destruct (Hspec ch Hch) as (j & Hj & Hidj). by exists (S j).
Qed.

Lemma eqb_empty_false s : String.eqb s ""%string = false → s ≠ ""%string.
Proof. intros H ->. done. Qed.

Lemma suggestIllustration_not_empty answer s :
  suggestIllustration answer = Resolved s → s ≠ ""%string.
Proof.
  destruct answer as [[text |] | e]; simpl; try done; [| by intros [= <-]].
  destruct (String.eqb text "") eqn:Ht; intros [= <-]; [done | by apply eqb_empty_false].
Qed.

(** In a configuration the application reaches, the part of
    [handleSuggestIllustration] before its await never raises, and it
    asks for an illustration only for a chapter with the active id
    whose return has been taken in: the request carries the fixed
    instruction followed by the first 2000 characters of the text that
    call returned, or, when that call failed, by the placeholder text.
    Nothing is asked while the chapter is pending or being generated.
    The handler has no [catch]: it ends rejected exactly when it has
    asked and the service call is rejected; otherwise it ends with
    nothing asked, or with an alert that holds a suggestion which is
    never empty. *)
Theorem suggestion_needs_a_returned_chapter c id answer :
  reachable c →
  ∃ sent, suggestion_request (book (app c)) id = Resolved sent ∧
    (∀ prompt, sent = Some prompt →
      ∃ j ch text,
        id ≠ ""%string ∧ chapter_at c j = Some ch ∧ has_id id ch = true ∧
        (written c !! j = Some (Resolved text) ∨
         (∃ err, written c !! j = Some (Rejected err)) ∧ text = ERROR_PLACEHOLDER) ∧
        text ≠ ""%string ∧
        prompt = illustration_prompt text ∧
        String.prefix (illustration_excerpt text) text = true ∧
        String.length (illustration_excerpt text) = Nat.min 2000 (String.length text)) ∧
    (∀ e, handleSuggestIllustration (book (app c)) id answer = Rejected e ↔
          is_Some sent ∧ answer = Rejected e) ∧
    (handleSuggestIllustration (book (app c)) id answer = Resolved NothingAsked ↔
     sent = None) ∧
    (∀ shown, handleSuggestIllustration (book (app c)) id answer = Resolved (Alerted shown) →
       is_Some sent ∧ ∃ suggestion, suggestion ≠ ""%string ∧ shown = alert_text suggestion).
Proof.
  intros Hc. apply reachable_Inv in Hc.
  assert (∃ sent, suggestion_request (book (app c)) id = Resolved sent ∧
    (∀ prompt, sent = Some prompt →
      ∃ j ch text,
        id ≠ ""%string ∧ chapter_at c j = Some ch ∧ has_id id ch = true ∧
        (written c !! j = Some (Resolved text) ∨
         (∃ err, written c !! j = Some (Rejected err)) ∧ text = ERROR_PLACEHOLDER) ∧
        text ≠ ""%string ∧
        prompt = illustration_prompt text ∧
        String.prefix (illustration_excerpt text) text = true ∧
        String.length (illustration_excerpt text) = Nat.min 2000 (String.length text)))
    as (sent & Hsent & Hspec).
  { unfold suggestion_request.
    destruct (book (app c)) as [b |] eqn:Hb; [| exists None; split; [done | by intros ? [=]]].
    destruct (String.eqb id "") eqn:Hid; [exists None; split; [done | by intros ? [=]] |].
    destruct (find_by_id_no_holes id _ (Inv_no_holes _ _ Hc Hb)) as (found & -> & Hfound).
    destruct found as [ch |]; [| exists None; split; [done | by intros ? [=]]].
    destruct (Hfound ch eq_refl) as (j & Hj & Hhas).
    destruct (Chapter.content ch) as [text |] eqn:Hcont;
      [| exists None; split; [done | by intros ? [=]]].
    destruct (String.eqb text "") eqn:Htext; [exists None; split; [done | by intros ? [=]] |].
    eexists. split; [done |]. intros prompt [= <-].
    apply eqb_empty_false in Hid, Htext.
    destruct (book_chapter c b j ch Hc Hb (js_get_lookup _ _ _ Hj))
      as (cb & active & _ & Hst & _).
    exists j, ch, text. split_and!; try done.
    - unfold chapter_at. rewrite Hb. simpl. by apply js_get_lookup.
    - destruct (chapter_state_cases _ _ _ _ Hst) as
        [(r & Hr & Hw) | [(_ & _ & _ & Hcont') | (_ & _ & _ & Hcont')]];
        [| congruence ..].
      destruct r as [text' | err]; destruct Hw as [_ Hcont']; [left | right]; [congruence |].
      split; [by eauto | congruence].
    - apply substring_0_prefix.
    - apply substring_0_length. }
  exists sent. split; [done |]. split; [done |].
  unfold handleSuggestIllustration. rewrite Hsent.
  destruct sent as [prompt |].
  - destruct (suggestIllustration answer) as [s |e0] eqn:Hs; split_and!.
    + intros e. split; [done |]. intros [_ ->]. done.
    + split; done.
    + intros shown [= <-]. split; [by eexists |]. exists s.
      split; [by eapply suggestIllustration_not_empty | done].
    + intros e. destruct answer as [t | e1]; [destruct t; simpl in Hs; done |].
      simpl in Hs. injection Hs as <-. split; [intros [= <-]; split; [by eexists | done] |].
      by intros [_ [= <-]].
    + split; done.
    + intros shown [=].
  - split_and!.
    + intros e. split; [done |]. by intros [[? ?] _].
    + done.
    + intros shown [=].
Qed.

Lemma suggestion_needs_a_returned_chapter_witness :
  reachable Sample.one_done ∧
  ∃ sent, suggestion_request (book (app Sample.one_done)) "c1"%string = Resolved sent ∧
    (∀ prompt, sent = Some prompt →
      ∃ j ch text,
        "c1"%string ≠ ""%string ∧ chapter_at Sample.one_done j = Some ch ∧
        has_id "c1"%string ch = true ∧
        (written Sample.one_done !! j = Some (Resolved text) ∨
         (∃ err, written Sample.one_done !! j = Some (Rejected err)) ∧
         text = ERROR_PLACEHOLDER) ∧
        text ≠ ""%string ∧
        prompt = illustration_prompt text ∧
        String.prefix (illustration_excerpt text) text = true ∧
        String.length (illustration_excerpt text) = Nat.min 2000 (String.length text)) ∧
    (∀ e, handleSuggestIllustration (book (app Sample.one_done)) "c1"%string
            (Rejected (Thrown (Some "quota"%string))) = Rejected e ↔
          is_Some sent ∧ Rejected (Thrown (Some "quota"%string)) = Rejected (A:=option string) e) ∧
    (handleSuggestIllustration (book (app Sample.one_done)) "c1"%string
       (Rejected (Thrown (Some "quota"%string))) = Resolved NothingAsked ↔
     sent = None) ∧
    (∀ shown, handleSuggestIllustration (book (app Sample.one_done)) "c1"%string
                (Rejected (Thrown (Some "quota"%string))) = Resolved (Alerted shown) →
       is_Some sent ∧ ∃ suggestion, suggestion ≠ ""%string ∧ shown = alert_text suggestion).
Proof.
  assert (reachable Sample.one_done) as Hreach
    by (apply (exec_reachable
                 (Sample.to_writing ++
                  [Settle 1 (ChapterSettled (Resolved (Some "First chapter"%string)))])
                 initialConfig); [apply reachable_init | reflexivity]).
  split; [exact Hreach |].
  apply (suggestion_needs_a_returned_chapter Sample.one_done "c1"%string
           (Rejected (Thrown (Some "quota"%string)))). exact Hreach.
Defined.

(** ** The requests to the chapter writer *)

Lemma omap_take_ext {A B C} (f : A → option C) (g : B → option C) l l' n :
  Forall2 (λ x y, f x = g y) l l' → omap f (take n l) = omap g (take n l').
Proof.
  intros H. revert n. induction H as [| x y l l' Hxy _ IH]; intros [| n]; simpl; try done.
  by rewrite Hxy, IH.
Qed.

Lemma follows_requests cb b rs active raw n :
  follows cb b rs active → planned_requests cb raw n = planned_requests b raw n.
Proof.
  intros Hf. unfold planned_requests. apply omap_take_ext.
  apply Forall2_same_length_lookup_2; [symmetry; by eapply follows_length |].
  intros j x y Hx Hy. pose proof (lookup_lt_Some _ _ _ Hx) as Hj.
  destruct (follows_lookup _ _ _ _ j Hf Hj) as (p & ch & Hp & Hch & _ & (_ & Ht & Hd & _) & _).
  destruct Hf as (Hm & _). simplify_eq. simpl. unfold request_for. by rewrite Ht, Hd, Hm.
Qed.


Lemma Inv_book_stage c b :
  Inv c → book (app c) = Some b →
  loadingState (app c) = WRITING ∨ loadingState (app c) = SUCCESS.
Proof.
  intros HI Hb. unfold Inv in HI. destruct (loadingState (app c)); auto; try done;
    try (by destruct HI as (? & ? & _); congruence);
    by destruct HI as (_ & ? & _); congruence.
Qed.

Lemma grounded_step c e c' : Inv c → grounded c → step e c = Some c' → grounded c'.
Proof.
  intros HI Hg Hstep b' Hb'.
  destruct (book (app c)) as [b |] eqn:Hb.
  - destruct (Hg b Hb) as (raw & Hraw & Htasks & Hreq).
    pose proof (Inv_book_stage _ _ HI Hb) as Hstage.
    destruct (step_cases _ _ _ HI Hstep) as
      [(Hls & a & ->) | [(Hls & ->) | [(_ & b0 & _ & ->) | [(id & ->) |
       [(Hls & file & r & _ & ->) | [(Hls & file & raw0 & r & _ & ->) |
        [(Hls & k & cb & raw0 & response & Hk & Hstep') | (k & bd & r & Hk & ->)]]]]]]];
      try (by destruct Hstage; congruence).
    + simpl in Hb'. simplify_eq. exists raw. split_and!; try done.
      * intros k cb raw' i Hk. simpl in Hk. apply lookup_app_Some in Hk as [Hk | [_ Hk]].
        -- by eapply Htasks.
        -- apply list_lookup_singleton_Some in Hk as [_ Hk]. congruence.
      * unfold chapter_requests in *. simpl. rewrite omap_app. simpl. by rewrite app_nil_r.
    + simpl in Hb'. simplify_eq. exists raw. by split_and!.
    + destruct (catch_raises cb (length (written c)) (generateChapterContent response))
        eqn:Hlog.
      { rewrite (chapter_settle_lost _ _ _ _ _ _ Hk Hlog) in Hstep'. injection Hstep' as <-.
        simpl in Hb'. simplify_eq. exists raw. split_and!; try done.
        intros k' cb' raw' i Hk'. simpl in Hk'.
        destruct (lookup_delete_elsewhere _ _ _ _ Hk') as [k'' Hk'']. by eapply Htasks. }
      destruct (chapter_settle_spec c k cb raw0 _ response HI Hk Hlog) as
        (c1 & Hstep1 & Hw & b1 & Hb1 & Hspec).
      rewrite Hstep' in Hstep1. injection Hstep1 as <-.
      destruct (Inv_chapter_task _ _ _ _ _ HI Hk) as (_ & _ & _ & Hi & _ & _ & b2 & Hb2 & Hf).
      pose proof (Htasks _ _ _ _ Hk) as ->. simplify_eq.
      assert (∃ active', follows cb b' (written c') active') as [active' Hf']
        by (case_decide; destruct Hspec as (_ & _ & _ & ?); eauto).
      exists raw. split; [destruct Hf as (_ & Hr & _), Hf' as (_ & Hr' & _); congruence |].
      rewrite <- (follows_requests _ _ _ _ raw _ Hf'), (follows_length _ _ _ _ Hf'), Hw.
      rewrite length_app. cbn [length].
      case_decide as Hn; destruct Hspec as (_ & Ht' & -> & _); rewrite Ht'.
      * split; [| f_equal; lia]. intros k' cb' raw' i Hk'.
        apply lookup_app_Some in Hk' as [Hk' | [_ Hk']].
        -- destruct (lookup_delete_elsewhere _ _ _ _ Hk') as [k'' Hk'']. by eapply Htasks.
        -- apply list_lookup_singleton_Some in Hk' as [_ Hk']. congruence.
      * split; [| f_equal; lia]. intros k' cb' raw' i Hk'.
        destruct (lookup_delete_elsewhere _ _ _ _ Hk') as [k'' Hk'']. by eapply Htasks.
    + assert (Book.rawText b' = Some raw ∧ Book.chapters b' = Book.chapters b ∧
              Book.metadata b' = Book.metadata b) as (Hr' & Hc' & Hm').
      { destruct r; simpl in Hb'; rewrite Hb in Hb'; simpl in Hb'; by simplify_eq. }
      exists raw. split; [done |]. split.
      * intros k' cb' raw' i Hk'.
        assert (delete k (tasks c) !! k' = Some (AwaitChapter cb' raw' i)) as Hk''
          by (by destruct r).
        destruct (lookup_delete_elsewhere _ _ _ _ Hk'') as [k'' Hk3]. by eapply Htasks.
      * assert (chapter_requests (generateCover_settled r (take_task k c)) = chapter_requests c)
          as -> by (by destruct r).
        assert (written (generateCover_settled r (take_task k c)) = written c)
          as -> by (by destruct r).
        rewrite Hreq. unfold planned_requests, request_for. by rewrite Hc', Hm'.
  - destruct (step_cases _ _ _ HI Hstep) as
      [(Hls & a & ->) | [(Hls & ->) | [(_ & b0 & ? & ->) | [(id & ->) |
       [(Hls & file & r & _ & ->) | [(Hls & file & raw & r & Ht & ->) |
        [(Hls & k & cb & raw & response & Hk & Hstep') | (k & bd & r & Hk & ->)]]]]]]].
    + destruct a; simpl in Hb'; by rewrite ?Hb in Hb'.
    + simpl in Hb'. by rewrite Hb in Hb'.
    + congruence.
    + simpl in Hb'. by rewrite Hb in Hb'.
    + rewrite parsed_book in Hb'. simpl in Hb'. congruence.
    + destruct (planned_spec _ _ _ _ _ Hls HI Ht Hb') as
        (structure & xs & active & _ & Hf & Hw & Htasks & Hreq).
      exists raw. split; [by destruct Hf as (_ & -> & _) |]. split; [done |].
      rewrite Hreq, Hw, (follows_length _ _ _ _ Hf). simpl. rewrite length_imap.
      by eapply follows_requests.
    + destruct (Inv_chapter_task _ _ _ _ _ HI Hk) as (_ & _ & _ & _ & _ & _ & b1 & Hb1 & _).
      congruence.
    + destruct r; simpl in Hb'; by rewrite Hb in Hb'.
Qed.

(** The calls to the chapter writer are grounded in the book on screen:
    the book keeps the manuscript, every request made so far and the
    pending call carry that manuscript, and the requests are, in order
    and with none repeated or left out, those for the first chapters of
    the book with its metadata, its titles and descriptions: one more
    than there are answers, as far as there are chapters. *)
Theorem requests_come_from_the_book c : reachable c → grounded c.
Proof.
  induction 1 as [| c e c' Hc IH Hstep]; [by intros b Hb |].
  eapply grounded_step; [by apply reachable_Inv | done | done].
Qed.

Lemma requests_come_from_the_book_witness :
  reachable Sample.one_done ∧ grounded Sample.one_done.
Proof.
  assert (reachable Sample.one_done) as Hreach
    by (apply (exec_reachable
                 (Sample.to_writing ++
                  [Settle 1 (ChapterSettled (Resolved (Some "First chapter"%string)))])
                 initialConfig); [apply reachable_init | reflexivity]).
  split; [exact Hreach |]. apply (requests_come_from_the_book Sample.one_done). exact Hreach.
Defined.

(** ** The cover *)

Lemma generateBookCover_data response url :
  generateBookCover response = Resolved url →
  ∃ data, data ≠ ""%string ∧ url = ("data:image/png;base64," ++ data)%string.
Proof.
  unfold generateBookCover. destruct response as [r | err]; [| done].
  destruct (candidates r) as [[| cand rest] |]; try done.
  destruct (candidate_content cand) as [[parts |] |]; try done.
  destruct (String.eqb (first_inline parts) "") eqn:Hdata; [done |].
  intros [= <-]. exists (first_inline parts). split; [| done]. by intros Heq; rewrite Heq in Hdata.
Qed.

Lemma loop_coverUrl cb rawText i c :
  (Book.coverUrl <$> book (app (processChapters_loop cb rawText i c))) =
  (Book.coverUrl <$> book (app c)).
Proof.
  unfold processChapters_loop. case_decide; [| done].
  destruct (js_get (Book.chapters cb) i); simpl; by destruct (book (app c)).
Qed.

Lemma settled_coverUrl cb rawText i r c :
  (Book.coverUrl <$> book (app (processChapters_settled cb rawText i r c))) =
  (Book.coverUrl <$> book (app c)).
Proof.
  unfold processChapters_settled. destruct (catch_raises cb i r); [done |].
  rewrite loop_coverUrl. destruct r; simpl; by destruct (book (app c)).
Qed.

Lemma planned_coverUrl file rawText r c :
  book (app c) = None →
  (Book.coverUrl <$> book (app (handleFileUpload_planned file rawText r c))) = None ∨
  (Book.coverUrl <$> book (app (handleFileUpload_planned file rawText r c))) = Some None.
Proof.
  intros Hb. unfold handleFileUpload_planned.
  destruct r as [structure | err]; [| left; by rewrite catch_book, Hb].
  destruct (materialize structure) as [chs | err]; [| left; by rewrite catch_book, Hb].
  right. unfold processChapters.
  destruct chs as [| [first |] chs]; rewrite ?loop_coverUrl; done.
Qed.

Lemma upload_no_book a c : book (app c) = None → book (app (upload_action a c)) = None.
Proof. by destruct a. Qed.

(** What a step does to the cover of the book on screen. *)
Lemma step_cover c e c' b' :
  Inv c → step e c = Some c' → book (app c') = Some b' →
  (book (app c) = None ∧ Book.coverUrl b' = None) ∨
  (∃ b, book (app c) = Some b ∧ Book.coverUrl b' = Book.coverUrl b) ∨
  (∃ k response url, e = Settle k (CoverSettled response) ∧
     generateBookCover response = Resolved url ∧ Book.coverUrl b' = Some url).
Proof.
  intros HI Hstep Hb'.
  assert (∀ c0, (Book.coverUrl <$> book (app c')) = (Book.coverUrl <$> book (app c0)) →
                ∃ b, book (app c0) = Some b ∧ Book.coverUrl b' = Book.coverUrl b) as Hsame.
  { intros c0. rewrite Hb'. destruct (book (app c0)) as [b |]; [| done].
    intros [= ->]. by exists b. }
  unfold step in Hstep. destruct (rendered e (app c)) eqn:Hr; [| done].
  destruct e as [files | files | | | id | k r]; simpl in Hr; unfold fire in Hstep.
  - apply bool_decide_eq_true in Hr. injection Hstep as <-.
    unfold Inv in HI. rewrite Hr in HI. destruct HI as (_ & Hb & _).
    rewrite (upload_no_book _ _ Hb) in Hb'. done.
  - apply bool_decide_eq_true in Hr. injection Hstep as <-.
    unfold Inv in HI. rewrite Hr in HI. destruct HI as (_ & Hb & _).
    rewrite (upload_no_book _ _ Hb) in Hb'. done.
  - injection Hstep as <-. right. left. by apply (Hsame c).
  - destruct (book (app c)) as [b |] eqn:Hb; [| done]. injection Hstep as <-.
    right. left. exists b. split; [done |]. simpl in Hb'. congruence.
  - injection Hstep as <-. right. left. by apply (Hsame c).
  - destruct (tasks c !! k) as [[file | file rawText | cb rawText i | bookData] |] eqn:Hk;
      [| | | | done]; destruct r as [read | response | response | response]; try done;
      injection Hstep as <-.
    + destruct (Inv_parse_task _ _ _ HI Hk) as (_ & _ & Hls).
      unfold Inv in HI. rewrite Hls in HI. destruct HI as (Hb & _).
      rewrite parsed_book in Hb'. simpl in Hb'. congruence.
    + destruct (Inv_structure_task _ _ _ _ HI Hk) as (_ & _ & Hls).
      unfold Inv in HI. rewrite Hls in HI. destruct HI as (Hb & _).
      destruct (planned_coverUrl file rawText (generateBookStructure response)
                  (take_task k c) Hb) as [Hnone | Hnone];
        rewrite Hb' in Hnone; simpl in Hnone; [done | left; split; congruence].
    + right. left. apply (Hsame c). by rewrite settled_coverUrl.
    + destruct (generateBookCover response) as [url | err] eqn:Hcover.
      * do 2 right. exists k, response, url. split_and!; try done.
        simpl in Hb'. destruct (book (app c)); by simplify_eq/=.
      * right. left. apply (Hsame c). simpl. done.
Qed.

(** The cover of the book on screen changes in one way only: a cover
    call returns an image, and its data URL is stored. Every other
    step, a chapter coming back or failing among them, leaves the
    cover as it is. *)
Theorem cover_changes_only_on_success c e c' b b' :
  reachable c → step e c = Some c' → book (app c) = Some b → book (app c') = Some b' →
  Book.coverUrl b' = Book.coverUrl b ∨
  ∃ k response url, e = Settle k (CoverSettled response) ∧
    generateBookCover response = Resolved url ∧ Book.coverUrl b' = Some url.
Proof.
  intros Hc Hstep Hb Hb'.
  destruct (step_cover c e c' b' (reachable_Inv _ Hc) Hstep Hb') as
    [[Hnone _] | [(b0 & Hb0 & Hsame) | Hnew]]; [congruence | left; congruence | by right].
Qed.

Lemma cover_changes_only_on_success_witness :
  reachable Sample.at_writing ∧
  step (Settle 1 (ChapterSettled (Resolved None))) Sample.at_writing = Some Sample.first_written ∧
  book (app Sample.at_writing) = Some Sample.first_marked ∧
  book (app Sample.first_written) = Some Sample.first_written_book ∧
  (Book.coverUrl Sample.first_written_book = Book.coverUrl Sample.first_marked ∨
   ∃ k response url,
     Settle 1 (ChapterSettled (Resolved None)) = Settle k (CoverSettled response) ∧
     generateBookCover response = Resolved url ∧
     Book.coverUrl Sample.first_written_book = Some url).
Proof.
  assert (reachable Sample.at_writing) as Hreach
    by (apply (exec_reachable Sample.to_writing initialConfig);
        [apply reachable_init | reflexivity]).
  split; [exact Hreach |]. split; [reflexivity |]. split; [reflexivity |].
  split; [reflexivity |].
  apply (cover_changes_only_on_success Sample.at_writing
           (Settle 1 (ChapterSettled (Resolved None))) Sample.first_written
           Sample.first_marked Sample.first_written_book);
    [exact Hreach | reflexivity | reflexivity | reflexivity].
Defined.

(** The book on screen has no cover or a PNG data URL with data, never
    an empty URL. The title page raises exactly when the title or the
    author of the book is an object (or an array that holds one);
    otherwise it shows the stored cover whenever there is one and the
    placeholder when there is none. *)
Theorem cover_is_a_picture c b :
  reachable c → book (app c) = Some b →
  cover_is_picture b ∧
  BookPreview.render b None =
    if forallb child_ok (BookPreview.title_page_children b) then
      Some (BookPreview.TitlePage (BookPreview.isArabic (Book.metadata b))
              (Book.coverUrl b)
              (own_prop (Book.metadata b) "title"%string)
              (own_prop (Book.metadata b) "author"%string))
    else None.
Proof.
  intros Hc Hb. pose proof (reachable_metadata _ _ Hc Hb) as Hm.
  assert (cover_is_picture b) as Hpic.
  { clear Hm. revert b Hb. induction Hc as [| c e c' Hc IH Hstep]; intros b' Hb'; [done |].
    unfold cover_is_picture.
    destruct (step_cover c e c' b' (reachable_Inv _ Hc) Hstep Hb') as
      [[_ ->] | [(b0 & Hb0 & ->) | (k & response & url & _ & Hurl & ->)]]; [done | |].
    - by apply IH.
    - by eapply generateBookCover_data. }
  split; [done |]. unfold BookPreview.render. unfold cover_is_picture in Hpic.
  destruct (Book.metadata b) eqn:Hmd; try done;
    (destruct (Book.coverUrl b) as [url |]; [| done];
     destruct Hpic as (data & _ & ->); done).
Qed.

Lemma cover_is_a_picture_witness :
  reachable Sample.with_cover ∧
  book (app Sample.with_cover) = Some Sample.with_cover_book ∧
  cover_is_picture Sample.with_cover_book ∧
  BookPreview.render Sample.with_cover_book None =
    if forallb child_ok (BookPreview.title_page_children Sample.with_cover_book) then
      Some (BookPreview.TitlePage
              (BookPreview.isArabic (Book.metadata Sample.with_cover_book))
              (Book.coverUrl Sample.with_cover_book)
              (own_prop (Book.metadata Sample.with_cover_book) "title"%string)
              (own_prop (Book.metadata Sample.with_cover_book) "author"%string))
    else None.
Proof.
  assert (reachable Sample.with_cover) as Hreach
    by (apply (exec_reachable (Sample.to_writing ++ [Settle 0 (CoverSettled Sample.image)])
                 initialConfig); [apply reachable_init | reflexivity]).
  split; [exact Hreach |]. split; [reflexivity |].
  apply (cover_is_a_picture Sample.with_cover Sample.with_cover_book);
    [exact Hreach | reflexivity].
Defined.

(** When a cover call returns an image, its URL is stored in the book
    as it stands at that moment, chapters written meanwhile included,
    and not in the book the call was made with; the flag is reset, the
    call is no longer pending, and stage, steps, active chapter and
    the results of the chapter calls are untouched. *)
Theorem cover_success_is_stored c k bookData response url :
  reachable c → tasks c !! k = Some (AwaitCover bookData) →
  generateBookCover response = Resolved url →
  ∃ c' b, step (Settle k (CoverSettled response)) c = Some c' ∧
    book (app c) = Some b ∧
    book (app c') = Some (Book.with_coverUrl url b) ∧
    isGeneratingCover (app c') = false ∧
    loadingState (app c') = loadingState (app c) ∧
    steps (app c') = steps (app c) ∧
    activeChapterId (app c') = activeChapterId (app c) ∧
    errorMsg (app c') = errorMsg (app c) ∧
    written c' = written c ∧ requests c' = requests c ∧
    tasks c' = delete k (tasks c).
Proof.
  intros Hc Hk Hurl. apply reachable_Inv in Hc.
  assert (∃ b, book (app c) = Some b) as [b Hb].
  { destruct (Inv_cover_task _ _ _ Hc Hk) as [Hls | Hls];
      unfold Inv in Hc; rewrite Hls in Hc.
    - destruct Hc as (_ & b & ? & ? & ? & Hb & _). by exists b.
    - destruct Hc as (_ & b & ? & ? & Hb & _). by exists b. }
  exists (generateCover_settled (Resolved url) (take_task k c)), b.
  split; [unfold step; simpl; by rewrite Hk, Hurl |].
  simpl. rewrite Hb. by split_and!.
Qed.

Lemma cover_success_is_stored_witness :
  reachable Sample.one_done ∧
  tasks Sample.one_done !! 0 = Some (AwaitCover Sample.plan) ∧
  generateBookCover Sample.image = Resolved "data:image/png;base64,iVBORw0KGgo="%string ∧
  ∃ c' b, step (Settle 0 (CoverSettled Sample.image)) Sample.one_done = Some c' ∧
    book (app Sample.one_done) = Some b ∧
    book (app c') = Some (Book.with_coverUrl "data:image/png;base64,iVBORw0KGgo="%string b) ∧
    isGeneratingCover (app c') = false ∧
    loadingState (app c') = loadingState (app Sample.one_done) ∧
    steps (app c') = steps (app Sample.one_done) ∧
    activeChapterId (app c') = activeChapterId (app Sample.one_done) ∧
    errorMsg (app c') = errorMsg (app Sample.one_done) ∧
    written c' = written Sample.one_done ∧ requests c' = requests Sample.one_done ∧
    tasks c' = delete 0 (tasks Sample.one_done).
Proof.
  assert (reachable Sample.one_done) as Hreach
    by (apply (exec_reachable
                 (Sample.to_writing ++
                  [Settle 1 (ChapterSettled (Resolved (Some "First chapter"%string)))])
                 initialConfig); [apply reachable_init | reflexivity]).
  split; [exact Hreach |]. split; [reflexivity |]. split; [reflexivity |].
  apply (cover_success_is_stored Sample.one_done 0 Sample.plan Sample.image
           "data:image/png;base64,iVBORw0KGgo="%string);
    [exact Hreach | reflexivity | reflexivity].
Defined.

(** ** The header and the table of contents *)

(** The dot of a chapter in the table of contents follows the calls to
    the chapter writer: green once the chapter's call has returned, red
    once it has failed, pulsing indigo for the one chapter the loop is
    at (its call is pending, or the loop has ended in the [catch] at
    that chapter), and slate for the chapters the loop has not
    reached. *)
Theorem dots_follow_the_calls c j ch :
  reachable c → chapter_at c j = Some ch →
  dot ch = match written c !! j with
           | Some (Resolved _) => GreenDot
           | Some (Rejected _) => RedDot
           | None => if decide (j = length (written c)) then IndigoPulse else SlateDot
           end.
Proof.
  intros Hc Hch. apply reachable_Inv in Hc. unfold chapter_at in Hch.
  destruct (book (app c)) as [b |] eqn:Hb; [| done]. simpl in Hch.
  destruct (book_chapter c b j ch Hc Hb Hch) as (cb & active & Hf & Hst & Hstage).
  unfold dot.
  destruct (chapter_state_cases _ _ _ _ Hst) as
    [(r & Hr & Hw) | [(-> & _ & Hs & _) | (Hj & Hact & Hs & _)]].
  - rewrite Hr. destruct r; destruct Hw as [-> _]; done.
  - rewrite Hs, lookup_ge_None_2 by lia. by rewrite decide_True.
  - rewrite Hs, lookup_ge_None_2 by lia. case_decide as Hjr; [| done].
    specialize (Hact Hjr). subst active.
    destruct Hstage as [(_ & ?) | (_ & _ & Hlen)]; [done |].
    apply js_get_Some, lookup_lt_Some in Hch. lia.
Qed.

Lemma dots_follow_the_calls_witness :
  reachable Sample.one_done ∧
  chapter_at Sample.one_done 0 = Some Sample.one_done_chapter ∧
  dot Sample.one_done_chapter =
    match written Sample.one_done !! 0 with
    | Some (Resolved _) => GreenDot
    | Some (Rejected _) => RedDot
    | None => if decide (0 = length (written Sample.one_done)) then IndigoPulse else SlateDot
    end.
Proof.
  assert (reachable Sample.one_done) as Hreach
    by (apply (exec_reachable
                 (Sample.to_writing ++
                  [Settle 1 (ChapterSettled (Resolved (Some "First chapter"%string)))])
                 initialConfig); [apply reachable_init | reflexivity]).
  split; [exact Hreach |]. split; [reflexivity |].
  apply (dots_follow_the_calls Sample.one_done 0 Sample.one_done_chapter);
    [exact Hreach | reflexivity].
Defined.

(** The header says what the loop is doing: it reads "Writing book..."
    while a chapter call is pending, and goes on reading so once the
    loop has been lost in its [catch] at a chapter whose id cannot be
    printed; it reads "Ready to publish" exactly when every chapter of
    the book has an answer, failures included; without a book there is
    no header line. *)
Theorem header_tells_the_loop c :
  reachable c →
  match header (app c) with
  | Some WritingBook =>
      ∃ b, book (app c) = Some b ∧ length (written c) < length (Book.chapters b) ∧
        ((∃ k cb rawText,
            tasks c !! k = Some (AwaitChapter cb rawText (length (written c)))) ∨
         (loop_lost c ∧
          ∃ ch, chapter_at c (length (written c)) = Some ch ∧ log_raises (Some ch) = true))
  | Some ReadyToPublish =>
      ∃ b, book (app c) = Some b ∧ length (written c) = length (Book.chapters b) ∧
           ∀ k cb rawText i, tasks c !! k ≠ Some (AwaitChapter cb rawText i)
  | None => book (app c) = None
  end.
Proof.
  intros Hc. apply reachable_Inv in Hc. pose proof Hc as HI.
  unfold header, showEditor. unfold Inv in Hc.
  destruct (loadingState (app c)) eqn:Hls; simpl; try done;
    try (by destruct Hc as (? & _)); try (by destruct Hc as (_ & ? & _)).
  - destruct Hc as (_ & b & cb & rawText & covers & Hb & Hlen & Hf & Ht & Hcov & _).
    exists b. split_and!; [done | by rewrite (follows_length _ _ _ _ Hf) |].
    destruct Ht as [Ht | [Ht Hlost]].
    + assert (AwaitChapter cb rawText (length (written c)) ∈ tasks c) as Hin
        by (rewrite Ht; apply elem_of_cons; by left).
      apply list_elem_of_lookup in Hin as [k Hk]. left. by exists k, cb, rawText.
    + right. split.
      * split; [done |]. intros k cb' raw' i Hk. rewrite Ht in Hk.
        unfold cover_tasks in Hcov. destruct (isGeneratingCover (app c)).
        -- destruct Hcov as [bd ->]. by destruct k as [| k]; simplify_eq/=.
        -- by rewrite Hcov in Hk.
      * destruct (follows_lookup _ _ _ _ _ Hf Hlen) as (p & ch & Hp & Hch & _ & Hs & _).
        exists ch. unfold chapter_at. rewrite Hb. simpl.
        split; [by apply js_get_lookup |].
        unfold lost_at in Hlost. rewrite (js_get_lookup _ _ _ Hp) in Hlost.
        destruct Hs as (Hid & _). simpl in *. by rewrite Hid.
  - destruct Hc as (_ & b & cb & rawText & Hb & Hlen & Hf & Hcov & _).
    exists b. split_and!; try done; [by rewrite (follows_length _ _ _ _ Hf) |].
    intros k cb' rawText' i Hk.
    destruct (Inv_chapter_task _ _ _ _ _ HI Hk) as (Hw & _). congruence.
Qed.

Lemma header_tells_the_loop_witness :
  reachable Sample.one_done ∧
  match header (app Sample.one_done) with
  | Some WritingBook =>
      ∃ b, book (app Sample.one_done) = Some b ∧
        length (written Sample.one_done) < length (Book.chapters b) ∧
        ((∃ k cb rawText,
            tasks Sample.one_done !! k =
              Some (AwaitChapter cb rawText (length (written Sample.one_done)))) ∨
         (loop_lost Sample.one_done ∧
          ∃ ch, chapter_at Sample.one_done (length (written Sample.one_done)) = Some ch ∧
                log_raises (Some ch) = true))
  | Some ReadyToPublish =>
      ∃ b, book (app Sample.one_done) = Some b ∧
           length (written Sample.one_done) = length (Book.chapters b) ∧
           ∀ k cb rawText i, tasks Sample.one_done !! k ≠ Some (AwaitChapter cb rawText i)
  | None => book (app Sample.one_done) = None
  end.
Proof.
  assert (reachable Sample.one_done) as Hreach
    by (apply (exec_reachable
                 (Sample.to_writing ++
                  [Settle 1 (ChapterSettled (Resolved (Some "First chapter"%string)))])
                 initialConfig); [apply reachable_init | reflexivity]).
  split; [exact Hreach |]. apply (header_tells_the_loop Sample.one_done). exact Hreach.
Defined.
